(** * ii-agent gateway: session store, connection gate, task supervisor, upload

    A shallow embedding of
      - src/ii_agent/db/manager.py   (module [Db]),
      - ws_server.py                 (modules [Ws], [Rest] and [Upload]),
    followed by the properties of the specification that were stated
    against them. *)

From Stdlib Require Import ZArith Lia Ascii String.
From Stdlib Require Import Sorting.Sorted Sorting.Permutation.
From stdpp Require Import gmap strings list fin_maps pretty.

Local Open Scope string_scope.
Local Open Scope Z_scope.
Local Open Scope list_scope.

(* ===================================================================== *)
(** * The session and event store (db/manager.py)                        *)
(* ===================================================================== *)

Module Db.

(** A document of the [sessions] collection. The [_id] is the key of
    the collection, the other fields are the ones [create_session]
    writes. *)
Record SessionDoc := mkSession {
  s_user_id : string;
  s_device_id : option string;
  s_workspace_session_uuid : string;
  s_workspace_dir : string;
  s_is_active : bool;
  s_last_activated_at : Z;
  s_created_at : Z;
  s_deactivated_at : option Z
}.

(** A document of the [events] collection, as [save_event] builds it.
    [e_id] stands for the ObjectId the store generates. *)
Record EventDoc := mkEvent {
  e_id : nat;
  e_session_id : string;
  e_user_id : string;
  e_device_id : option string;
  e_timestamp : Z;
  e_event_type : string;
  e_event_payload : string
}.

(** [DatabaseManager]: the two collections. Sessions are keyed by
    [_id]; events are kept in insertion order. *)
Record Database := mkDb {
  sessions_collection : gmap string SessionDoc;
  events_collection : list EventDoc
}.

Definition empty_db : Database := mkDb ∅ [].

(** pymongo.ASCENDING = 1, pymongo.DESCENDING = -1 *)
Inductive SortOrder := ASCENDING | DESCENDING.

(** ** create_session *)

(** The filter [{"user_id": u, "device_id": d, "is_active": True}]. *)
Definition matches_active (u : string) (d : option string)
    (doc : SessionDoc) : bool :=
  bool_decide (s_user_id doc = u) && bool_decide (s_device_id doc = d)
  && s_is_active doc.

(** [{"$set": {"is_active": False, "deactivated_at": now}}] *)
Definition set_deactivated (now : Z) (doc : SessionDoc) : SessionDoc :=
  mkSession (s_user_id doc) (s_device_id doc)
    (s_workspace_session_uuid doc) (s_workspace_dir doc)
    false (s_last_activated_at doc) (s_created_at doc) (Some now).

(** [update_many(filter, update)] on the sessions collection. *)
Definition update_many_deactivate (now : Z) (u : string)
    (d : option string) (m : gmap string SessionDoc)
    : gmap string SessionDoc :=
  (λ doc, if matches_active u d doc then set_deactivated now doc else doc)
    <$> m.

(** [update_one({"_id": id}, {"$set": ..., "$setOnInsert": ...},
    upsert=True)]: an existing document keeps [created_at] (and
    whatever [deactivated_at] it carries); a new one gets
    [created_at = now]. *)
Definition upsert_session (now : Z) (id uuid dir u : string)
    (d : option string) (m : gmap string SessionDoc)
    : gmap string SessionDoc :=
  match m !! id with
  | Some old =>
      <[id := mkSession u d uuid dir true now
                (s_created_at old) (s_deactivated_at old)]> m
  | None =>
      <[id := mkSession u d uuid dir true now now None]> m
  end.

(** [DatabaseManager.create_session]; [now] is [datetime.utcnow()]. *)
Definition create_session (now : Z) (composite_session_id : string)
    (workspace_session_uuid workspace_path user_id : string)
    (device_id : option string) (db : Database) : Database :=
  let deactivated :=
    update_many_deactivate now user_id device_id (sessions_collection db) in
  mkDb (upsert_session now composite_session_id workspace_session_uuid
          workspace_path user_id device_id deactivated)
       (events_collection db).

(** One call of [create_session], with the clock reading it sees. *)
Record CreateCall := mkCall {
  c_now : Z;
  c_composite_session_id : string;
  c_workspace_session_uuid : string;
  c_workspace_path : string;
  c_user_id : string;
  c_device_id : option string
}.

Definition apply_call (db : Database) (c : CreateCall) : Database :=
  create_session (c_now c) (c_composite_session_id c)
    (c_workspace_session_uuid c) (c_workspace_path c)
    (c_user_id c) (c_device_id c) db.

(** Calls executed one after the other. *)
Definition run_calls (calls : list CreateCall) (db : Database) : Database :=
  foldl apply_call db calls.

(** The active session documents of a pair. *)
Definition active_sessions (u : string) (d : option string)
    (db : Database) : gmap string SessionDoc :=
  filter (λ kv, matches_active u d kv.2 = true) (sessions_collection db).

(** ** save_event *)

Definition save_event (now : Z) (session_id user_id : string)
    (device_id : option string) (event_type payload : string)
    (db : Database) : nat * Database :=
  let oid := length (events_collection db) in
  (oid,
   mkDb (sessions_collection db)
        (events_collection db ++
           [mkEvent oid session_id user_id device_id now event_type payload])).

(** ** get_events_for_session *)

(** [cursor.sort("timestamp", order)]: [before order a b] says that
    [a] may stand in front of [b]. *)
Definition before (o : SortOrder) (a b : EventDoc) : bool :=
  match o with
  | ASCENDING => e_timestamp a <=? e_timestamp b
  | DESCENDING => e_timestamp b <=? e_timestamp a
  end.

Fixpoint insert_sorted (o : SortOrder) (x : EventDoc) (l : list EventDoc)
    : list EventDoc :=
  match l with
  | [] => [x]
  | y :: l' => if before o x y then x :: l else y :: insert_sorted o x l'
  end.

(** Documents with equal timestamps keep their insertion order. *)
Definition sort_by_timestamp (o : SortOrder) (l : list EventDoc)
    : list EventDoc :=
  foldr (insert_sorted o) [] l.

(** The query document: [{"session_id": sid}], with ["event_type"]
    added when the filter is truthy ([None] and the empty string are
    not). *)
Definition find_query (sid : string) (event_type_filter : option string)
    (e : EventDoc) : bool :=
  bool_decide (e_session_id e = sid)
  && match event_type_filter with
     | Some t => if bool_decide (t = "") then true
                 else bool_decide (e_event_type e = t)
     | None => true
     end.

Definition get_events_for_session (db : Database) (session_id : string)
    (limit : Z) (sort_order : SortOrder) (event_type_filter : option string)
    : list EventDoc :=
  let query_cursor :=
    sort_by_timestamp sort_order
      (List.filter (find_query session_id event_type_filter)
                   (events_collection db)) in
  if 0 <? limit then take (Z.to_nat limit) query_cursor else query_cursor.

(** ** The look-ups *)

(** [find_one(filter)] on the sessions collection: the first matching
    document the collection yields, with its [_id]. Which one comes
    first among several matches is the store's business. *)
Definition find_one (filter : SessionDoc → bool)
    (m : gmap string SessionDoc) : option (string * SessionDoc) :=
  head (List.filter (λ kv, filter kv.2) (map_to_list m)).

(** [get_session_by_workspace]: [find_one({"workspace_dir": dir})] *)
Definition get_session_by_workspace (db : Database) (workspace_dir : string)
    : option (string * SessionDoc) :=
  find_one (λ doc, bool_decide (s_workspace_dir doc = workspace_dir))
    (sessions_collection db).

(** [get_session_by_id]: [find_one({"_id": str(session_id)})]; the
    [_id] is the key of the collection. *)
Definition get_session_by_id (db : Database) (session_id : string)
    : option (string * SessionDoc) :=
  (λ doc, (session_id, doc)) <$> sessions_collection db !! session_id.

(** [cursor.sort("created_at", order)] *)
Definition created_before (o : SortOrder) (a b : string * SessionDoc) : bool :=
  match o with
  | ASCENDING => s_created_at a.2 <=? s_created_at b.2
  | DESCENDING => s_created_at b.2 <=? s_created_at a.2
  end.

Fixpoint insert_by_created_at (o : SortOrder) (x : string * SessionDoc)
    (l : list (string * SessionDoc)) : list (string * SessionDoc) :=
  match l with
  | [] => [x]
  | y :: l' =>
      if created_before o x y then x :: l else y :: insert_by_created_at o x l'
  end.

Definition sort_by_created_at (o : SortOrder)
    (l : list (string * SessionDoc)) : list (string * SessionDoc) :=
  foldr (insert_by_created_at o) [] l.

(** [get_sessions_by_device_id]:
    [find({"device_id": device_id}).sort("created_at", DESCENDING)] *)
Definition get_sessions_by_device_id (db : Database) (device_id : string)
    : list (string * SessionDoc) :=
  sort_by_created_at DESCENDING
    (List.filter (λ kv, bool_decide (s_device_id kv.2 = Some device_id))
       (map_to_list (sessions_collection db))).

End Db.

(* ===================================================================== *)
(** * The websocket gateway (ws_server.py)                               *)
(* ===================================================================== *)

Module Ws.

(** ** Events *)

Inductive EventType :=
| ERROR | CONNECTION_ESTABLISHED | AGENT_INITIALIZED | PROCESSING
| WORKSPACE_INFO | PONG | SYSTEM | PROMPT_GENERATED | USER_MESSAGE.

(** [RealtimeEvent(type=..., content={...})]; the content dictionary is
    kept as the list of its items. *)
Record RealtimeEvent := mkRealtimeEvent {
  ev_type : EventType;
  ev_content : list (string * string)
}.

Definition message_event (t : EventType) (msg : string) : RealtimeEvent :=
  mkRealtimeEvent t [("message", msg)].

Definition error_event (msg : string) : RealtimeEvent :=
  message_event ERROR msg.

Definition processing_ack : RealtimeEvent :=
  message_event PROCESSING "Processing your request...".

(** ** Objects *)

(** WebSocket objects, agents and asyncio tasks are identified by
    number: dictionary keys and heap addresses. *)
Inductive SocketState := CONNECTED | DISCONNECTED.

(** The fields of the agent object that the server reads or writes.
    [message_queue] is the [asyncio.Queue] handed to the agent. *)
Record Agent := mkAgent {
  agent_websocket : option nat;
  agent_session_id : string;
  agent_user_id : string;
  agent_device_id : string;
  message_queue : list RealtimeEvent
}.

Inductive Coroutine :=
| RunAgentAsync (websocket : nat) (user_input : string) (resume : bool)
                (files : list string)
| ProcessMessages (agent : nat).

(** An [asyncio.Task]: [PENDING] until its coroutine is first entered,
    [RUNNING] while it is suspended inside its body, then [FINISHED]
    (returned or raised) or [CANCELLED]. [must_cancel] records a
    [cancel()] request that has not been delivered yet. *)
Inductive TaskState := PENDING | RUNNING | FINISHED | CANCELLED.

Record Task := mkTask {
  t_coro : Coroutine;
  t_state : TaskState;
  t_must_cancel : bool
}.

(** What the server does to the outside, in the order it does it. *)
Inductive Sender := Handler | TaskSender (tid : nat).

Inductive Effect :=
| Sent (by_ : Sender) (ws : nat) (ev : RealtimeEvent)
| Closed (ws : nat)
| Spawned (tid : nat)
| CancelRequested (tid : nat).

(** The module-level dictionaries of ws_server.py, the objects they
    refer to, the store, and the log of effects. *)
Record Server := mkServer {
  active_connections : gset nat;
  active_agents : gmap nat nat;
  active_tasks : gmap nat nat;
  message_processors : gmap nat nat;
  sockets : gmap nat SocketState;
  agents : list Agent;
  tasks : list Task;
  db : Db.Database;
  trace : list Effect
}.

Definition initial : Server :=
  mkServer ∅ ∅ ∅ ∅ ∅ [] [] Db.empty_db [].

Definition set_active_connections (x : gset nat) (s : Server) : Server :=
  mkServer x (active_agents s) (active_tasks s) (message_processors s)
    (sockets s) (agents s) (tasks s) (db s) (trace s).
Definition set_active_agents (x : gmap nat nat) (s : Server) : Server :=
  mkServer (active_connections s) x (active_tasks s) (message_processors s)
    (sockets s) (agents s) (tasks s) (db s) (trace s).
Definition set_active_tasks (x : gmap nat nat) (s : Server) : Server :=
  mkServer (active_connections s) (active_agents s) x (message_processors s)
    (sockets s) (agents s) (tasks s) (db s) (trace s).
Definition set_message_processors (x : gmap nat nat) (s : Server) : Server :=
  mkServer (active_connections s) (active_agents s) (active_tasks s) x
    (sockets s) (agents s) (tasks s) (db s) (trace s).
Definition set_sockets (x : gmap nat SocketState) (s : Server) : Server :=
  mkServer (active_connections s) (active_agents s) (active_tasks s)
    (message_processors s) x (agents s) (tasks s) (db s) (trace s).
Definition set_agents (x : list Agent) (s : Server) : Server :=
  mkServer (active_connections s) (active_agents s) (active_tasks s)
    (message_processors s) (sockets s) x (tasks s) (db s) (trace s).
Definition set_tasks (x : list Task) (s : Server) : Server :=
  mkServer (active_connections s) (active_agents s) (active_tasks s)
    (message_processors s) (sockets s) (agents s) x (db s) (trace s).
Definition set_db (x : Db.Database) (s : Server) : Server :=
  mkServer (active_connections s) (active_agents s) (active_tasks s)
    (message_processors s) (sockets s) (agents s) (tasks s) x (trace s).
Definition emit (l : list Effect) (s : Server) : Server :=
  mkServer (active_connections s) (active_agents s) (active_tasks s)
    (message_processors s) (sockets s) (agents s) (tasks s) (db s)
    (trace s ++ l).

(** Everything that has been sent on a socket, oldest first. *)
Definition outbox (ws : nat) (s : Server) : list RealtimeEvent :=
  omap (λ e, match e with
             | Sent _ ws' ev => if decide (ws' = ws) then Some ev else None
             | _ => None
             end) (trace s).

(** ** Exceptions and the handler monad *)

Inductive Exn :=
| JSONDecodeError
| TransportClosed
| Exception (msg : string).

Definition exn_str (e : Exn) : string :=
  match e with
  | JSONDecodeError => "Expecting value"
  | TransportClosed => "connection closed"
  | Exception msg => msg
  end.

Inductive Outcome (A : Type) :=
| Return (a : A)
| Raise (e : Exn).
Arguments Return {A} a.
Arguments Raise {A} e.

(** A handler changes the server state and returns or raises; what it
    changed before raising stays changed. *)
Definition M (A : Type) : Type := Server → Outcome A * Server.

#[global] Instance M_ret : MRet M := λ A a s, (Return a, s).
#[global] Instance M_bind : MBind M := λ A B f c s,
  match c s with
  | (Return a, s') => f a s'
  | (Raise e, s') => (Raise e, s')
  end.

Definition raise {A : Type} (e : Exn) : M A := λ s, (Raise e, s).
Definition modify (f : Server → Server) : M unit := λ s, (Return (), f s).

(** [try: body except e: handler(e)] *)
Definition try_except {A : Type} (body : M A) (handler : Exn → M A) : M A :=
  λ s, match body s with
       | (Return a, s') => (Return a, s')
       | (Raise e, s') => handler e s'
       end.

(** ** Sockets *)

(** [await websocket.send_json(event.model_dump())]: raises once the
    transport is gone. *)
Definition send_json (by_ : Sender) (ws : nat) (ev : RealtimeEvent) : M unit :=
  λ s, match sockets s !! ws with
       | Some CONNECTED => (Return (), emit [Sent by_ ws ev] s)
       | _ => (Raise TransportClosed, s)
       end.

(** [await websocket.accept()] *)
Definition accept (ws : nat) : M unit :=
  modify (λ s, set_sockets (<[ws := CONNECTED]> (sockets s)) s).

(** [await websocket.close()] *)
Definition close (ws : nat) : M unit :=
  modify (λ s, emit [Closed ws] (set_sockets (<[ws := DISCONNECTED]> (sockets s)) s)).

(** ** Tasks *)

Definition is_done (st : TaskState) : bool :=
  match st with
  | FINISHED | CANCELLED => true
  | PENDING | RUNNING => false
  end.

(** [task.done()] *)
Definition task_done (tid : nat) (s : Server) : bool :=
  match tasks s !! tid with
  | Some t => is_done (t_state t)
  | None => true
  end.

(** [websocket in active_tasks and not active_tasks[websocket].done()] *)
Definition task_in_flight (ws : nat) (s : Server) : bool :=
  match active_tasks s !! ws with
  | Some tid => negb (task_done tid s)
  | None => false
  end.

(** [asyncio.create_task(coro)]: the new task is scheduled, not run. *)
Definition create_task (c : Coroutine) : M nat :=
  λ s, let tid := length (tasks s) in
       (Return tid,
        emit [Spawned tid] (set_tasks (tasks s ++ [mkTask c PENDING false]) s)).

Definition set_task_state (tid : nat) (st : TaskState) (s : Server) : Server :=
  set_tasks (alter (λ t, mkTask (t_coro t) st (t_must_cancel t)) tid (tasks s)) s.

(** [task.cancel()]: a request; a task that is done ignores it. *)
Definition task_cancel (tid : nat) (s : Server) : Server :=
  if task_done tid s then s
  else emit [CancelRequested tid]
         (set_tasks (alter (λ t, mkTask (t_coro t) (t_state t) true) tid (tasks s)) s).

(** ** cleanup_connection *)

(** The four blocks of [cleanup_connection], in the order of the
    source. *)

(** [if websocket in active_connections: active_connections.remove(websocket)] *)
Definition remove_connection (websocket : nat) (s : Server) : Server :=
  if decide (websocket ∈ active_connections s)
  then set_active_connections (active_connections s ∖ {[websocket]}) s
  else s.

(** [agent.websocket = None]: the agent object stays, and so does its
    message processor; only the reference to the processor is dropped. *)
Definition detach_agent (websocket : nat) (s : Server) : Server :=
  match active_agents s !! websocket with
  | Some aid =>
      let s' :=
        set_agents
          (alter (λ a, mkAgent None (agent_session_id a) (agent_user_id a)
                         (agent_device_id a) (message_queue a))
                 aid (agents s)) s in
      if decide (is_Some (message_processors s' !! websocket))
      then set_message_processors (delete websocket (message_processors s')) s'
      else s'
  | None => s
  end.

(** [if websocket in active_tasks and not active_tasks[websocket].done():
       active_tasks[websocket].cancel(); del active_tasks[websocket]] *)
Definition cancel_running_task (websocket : nat) (s : Server) : Server :=
  match active_tasks s !! websocket with
  | Some tid =>
      if negb (task_done tid s)
      then let s' := task_cancel tid s in
           set_active_tasks (delete websocket (active_tasks s')) s'
      else s
  | None => s
  end.

(** [if websocket in active_agents: del active_agents[websocket]] *)
Definition remove_agent (websocket : nat) (s : Server) : Server :=
  if decide (is_Some (active_agents s !! websocket))
  then set_active_agents (delete websocket (active_agents s)) s
  else s.

Definition cleanup_connection (websocket : nat) (s : Server) : Server :=
  remove_agent websocket
    (cancel_running_task websocket
       (detach_agent websocket
          (remove_connection websocket s))).

(** ** fetch_user_id *)

(** A Python value as far as the server looks at it: [None], a string,
    or anything else, of which only the truth value and [str()] matter. *)
Inductive PyValue :=
| PyNone
| PyStr (s : string)
| PyOther (truthy : bool) (str : string).

Definition py_truthy (v : PyValue) : bool :=
  match v with
  | PyNone => false
  | PyStr s => negb (String.eqb s "")
  | PyOther b _ => b
  end.

Definition py_str (v : PyValue) : string :=
  match v with
  | PyNone => "None"
  | PyStr s => s
  | PyOther _ r => r
  end.

(** What [response.json()] gives. *)
Inductive ResponseBody :=
| NotJson
| JsonNotObject
| JsonObject (fields : list (string * PyValue)).

(** What [client.post(..., timeout=10.0)] gives. *)
Inductive HttpOutcome :=
| RequestError (msg : string)
| UnexpectedError (msg : string)
| Response (status_code : Z) (body : ResponseBody).

(** [dict.get(key)] *)
Fixpoint dict_get (key : string) (d : list (string * PyValue)) : PyValue :=
  match d with
  | [] => PyNone
  | (k, v) :: d' => if String.eqb k key then v else dict_get key d'
  end.

Definition has_field (key : string) (d : list (string * PyValue)) : bool :=
  existsb (λ kv, String.eqb kv.1 key) d.

(** [response.raise_for_status()] raises unless the status is 2xx. *)
Definition is_success (status_code : Z) : bool :=
  (200 <=? status_code) && (status_code <=? 299).

(** 4xx and 5xx *)
Definition is_error_status (status_code : Z) : bool :=
  (400 <=? status_code) && (status_code <=? 599).

(** [fetch_user_id]: every [except] branch logs and returns [None]. *)
Definition fetch_user_id (http : HttpOutcome) : option PyValue :=
  match http with
  | RequestError _ => None                     (* except httpx.RequestError *)
  | UnexpectedError _ => None                  (* except Exception *)
  | Response status_code body =>
      if negb (is_success status_code) then None (* except httpx.HTTPStatusError *)
      else match body with
           | NotJson => None                   (* except Exception *)
           | JsonNotObject => None             (* except Exception *)
           | JsonObject fields =>
               let user_id := dict_get "user_id" fields in
               if py_truthy user_id then Some user_id else None
           end
  end.

(** ** websocket_endpoint: the handshake *)

Record Headers := mkHeaders {
  h_Authorization : option string;
  h_X_API_Key : option string;
  h_X_Client_Key : option string;
  h_X_Device_ID : option string
}.

(** What the collaborators give during one handshake in which
    [create_workspace_manager_for_connection] returns: the identity
    service's answer, the workspace the provisioner creates ([uuid4()]
    and the manager's root), and the error [get_client] raises, if it
    does. The handshake in which the provisioner raises is
    [websocket_endpoint_unprovisioned] below. *)
Record HandshakeEnv := mkHandshakeEnv {
  he_http : HttpOutcome;
  he_workspace_session_uuid : string;
  he_workspace_root : string;
  he_get_client_error : option string
}.

(** The local variables of [websocket_endpoint] that the dispatch loop
    uses. *)
Record ConnCtx := mkConnCtx {
  cx_websocket : nat;
  cx_user_id : string;
  cx_device_id : string;
  cx_composite_session_id : string;
  cx_workspace_session_uuid : string;
  cx_workspace_manager : option string
}.

Inductive HandshakeResult :=
| Ready (cx : ConnCtx)     (* the dispatch loop is entered *)
| Returned.                (* the endpoint coroutine is over *)

Definition websocket_endpoint_handshake (websocket : nat) (h : Headers)
    (env : HandshakeEnv) : M HandshakeResult :=
  accept websocket ;;
  let user_id := fetch_user_id (he_http env) in
  match user_id with
  | None =>
      send_json Handler websocket (error_event "User authentication failed.") ;;
      close websocket ;;
      mret Returned
  | Some user_id =>
      match h_X_Device_ID h with
      | None =>
          send_json Handler websocket
            (error_event "X-Device-ID header is required and was not found.") ;;
          close websocket ;;
          mret Returned
      | Some device_id_header =>
          if String.eqb device_id_header "" then
            send_json Handler websocket
              (error_event "X-Device-ID header is required and was not found.") ;;
            close websocket ;;
            mret Returned
          else
          let composite_session_id :=
            py_str user_id +:+ "_" +:+ device_id_header in
          modify (λ s, set_active_connections
                         ({[websocket]} ∪ active_connections s) s) ;;
          let cx := mkConnCtx websocket (py_str user_id) device_id_header
                      composite_session_id (he_workspace_session_uuid env)
                      (Some (he_workspace_root env)) in
          (* try: ... except: cleanup_connection(websocket) *)
          try_except
            (match he_get_client_error env with
             | Some err => raise (Exception err)
             | None =>
                 send_json Handler websocket
                   (mkRealtimeEvent CONNECTION_ESTABLISHED
                      [("message", "Connected to Agent WebSocket Server");
                       ("workspace_path", he_workspace_root env)]) ;;
                 mret (Ready cx)
             end)
            (λ _, modify (cleanup_connection websocket) ;; mret Returned)
      end
  end.

(** The same coroutine when [create_workspace_manager_for_connection]
    raises [err] ([mkdir] fails): the call stands after
    [active_connections.add(websocket)] and before the [try], so the
    exception leaves the endpoint and no [except] clause removes the
    socket again. Up to that call the coroutine is the one above. *)
Definition websocket_endpoint_unprovisioned (websocket : nat) (h : Headers)
    (http : HttpOutcome) (err : string) : M HandshakeResult :=
  accept websocket ;;
  let user_id := fetch_user_id http in
  match user_id with
  | None =>
      send_json Handler websocket (error_event "User authentication failed.") ;;
      close websocket ;;
      mret Returned
  | Some user_id =>
      match h_X_Device_ID h with
      | None =>
          send_json Handler websocket
            (error_event "X-Device-ID header is required and was not found.") ;;
          close websocket ;;
          mret Returned
      | Some device_id_header =>
          if String.eqb device_id_header "" then
            send_json Handler websocket
              (error_event "X-Device-ID header is required and was not found.") ;;
            close websocket ;;
            mret Returned
          else
          modify (λ s, set_active_connections
                         ({[websocket]} ∪ active_connections s) s) ;;
          raise (Exception err)
      end
  end.

(** ** create_agent_for_connection *)

(** What the collaborators do while one message is handled. *)
Inductive InitOutcome :=
| DbUnavailable (err : string)   (* logging set-up or DatabaseManager() raises *)
| FactoryFails (err : string)    (* building the tools or the agent raises *)
| AgentBuilt.

Inductive EnhanceOutcome :=
| EnhanceRaises (err : string)
| EnhanceReturns (success : bool) (message : string) (enhanced_prompt : string).

Record Oracle := mkOracle {
  o_now : Z;
  o_init : InitOutcome;
  o_enhance : EnhanceOutcome
}.

Definition create_agent_for_connection (cx : ConnCtx) (orc : Oracle) : M nat :=
  match o_init orc with
  | DbUnavailable err => raise (Exception err)
  | outcome =>
      (* Create a new session in the database *)
      modify (λ s, set_db
                     (Db.create_session (o_now orc)
                        (cx_composite_session_id cx)
                        (cx_workspace_session_uuid cx)
                        (default "" (cx_workspace_manager cx))
                        (cx_user_id cx) (Some (cx_device_id cx)) (db s)) s) ;;
      match outcome with
      | AgentBuilt =>
          λ s, let aid := length (agents s) in
               (Return aid,
                set_agents (agents s ++
                  [mkAgent (Some (cx_websocket cx)) (cx_composite_session_id cx)
                     (cx_user_id cx) (cx_device_id cx) []]) s)
      | FactoryFails err | DbUnavailable err => raise (Exception err)
      end
  end.

(** ** websocket_endpoint: the dispatch loop *)

Record Content := mkContent {
  c_text : string;
  c_resume : bool;
  c_files : list string
}.

(** What [json.loads(data)] and the two [.get] calls on its result give. *)
Inductive Decoded :=
| InvalidJson
| Unprocessable (err : string)
| Message (msg_type : string) (content : Content).

(** What [await websocket.receive_text()] gives: the text of a frame,
    or an exception - [WebSocketDisconnect], or another one, as for a
    frame that carries no text. The call stands outside the inner
    [try]. *)
Inductive Incoming :=
| ClientGone                 (* receive_text raises WebSocketDisconnect *)
| Data (d : Decoded)
| ReceiveRaises (err : string).

Definition handle_message (cx : ConnCtx) (orc : Oracle) (msg_type : string)
    (content : Content) : M unit :=
  let websocket := cx_websocket cx in
  if String.eqb msg_type "init_agent" then
    agent ← create_agent_for_connection cx orc ;
    modify (λ s, set_active_agents (<[websocket := agent]> (active_agents s)) s) ;;
    message_processor ← create_task (ProcessMessages agent) ;
    modify (λ s, set_message_processors
                   (<[websocket := message_processor]> (message_processors s)) s) ;;
    send_json Handler websocket (message_event AGENT_INITIALIZED "Agent initialized")
  else if String.eqb msg_type "query" then
    λ s,
      if task_in_flight websocket s then
        send_json Handler websocket
          (error_event "A query is already being processed") s
      else
        (send_json Handler websocket processing_ack ;;
         task ← create_task (RunAgentAsync websocket (c_text content)
                               (c_resume content) (c_files content)) ;
         modify (λ s, set_active_tasks (<[websocket := task]> (active_tasks s)) s)) s
  else if String.eqb msg_type "workspace_info" then
    match cx_workspace_manager cx with
    | Some root =>
        send_json Handler websocket (mkRealtimeEvent WORKSPACE_INFO [("path", root)])
    | None =>
        send_json Handler websocket (error_event "Workspace not initialized")
    end
  else if String.eqb msg_type "ping" then
    send_json Handler websocket (mkRealtimeEvent PONG [])
  else if String.eqb msg_type "cancel" then
    λ s,
      if task_in_flight websocket s then
        (modify (λ s, match active_tasks s !! websocket with
                      | Some tid => task_cancel tid s
                      | None => s
                      end) ;;
         send_json Handler websocket (message_event SYSTEM "Query canceled")) s
      else
        send_json Handler websocket (error_event "No active query to cancel") s
  else if String.eqb msg_type "enhance_prompt" then
    match o_enhance orc with
    | EnhanceRaises err => raise (Exception err)
    | EnhanceReturns success message enhanced_prompt =>
        if success && negb (String.eqb enhanced_prompt "") then
          send_json Handler websocket
            (mkRealtimeEvent PROMPT_GENERATED
               [("result", enhanced_prompt); ("original_request", c_text content)])
        else
          send_json Handler websocket (error_event message)
    end
  else
    send_json Handler websocket
      (error_event ("Unknown message type: " +:+ msg_type)).

(** The body of the [while True] loop after [receive_text] returned:
    the inner [try] with its two [except] clauses. *)
Definition on_receive (cx : ConnCtx) (orc : Oracle) (d : Decoded) : M unit :=
  try_except
    (match d with
     | InvalidJson => raise JSONDecodeError
     | Unprocessable err => raise (Exception err)
     | Message msg_type content => handle_message cx orc msg_type content
     end)
    (λ e, match e with
          | JSONDecodeError =>
              send_json Handler (cx_websocket cx) (error_event "Invalid JSON format")
          | _ =>
              send_json Handler (cx_websocket cx)
                (error_event ("Error processing request: " +:+ exn_str e))
          end).

Inductive LoopResult :=
| Continue (s : Server)
| Stop (s : Server).

(** One iteration of the loop; what escapes the inner [try] reaches the
    outer [except] clauses, which both call [cleanup_connection]. *)
Definition loop_iteration (cx : ConnCtx) (orc : Oracle) (i : Incoming)
    (s : Server) : LoopResult :=
  match i with
  | ClientGone => Stop (cleanup_connection (cx_websocket cx) s)
  | Data d =>
      match on_receive cx orc d s with
      | (Return _, s') => Continue s'
      | (Raise _, s') => Stop (cleanup_connection (cx_websocket cx) s')
      end
  | ReceiveRaises _ => Stop (cleanup_connection (cx_websocket cx) s)
  end.

(** ** run_agent_async *)

(** What the scheduler or the agent does next with a task. *)
Inductive TaskEvent :=
| Start                      (* the coroutine is entered *)
| RunReturns                 (* agent.run_agent returned *)
| RunRaises (err : string)   (* agent.run_agent raised *)
| CancelSeen.                (* a requested cancellation is delivered *)

(** [finally: if websocket in active_tasks: del active_tasks[websocket]] *)
Definition finally_clause (websocket : nat) (s : Server) : Server :=
  set_active_tasks (delete websocket (active_tasks s)) s.

Definition run_agent_async_step (tid : nat) (websocket : nat)
    (user_input : string) (st : TaskState) (must_cancel : bool)
    (ev : TaskEvent) (s : Server) : Server :=
  match st, ev with
  | PENDING, Start =>
      if must_cancel then s
      else
        match active_agents s !! websocket with
        | None =>
            (* if not agent: send the error and return *)
            let r := send_json (TaskSender tid) websocket
                       (error_event "Agent not initialized for this connection") s in
            set_task_state tid FINISHED r.2
        | Some aid =>
            (* agent.message_queue.put_nowait(USER_MESSAGE), then the
               await on agent.run_agent *)
            let s' :=
              set_agents
                (alter (λ a, mkAgent (agent_websocket a) (agent_session_id a)
                               (agent_user_id a) (agent_device_id a)
                               (message_queue a ++
                                  [mkRealtimeEvent USER_MESSAGE [("text", user_input)]]))
                       aid (agents s)) s in
            set_task_state tid RUNNING s'
        end
  | PENDING, CancelSeen =>
      (* cancelled before the body was entered: no line of it runs *)
      if must_cancel then set_task_state tid CANCELLED s else s
  | RUNNING, RunReturns =>
      set_task_state tid FINISHED (finally_clause websocket s)
  | RUNNING, RunRaises err =>
      let r := send_json (TaskSender tid) websocket
                 (error_event ("Error running agent: " +:+ err)) s in
      set_task_state tid FINISHED (finally_clause websocket r.2)
  | RUNNING, CancelSeen =>
      if must_cancel
      then set_task_state tid CANCELLED (finally_clause websocket s)
      else s
  | _, _ => s
  end.

(** A step of a task. Of the message processor, which belongs to the
    agent, only its start is modelled: once entered it waits on the
    queue. *)
Definition task_step (tid : nat) (ev : TaskEvent) (s : Server) : Server :=
  match tasks s !! tid with
  | Some (mkTask (RunAgentAsync websocket user_input _ _) st must_cancel) =>
      run_agent_async_step tid websocket user_input st must_cancel ev s
  | Some (mkTask (ProcessMessages _) PENDING false) =>
      match ev with
      | Start => set_task_state tid RUNNING s
      | _ => s
      end
  | _ => s
  end.

(** ** The whole server *)

(** The server together with the endpoint coroutines that are in their
    dispatch loop. *)
Record World := mkWorld {
  w_server : Server;
  w_loops : gmap nat ConnCtx
}.

Definition boot : World := mkWorld initial ∅.

(** What can happen next: a client connects and its workspace is
    provisioned, or cannot be; a connection's [receive_text] returns or
    raises; a client goes away; a task is scheduled. *)
Inductive Label :=
| Connect (ws : nat) (h : Headers) (env : HandshakeEnv)
| Receive (ws : nat) (i : Incoming) (orc : Oracle)
| ClientDrop (ws : nat)
| TaskStep (tid : nat) (ev : TaskEvent)
| ConnectUnprovisioned (ws : nat) (h : Headers) (http : HttpOutcome)
                       (err : string).

Definition step (w : World) (l : Label) : World :=
  let s := w_server w in
  match l with
  | Connect ws h env =>
      match sockets s !! ws with
      | Some _ => w               (* not a new connection *)
      | None =>
          match websocket_endpoint_handshake ws h env s with
          | (Return (Ready cx), s') => mkWorld s' (<[ws := cx]> (w_loops w))
          | (_, s') => mkWorld s' (w_loops w)
          end
      end
  | Receive ws i orc =>
      match w_loops w !! ws with
      | None => w
      | Some cx =>
          let i' := match sockets s !! ws with
                    | Some CONNECTED => i
                    | _ => ClientGone
                    end in
          match loop_iteration cx orc i' s with
          | Continue s' => mkWorld s' (w_loops w)
          | Stop s' => mkWorld s' (delete ws (w_loops w))
          end
      end
  | ClientDrop ws =>
      match sockets s !! ws with
      | Some _ => mkWorld (set_sockets (<[ws := DISCONNECTED]> (sockets s)) s)
                          (w_loops w)
      | None => w
      end
  | TaskStep tid ev => mkWorld (task_step tid ev s) (w_loops w)
  | ConnectUnprovisioned ws h http err =>
      match sockets s !! ws with
      | Some _ => w               (* not a new connection *)
      | None =>
          mkWorld (websocket_endpoint_unprovisioned ws h http err s).2
                  (w_loops w)
      end
  end.

Definition run (ls : list Label) (w : World) : World := foldl step w ls.

End Ws.

(* ===================================================================== *)
(** * The REST handlers for sessions and events (ws_server.py)           *)
(* ===================================================================== *)

Module Rest.

(** The names ws_server.py binds at module level: its imports, its
    assignments and its functions, in the order of the file. *)
Definition module_globals : list string :=
  ["os"; "argparse"; "asyncio"; "json"; "logging"; "uuid"; "Path";
   "Dict"; "List"; "Set"; "Any"; "load_dotenv"; "uvicorn";
   "FastAPI"; "WebSocket"; "WebSocketDisconnect"; "Request"; "HTTPException";
   "JSONResponse"; "CORSMiddleware"; "anyio"; "base64"; "httpx";
   "asc"; "text"; "RealtimeEvent"; "EventType"; "Event";
   "DEFAULT_MODEL"; "UPLOAD_FOLDER_NAME"; "parse_common_args";
   "AnthropicFC"; "BaseAgent"; "LLMClient"; "WorkspaceManager"; "get_client";
   "enhance_user_prompt"; "StaticFiles"; "FileBasedContextManager";
   "StandardContextManager"; "TokenCounter"; "DatabaseManager";
   "get_system_tools"; "SYSTEM_PROMPT";
   "MAX_OUTPUT_TOKENS_PER_TURN"; "MAX_TURNS"; "app"; "logger";
   "active_connections"; "active_agents"; "active_tasks";
   "message_processors"; "global_args";
   "fetch_user_id"; "websocket_endpoint"; "run_agent_async";
   "cleanup_connection"; "create_agent_for_connection"; "setup_workspace";
   "main"; "upload_file_endpoint"; "create_workspace_manager_for_connection";
   "get_sessions_by_device_id"; "get_session_events"].

(** Looking a name up from inside a function: its local names first,
    then the module's. (No built-in is called [pymongo].) *)
Definition name_defined (locals : list string) (name : string) : bool :=
  bool_decide (name ∈ locals) || bool_decide (name ∈ module_globals).

(** The local names of the two handlers at the point where they mention
    [pymongo]: [get_sessions_by_device_id] has executed
    [import pymongo] in its own body, [get_session_events] has not. *)
Definition locals_of_get_sessions_by_device_id : list string :=
  ["device_id"; "db_manager"; "pymongo"; "sessions_data";
   "processed_sessions"; "session_doc"; "first_message_text"].

Definition locals_of_get_session_events : list string :=
  ["session_id"; "db_manager"].

Inductive HttpResult (A : Type) :=
| Ok (body : A)
| HTTPException (status_code : Z) (detail : string).
Arguments Ok {A} body.
Arguments HTTPException {A} status_code detail.

(** One element of the ["events"] list of the response. *)
Record EventJson := mkEventJson {
  j_id : nat;
  j_session_id : string;
  j_user_id : string;
  j_device_id : option string;
  j_timestamp : Z;
  j_event_type : string;
  j_event_payload : string
}.

Definition event_json (e : Db.EventDoc) : EventJson :=
  mkEventJson (Db.e_id e) (Db.e_session_id e) (Db.e_user_id e)
    (Db.e_device_id e) (Db.e_timestamp e) (Db.e_event_type e)
    (Db.e_event_payload e).

(** [get_session_events]: the call
    [db_manager.get_events_for_session(session_id, sort_order=pymongo.ASCENDING)]
    evaluates the name [pymongo]; a [NameError] is an [Exception] and
    is turned into the 500 response. *)
Definition get_session_events (db : Db.Database) (session_id : string)
    : HttpResult (list EventJson) :=
  if name_defined locals_of_get_session_events "pymongo" then
    let events_data :=
      Db.get_events_for_session db session_id 0 Db.ASCENDING None in
    Ok (map event_json events_data)
  else
    HTTPException 500
      ("Error retrieving events: " +:+ "name 'pymongo' is not defined").

(** What the docstring of [get_session_events] promises: all events of
    the session, sorted by timestamp ascending. *)
Definition get_session_events_documented (db : Db.Database)
    (session_id : string) : HttpResult (list EventJson) :=
  Ok (map event_json
        (Db.get_events_for_session db session_id 0 Db.ASCENDING None)).

(** ** get_sessions_by_device_id *)

(** One element of the ["sessions"] list of the response. *)
Record SessionJson := mkSessionJson {
  sj_id : string;
  sj_workspace_dir : string;
  sj_created_at : Z;
  sj_last_activated_at : Z;
  sj_device_id : option string;
  sj_user_id : string;
  sj_is_active : bool;
  sj_workspace_session_uuid : string;
  sj_first_message : string
}.

(** [EventType.USER_MESSAGE.value] *)
Definition USER_MESSAGE_value : string := "user_message".

Section Sessions.

(** The store model keeps [event_payload], the dictionary that
    [event.model_dump()] gave, as one string. [content_text] stands for
    what the handler reads out of it: the empty string unless it is a
    dictionary, else [payload.get("content", {}).get("text", "")]. *)
Variable content_text : string → string.

(** The first user message of a session: the query with [limit=1],
    ascending, filtered on the user-message type. *)
Definition first_message (db : Db.Database) (session_id : string) : string :=
  let first_user_events :=
    Db.get_events_for_session db session_id 1 Db.ASCENDING
      (Some USER_MESSAGE_value) in
  match first_user_events with
  | e :: _ => content_text (Db.e_event_payload e)
  | [] => ""
  end.

Definition session_json (db : Db.Database) (kv : string * Db.SessionDoc)
    : SessionJson :=
  let session_doc := kv.2 in
  mkSessionJson kv.1
    (Db.s_workspace_dir session_doc)
    (Db.s_created_at session_doc)
    (Db.s_last_activated_at session_doc)
    (Db.s_device_id session_doc)
    (Db.s_user_id session_doc)
    (Db.s_is_active session_doc)
    (Db.s_workspace_session_uuid session_doc)
    (first_message db kv.1).

(** [get_sessions_by_device_id]: here [pymongo] is a local name of the
    handler by the time it is mentioned. *)
Definition get_sessions_by_device_id (db : Db.Database) (device_id : string)
    : HttpResult (list SessionJson) :=
  if name_defined locals_of_get_sessions_by_device_id "pymongo" then
    let sessions_data := Db.get_sessions_by_device_id db device_id in
    Ok (map (session_json db) sessions_data)
  else
    HTTPException 500
      ("Error retrieving sessions: " +:+ "name 'pymongo' is not defined").

End Sessions.

End Rest.

(* ===================================================================== *)
(** * The upload endpoint (ws_server.py)                                 *)
(* ===================================================================== *)

Module Upload.

(** ** Strings and pure paths *)

Fixpoint split_on (sep : ascii) (s : string) : list string :=
  match s with
  | EmptyString => [""]
  | String c s' =>
      if Ascii.eqb c sep then "" :: split_on sep s'
      else match split_on sep s' with
           | [] => [String c ""]
           | w :: ws => String c w :: ws
           end
  end.

(** [str.rfind(c)] *)
Fixpoint rfind (c : ascii) (s : string) : option nat :=
  match s with
  | EmptyString => None
  | String a s' =>
      match rfind c s' with
      | Some i => Some (S i)
      | None => if Ascii.eqb a c then Some 0%nat else None
      end
  end.

(** [str.split(",", 1)] unpacked into two names. *)
Fixpoint split_first (sep : ascii) (s : string) : option (string * string) :=
  match s with
  | EmptyString => None
  | String c s' =>
      if Ascii.eqb c sep then Some ("", s')
      else match split_first sep s' with
           | Some (a, b) => Some (String c a, b)
           | None => None
           end
  end.

(** [Path(s).parts] without the root: empty components and ["."] are
    dropped, [".."] is kept. *)
Definition parts (s : string) : list string :=
  List.filter (λ c, negb (String.eqb c "") && negb (String.eqb c "."))
    (split_on "/"%char s).

(** [Path(s).is_absolute()] *)
Definition is_absolute (s : string) : bool := String.prefix "/" s.

(** [base / s] for an absolute [base], given by its components. *)
Definition joinpath (base : list string) (s : string) : list string :=
  if is_absolute s then parts s else base ++ parts s.

(** [.name], [.suffix], [.stem], [.parent] and [str()] of an absolute
    path. *)
Definition name (p : list string) : string := List.last p "".

Definition suffix (p : list string) : string :=
  let n := name p in
  match rfind "."%char n with
  | Some i =>
      if (0 <? i)%nat && (i <? String.length n - 1)%nat
      then substring i (String.length n - i) n
      else ""
  | None => ""
  end.

Definition stem (p : list string) : string :=
  let n := name p in
  match rfind "."%char n with
  | Some i =>
      if (0 <? i)%nat && (i <? String.length n - 1)%nat
      then substring 0 i n
      else n
  | None => n
  end.

Definition parent (p : list string) : list string := removelast p.

Definition render (p : list string) : string := "/" +:+ String.concat "/" p.

(** ** The file system *)

Inductive FileData :=
| Text (s : string)
| Binary (b : string).

Inductive Node :=
| Dir
| File (data : FileData).

Inductive OsError := ENOENT | ENOTDIR | EEXIST | EISDIR.

(** Files and directories by their resolved absolute path; the root is
    always a directory. *)
Definition node_at (fs : gmap (list string) Node) (p : list string)
    : option Node :=
  match p with
  | [] => Some Dir
  | _ => fs !! p
  end.

(** Path resolution by the operating system: every component is looked
    up in the directory reached so far, [".."] steps to its parent. *)
Fixpoint walk (fs : gmap (list string) Node) (cur todo : list string)
    : OsError + list string :=
  match todo with
  | [] => inr cur
  | c :: rest =>
      match node_at fs cur with
      | Some Dir =>
          walk fs (if String.eqb c ".." then removelast cur else cur ++ [c]) rest
      | Some (File _) => inl ENOTDIR
      | None => inl ENOENT
      end
  end.

Definition resolve (fs : gmap (list string) Node) (p : list string)
    : OsError + list string :=
  walk fs [] p.

(** [Path.exists()] *)
Definition path_exists (fs : gmap (list string) Node) (p : list string) : bool :=
  match resolve fs p with
  | inr q => match node_at fs q with Some _ => true | None => false end
  | inl _ => false
  end.

(** [Path.is_dir()] *)
Definition path_is_dir (fs : gmap (list string) Node) (p : list string) : bool :=
  match resolve fs p with
  | inr q => match node_at fs q with Some Dir => true | _ => false end
  | inl _ => false
  end.

(** [os.mkdir(p)] *)
Definition os_mkdir (fs : gmap (list string) Node) (p : list string)
    : OsError + gmap (list string) Node :=
  match resolve fs p with
  | inl e => inl e
  | inr q =>
      match node_at fs q with
      | Some _ => inl EEXIST
      | None => inr (<[q := Dir]> fs)
      end
  end.

(** [Path.mkdir(parents=..., exist_ok=...)]: try [os.mkdir]; on
    [FileNotFoundError] create the parent first (unless the path is its
    own parent) and try again; any other [OSError] is fine when the
    path is a directory and [exist_ok] is set. When it raises, the
    ancestors it has created by then stay: the error comes with the
    file system as it is at that moment. [depth] bounds the number of
    missing ancestors; the length of the path is enough. *)
Fixpoint path_mkdir_rec (depth : nat) (fs : gmap (list string) Node)
    (p : list string) (parents exist_ok : bool)
    : OsError * gmap (list string) Node + gmap (list string) Node :=
  match os_mkdir fs p with
  | inr fs' => inr fs'
  | inl ENOENT =>
      if negb parents || bool_decide (parent p = p) then inl (ENOENT, fs)
      else
        match depth with
        | O => inl (ENOENT, fs)
        | S depth' =>
            match path_mkdir_rec depth' fs (parent p) true true with
            | inl e => inl e
            | inr fs1 => path_mkdir_rec depth' fs1 p false exist_ok
            end
        end
  | inl e =>
      if negb exist_ok || negb (path_is_dir fs p) then inl (e, fs) else inr fs
  end.

(** [p.mkdir(parents=True, exist_ok=True)] *)
Definition path_mkdir (fs : gmap (list string) Node) (p : list string)
    : OsError * gmap (list string) Node + gmap (list string) Node :=
  path_mkdir_rec (S (length p)) fs p true true.

(** [with open(p, mode) as f: f.write(data)]. [open] fails, and leaves
    the file system as it is, when the path does not resolve or is a
    directory. [data] is bytes, or text that the encoding of the file
    accepts, so that the write after a successful [open] goes through;
    the two are one step. *)
Definition write_file (fs : gmap (list string) Node) (p : list string)
    (data : FileData) : OsError + gmap (list string) Node :=
  match resolve fs p with
  | inl e => inl e
  | inr q =>
      match node_at fs q with
      | Some Dir => inl EISDIR
      | _ => inr (<[q := File data]> fs)
      end
  end.

(** ** upload_file_endpoint *)

(** [global_args.workspace] resolved, the constant of
    ii_agent.utils.constants, and the standard library's decoder. *)
Record Config := mkConfig {
  workspace : list string;
  UPLOAD_FOLDER_NAME : string;
  b64decode : string → option string
}.

Record FileInfo := mkFileInfo {
  fi_path : string;
  fi_content : string
}.

Record Request := mkRequest {
  r_session_id : option string;
  r_file : option FileInfo
}.

Inductive Response :=
| Uploaded (path saved_path : string)
| JSONResponse (status_code : Z) (error : string).

Definition os_error_str (e : OsError) : string :=
  match e with
  | ENOENT => "No such file or directory"
  | ENOTDIR => "Not a directory"
  | EEXIST => "File exists"
  | EISDIR => "Is a directory"
  end.

Definition server_error (msg : string) : Response :=
  JSONResponse 500 ("Error uploading file: " +:+ msg).

(** The [while full_path.exists()] loop, entered with [counter]; it
    stops at the first candidate that does not exist. [fuel] bounds the
    number of candidates tried; the endpoint allows one more than the
    file system has entries, which is always enough (lemmas
    [unique_path_total] and [upload_finds_a_name]). *)
Fixpoint unique_path (fuel : nat) (fs : gmap (list string) Node)
    (upload_dir : list string) (base_name extension : string) (counter : nat)
    : option (list string) :=
  match fuel with
  | O => None
  | S fuel' =>
      let new_filename := base_name +:+ "_" +:+ pretty counter +:+ extension in
      let full_path := joinpath upload_dir new_filename in
      if path_exists fs full_path
      then unique_path fuel' fs upload_dir base_name extension (S counter)
      else Some full_path
  end.

(** The body written for [file_content]: a data URL is split at its
    first comma and decoded, anything else is text. *)
Definition decode_content (cfg : Config) (file_content : string)
    : option FileData :=
  if String.prefix "data:" file_content then
    match split_first ","%char file_content with
    | Some (_, encoded) => Binary <$> b64decode cfg encoded
    | None => None
    end
  else Some (Text file_content).

Definition upload_file_endpoint (cfg : Config) (req : Request)
    (fs : gmap (list string) Node) : Response * gmap (list string) Node :=
  match r_session_id req with
  | None => (JSONResponse 400 "session_id is required", fs)
  | Some session_id =>
  if String.eqb session_id "" then
    (JSONResponse 400 "session_id is required", fs)
  else
  match r_file req with
  | None => (JSONResponse 400 "No file provided for upload", fs)
  | Some file_info =>
  (* Find the workspace path for this session *)
  let workspace_path := joinpath (workspace cfg) session_id in
  if negb (path_exists fs workspace_path) then
    (JSONResponse 404 ("Workspace not found for session: " +:+ session_id), fs)
  else
  (* Create the upload directory if it doesn't exist *)
  let upload_dir := joinpath workspace_path (UPLOAD_FOLDER_NAME cfg) in
  match path_mkdir fs upload_dir with
  | inl (e, fs1) => (server_error (os_error_str e), fs1)
  | inr fs1 =>
  let file_path := fi_path file_info in
  let file_content := fi_content file_info in
  if String.eqb file_path "" then
    (JSONResponse 400 "File path is required", fs1)
  else
  (* Ensure the file path is relative to the workspace *)
  let file_path :=
    if is_absolute file_path then name (parts file_path) else file_path in
  (* Create the full path within the upload directory *)
  let original_path := joinpath upload_dir file_path in
  (* Handle filename collision by adding a suffix *)
  let renamed :=
    if path_exists fs1 original_path then
      match unique_path (S (size fs1)) fs1 upload_dir
              (stem original_path) (suffix original_path) 1 with
      | Some full_path =>
          Some (full_path,
                String.concat "/" (drop (length upload_dir) full_path))
      | None => None
      end
    else Some (original_path, file_path) in
  match renamed with
  | None => (server_error "no unique name", fs1)
  | Some (full_path, file_path) =>
  (* Ensure any subdirectories exist *)
  match path_mkdir fs1 (parent full_path) with
  | inl (e, fs2) => (server_error (os_error_str e), fs2)
  | inr fs2 =>
  match decode_content cfg file_content with
  | None => (server_error "cannot decode content", fs2)
  | Some data =>
  match write_file fs2 full_path data with
  | inl e => (server_error (os_error_str e), fs2)
  | inr fs3 =>
      (Uploaded ("/" +:+ UPLOAD_FOLDER_NAME cfg +:+ "/" +:+ file_path)
                (render full_path),
       fs3)
  end end end end end end end.

(** ** create_workspace_manager_for_connection *)

(** [Path(s).resolve()] seen from the working directory [cwd], in a
    file system without symbolic links: the path is made absolute and
    every [".."] is folded into what stands before it (at the root it
    stays at the root). *)
Fixpoint normalize (cur todo : list string) : list string :=
  match todo with
  | [] => cur
  | c :: rest =>
      normalize (if String.eqb c ".." then removelast cur else cur ++ [c]) rest
  end.

Definition path_resolve (cwd : list string) (s : string) : list string :=
  normalize [] (joinpath cwd s).

(** [parts.index(x)] *)
Fixpoint index_of (x : string) (l : list string) : option nat :=
  match l with
  | [] => None
  | y :: l' => if String.eqb y x then Some 0%nat else S <$> index_of x l'
  end.

(** [workspace_session_uuid] is [str(uuid.uuid4())]. The result is the
    root handed to [WorkspaceManager], the uuid, and the file system
    with the connection's directory in it; or the error [mkdir] raised,
    with the file system it left. *)
Definition create_workspace_manager_for_connection (cwd : list string)
    (base_workspace_path : string) (use_container_workspace : bool)
    (workspace_session_uuid : string) (fs : gmap (list string) Node)
    : OsError * gmap (list string) Node
      + list string * string * gmap (list string) Node :=
  let workspace_path := path_resolve cwd base_workspace_path in
  let connection_workspace := joinpath workspace_path workspace_session_uuid in
  match path_mkdir fs connection_workspace with
  | inl e => inl e
  | inr fs' =>
      let actual_workspace_path_for_manager :=
        if use_container_workspace then
          let parts := parts base_workspace_path in
          match index_of "app" parts with
          | Some idx =>
              let container_path_parts := drop (S idx) parts in
              joinpath container_path_parts workspace_session_uuid
          | None => connection_workspace
          end
        else connection_workspace in
      inr (actual_workspace_path_for_manager, workspace_session_uuid, fs')
  end.

End Upload.

(* ===================================================================== *)
(** * Specification predicates                                           *)
(* ===================================================================== *)

Import Db.

(** At most one active document for the pair [(u, d)]. *)
Definition at_most_one_active (u : string) (d : option string)
    (m : gmap string SessionDoc) : Prop :=
  ∀ k1 k2 d1 d2,
    m !! k1 = Some d1 → m !! k2 = Some d2 →
    matches_active u d d1 = true → matches_active u d d2 = true →
    k1 = k2.

Definition one_active_invariant (db : Database) : Prop :=
  ∀ u d, at_most_one_active u d (sessions_collection db).

(** Events in non-decreasing timestamp order. *)
Definition ascending (l : list EventDoc) : Prop :=
  StronglySorted (λ a b, e_timestamp a ≤ e_timestamp b) l.

Import Ws.

(** The four ways in which the identity service fails to name a user:
    an HTTP error status, a network or request error, a body that is
    not JSON, a JSON object without the [user_id] field. *)
Inductive identity_failure : HttpOutcome → Prop :=
| http_error_status st body :
    is_error_status st = true → identity_failure (Response st body)
| network_failure msg :
    identity_failure (RequestError msg)
| malformed_body st :
    identity_failure (Response st NotJson)
| missing_user_id st fields :
    has_field "user_id" fields = false →
    identity_failure (Response st (JsonObject fields)).

(** The session document of a connection is in the store, active and
    bound to the connection's user and device. *)
Definition session_bound (cx : ConnCtx) (s : Server) : Prop :=
  ∃ doc, sessions_collection (db s) !! cx_composite_session_id cx = Some doc ∧
         s_user_id doc = cx_user_id cx ∧
         s_device_id doc = Some (cx_device_id cx) ∧
         s_is_active doc = true.


Definition loop_state (r : LoopResult) : Server :=
  match r with
  | Continue s => s
  | Stop s => s
  end.

(** A small scenario: device ["dev1"] of user ["u1"] connects on socket
    0 and sends a query before any [init_agent]. *)
Definition dev1_headers : Headers := mkHeaders None None None (Some "dev1").

Definition u1_env : HandshakeEnv :=
  mkHandshakeEnv (Response 200 (JsonObject [("user_id", PyStr "u1")]))
    "uuid-1" "/ws/uuid-1" None.

Definition cx0 : ConnCtx :=
  mkConnCtx 0 "u1" "dev1" "u1_dev1" "uuid-1" (Some "/ws/uuid-1").

Definition calm : Oracle := mkOracle 5 AgentBuilt (EnhanceRaises "").

Definition query_hello : Content := mkContent "hello" false [].

Definition connected : World := run [Connect 0 dev1_headers u1_env] boot.

Definition after_first_query : World :=
  run [Receive 0 (Data (Message "query" query_hello)) calm] connected.

Definition after_task_ran : World :=
  run [TaskStep 0 Start] after_first_query.

Definition after_disconnect : World :=
  run [Receive 0 ClientGone calm] after_task_ran.

(** [agent.websocket = None] on an agent object. *)
Definition detached (a : Agent) : Agent :=
  mkAgent None (agent_session_id a) (agent_user_id a) (agent_device_id a)
    (message_queue a).

(** No dictionary of the server mentions the connection any more. *)
Definition forgotten (ws : nat) (s : Server) : Prop :=
  (ws ∉ active_connections s) ∧
  active_agents s !! ws = None ∧
  message_processors s !! ws = None ∧
  active_tasks s !! ws = None.

(** The acknowledgment of a query on [ws] followed at once by the
    spawning of task [tid] occurs in the trace. *)
Definition ack_then_spawn (ws tid : nat) (tr : list Effect) : Prop :=
  ∃ p1 p2, tr = p1 ++ Sent Handler ws processing_ack :: Spawned tid :: p2.

(** Every query task was spawned right after its acknowledgment. *)
Definition query_tasks_acked (s : Server) : Prop :=
  ∀ tid t ws ui r fs,
    tasks s !! tid = Some t → t_coro t = RunAgentAsync ws ui r fs →
    ack_then_spawn ws tid (trace s).

(** Whatever a task sends comes after its acknowledgment and spawning. *)
Definition outputs_follow_ack (tr : list Effect) : Prop :=
  ∀ pre tid ws ev post,
    tr = pre ++ Sent (TaskSender tid) ws ev :: post →
    ack_then_spawn ws tid pre.

Definition ordered (s : Server) : Prop :=
  query_tasks_acked s ∧ outputs_follow_ack (trace s).

(** Effects that are not the output of a task. *)
Definition handler_effect (e : Effect) : Prop :=
  match e with
  | Sent (TaskSender _) _ _ => False
  | _ => True
  end.

(** [s'] comes from [s] by effects of handlers only, and every query
    task of [s'] is one of [s]. *)
Definition quiet (s s' : Server) : Prop :=
  (∃ ext, trace s' = trace s ++ ext ∧ Forall handler_effect ext) ∧
  (∀ tid t', tasks s' !! tid = Some t' →
     (∃ ag, t_coro t' = ProcessMessages ag) ∨
     (∃ t, tasks s !! tid = Some t ∧ t_coro t = t_coro t')).

Definition quietly {A : Type} (c : M A) : Prop := ∀ s, quiet s (c s).2.

(** ** The upload area *)

(** A path without [".."] component. *)
Definition plain (p : list string) : bool :=
  forallb (λ c, negb (String.eqb c "..")) p.

(** A string that is one plain path component. *)
Definition simple_name (n : string) : bool :=
  negb (Upload.is_absolute n) && bool_decide (Upload.parts n = [n])
  && negb (String.eqb n "..").

(** [p] and all its ancestors are directories. *)
Definition directory_chain (fs : gmap (list string) Upload.Node)
    (p : list string) : bool :=
  forallb (λ k, match Upload.node_at fs (take k p) with
                | Some Upload.Dir => true
                | _ => false
                end)
          (seq 0 (S (length p))).

Definition upload_dir_of (cfg : Upload.Config) (sid : string) : list string :=
  Upload.workspace cfg ++ [sid; Upload.UPLOAD_FOLDER_NAME cfg].

(** The workspace directory of the session exists, and its upload
    folder is a directory or not there yet. *)
Definition workspace_ready (cfg : Upload.Config) (sid : string)
    (fs : gmap (list string) Upload.Node) : bool :=
  plain (Upload.workspace cfg) && simple_name sid
  && simple_name (Upload.UPLOAD_FOLDER_NAME cfg)
  && directory_chain fs (Upload.workspace cfg ++ [sid])
  && match fs !! upload_dir_of cfg sid with
     | None | Some Upload.Dir => true
     | Some (Upload.File _) => false
     end.

Definition upload_request (sid path content : string) : Upload.Request :=
  Upload.mkRequest (Some sid) (Some (Upload.mkFileInfo path content)).

(** A workspace ["/ws"] with the directory of session ["s1"] in it, the
    upload folder called ["uploads"], and a decoder that accepts
    everything. *)
Definition cfg0 : Upload.Config := Upload.mkConfig ["ws"] "uploads" (λ s, Some s).

Definition fs0 : gmap (list string) Upload.Node :=
  <[ ["ws"; "s1"] := Upload.Dir ]> (<[ ["ws"] := Upload.Dir ]> ∅).

(** Every directory of [fs] is a directory of [fs']. *)
Definition dirs_kept (fs fs' : gmap (list string) Upload.Node) : Prop :=
  ∀ x, Upload.node_at fs x = Some Upload.Dir →
       Upload.node_at fs' x = Some Upload.Dir.

(** The character [c] does not occur in [s]. *)
Fixpoint free_of (c : ascii) (s : string) : bool :=
  match s with
  | EmptyString => true
  | String a s' => negb (Ascii.eqb a c) && free_of c s'
  end.

(** The name the collision loop tries for [counter]. *)
Definition candidate (base_name extension : string) (counter : nat) : string :=
  base_name +:+ "_" +:+ pretty counter +:+ extension.

(** ** The store's look-ups *)

(** [l] is sorted the way [cursor.sort("timestamp", o)] sorts. *)
Definition in_order (o : SortOrder) (l : list EventDoc) : Prop :=
  StronglySorted (λ a b, before o a b = true) l.

(** [e] passes the filter of a query for session [sid] and, if one is
    given and not empty, event type [f]. *)
Definition selected (sid : string) (f : option string) (e : EventDoc) : Prop :=
  e_session_id e = sid ∧
  ∀ t, f = Some t → t ≠ "" → e_event_type e = t.

(** Newest first. *)
Definition newest_first (l : list (string * SessionDoc)) : Prop :=
  StronglySorted (λ a b, s_created_at b.2 ≤ s_created_at a.2) l.

(** [msg] is what the sessions handler shows as the first message of
    session [sid]: the text of an earliest stored user message, or the
    empty string when the session has none. *)
Definition first_user_message (content_text : string → string)
    (db : Database) (sid msg : string) : Prop :=
  (msg = "" ∧
   ∀ e, e ∈ events_collection db →
        ¬ selected sid (Some Rest.USER_MESSAGE_value) e) ∨
  (∃ e, e ∈ events_collection db ∧
        selected sid (Some Rest.USER_MESSAGE_value) e ∧
        (∀ e', e' ∈ events_collection db →
               selected sid (Some Rest.USER_MESSAGE_value) e' →
               e_timestamp e ≤ e_timestamp e') ∧
        msg = content_text (e_event_payload e)).

(** ** The gateway *)

(** The event that greets a connection that passed the handshake. *)
Definition connection_established (workspace_root : string) : RealtimeEvent :=
  mkRealtimeEvent CONNECTION_ESTABLISHED
    [("message", "Connected to Agent WebSocket Server");
     ("workspace_path", workspace_root)].

(** The message types whose handling changes more than the trace. *)
Definition stateful_type (msg_type : string) : bool :=
  String.eqb msg_type "init_agent" || String.eqb msg_type "query"
  || String.eqb msg_type "cancel".

(** The six message types the dispatch loop knows. *)
Definition known_type (msg_type : string) : bool :=
  stateful_type msg_type || String.eqb msg_type "workspace_info"
  || String.eqb msg_type "ping" || String.eqb msg_type "enhance_prompt".

(** Every event the server has sent, with the socket it went to,
    oldest first. *)
Definition sent (s : Server) : list (nat * RealtimeEvent) :=
  omap (λ e, match e with
             | Sent _ ws ev => Some (ws, ev)
             | _ => None
             end) (trace s).

(** What the loop answers to a message that is neither [init_agent]
    nor [query] nor [cancel]. *)
Definition stateless_reply (cx : ConnCtx) (orc : Oracle) (ty : string)
    (content : Content) : RealtimeEvent :=
  if String.eqb ty "workspace_info" then
    match cx_workspace_manager cx with
    | Some root => mkRealtimeEvent WORKSPACE_INFO [("path", root)]
    | None => error_event "Workspace not initialized"
    end
  else if String.eqb ty "ping" then mkRealtimeEvent PONG []
  else if String.eqb ty "enhance_prompt" then
    match o_enhance orc with
    | EnhanceRaises err => error_event ("Error processing request: " +:+ err)
    | EnhanceReturns success message enhanced_prompt =>
        if success && negb (String.eqb enhanced_prompt "") then
          mkRealtimeEvent PROMPT_GENERATED
            [("result", enhanced_prompt); ("original_request", c_text content)]
        else error_event message
    end
  else error_event ("Unknown message type: " +:+ ty).
(** ** Invariants of the running server *)

(** The connection a task works for, as long as the task is a query
    task that is not done. *)
Definition pending_query (s : Server) (tid : nat) : option nat :=
  match tasks s !! tid with
  | Some (mkTask (RunAgentAsync ws _ _ _) st _) =>
      if is_done st then None else Some ws
  | _ => None
  end.

(** At any time a connection has at most one query task that is not
    done. *)
Definition one_query_per_connection (s : Server) : Prop :=
  ∀ tid1 tid2 ws,
    pending_query s tid1 = Some ws → pending_query s tid2 = Some ws →
    tid1 = tid2.

(** The dictionaries agree with each other and with the endpoint
    coroutines that are in their dispatch loop: such an endpoint has
    its socket in [active_connections], and only such an endpoint has
    an agent. *)
Definition registries_consistent (w : World) : Prop :=
  let s := w_server w in
  (∀ ws, is_Some (w_loops w !! ws) → ws ∈ active_connections s) ∧
  (∀ ws, ws ∈ active_connections s → is_Some (sockets s !! ws)) ∧
  (∀ ws, is_Some (active_agents s !! ws) ↔
         is_Some (message_processors s !! ws)) ∧
  (∀ ws, is_Some (active_agents s !! ws) → is_Some (w_loops w !! ws)) ∧
  (∀ ws cx, w_loops w !! ws = Some cx →
            cx_websocket cx = ws ∧ is_Some (sockets s !! ws)).

(** A socket that is in [active_connections] although no endpoint
    coroutine is in the dispatch loop for it. *)
Definition stale_connection (w : World) (ws : nat) : Prop :=
  ws ∈ active_connections (w_server w) ∧ w_loops w !! ws = None ∧
  is_Some (sockets (w_server w) !! ws).

(** Every query task that is not done belongs to a socket the server
    has seen and, while the connection's loop runs, is the task
    recorded for the connection. *)
Definition queries_tracked (w : World) : Prop :=
  let s := w_server w in
  (∀ tid ws, pending_query s tid = Some ws → is_Some (sockets s !! ws)) ∧
  (∀ tid ws, pending_query s tid = Some ws → is_Some (w_loops w !! ws) →
             active_tasks s !! ws = Some tid) ∧
  one_query_per_connection s.

(** A step that leaves the query tasks and their bookkeeping alone. *)
Definition same_queries (s s' : Server) : Prop :=
  active_tasks s' = active_tasks s ∧
  ∀ tid, pending_query s' tid = pending_query s tid.

(** What one handled message may do to the dictionaries of its
    connection [ws]. *)
Definition registry_step (ws : nat) (s s' : Server) : Prop :=
  sockets s' = sockets s ∧
  active_connections s' = active_connections s ∧
  ((active_agents s' = active_agents s ∧
    message_processors s' = message_processors s) ∨
   (∃ a p, active_agents s' = <[ws := a]> (active_agents s) ∧
           message_processors s' = <[ws := p]> (message_processors s))).

(** ... and to the query tasks: nothing, or one new task, recorded for
    the connection, when none was in flight. *)
Definition query_step (ws : nat) (s s' : Server) : Prop :=
  same_queries s s' ∨
  (task_in_flight ws s = false ∧
   active_tasks s' = <[ws := length (tasks s)]> (active_tasks s) ∧
   ∀ tid, pending_query s' tid =
          if decide (tid = length (tasks s)) then Some ws
          else pending_query s tid).

(** What a step of task [tid] may do to the query tasks: nothing, or
    end [tid], with or without removing its connection's entry. *)
Definition task_step_shape (tid : nat) (s s' : Server) : Prop :=
  same_queries s s' ∨
  (∃ ws, pending_query s tid = Some ws ∧
         (∀ tid', pending_query s' tid' =
                  if decide (tid' = tid) then None else pending_query s tid') ∧
         (active_tasks s' = active_tasks s ∨
          active_tasks s' = delete ws (active_tasks s))).

(** ** More about the upload area *)

(** [fs'] comes from [fs] by creating directories only: every path
    holds what it held, or held nothing and is a directory now. *)
Definition only_new_dirs (fs fs' : gmap (list string) Upload.Node) : Prop :=
  ∀ p, fs' !! p = fs !! p ∨ (fs !! p = None ∧ fs' !! p = Some Upload.Dir).

(* ===================================================================== *)
(** * Properties of the session store                                    *)
(* ===================================================================== *)

Section SessionStore.

Lemma matches_active_spec u d doc :
  matches_active u d doc = true ↔
  s_user_id doc = u ∧ s_device_id doc = d ∧ s_is_active doc = true.
Proof.
  unfold matches_active.
  rewrite !andb_true_iff, !bool_decide_eq_true. tauto.
Qed.

Lemma lookup_update_many now u d m k :
  update_many_deactivate now u d m !! k =
  (λ doc, if matches_active u d doc then set_deactivated now doc else doc)
    <$> m !! k.
Proof. unfold update_many_deactivate. apply lookup_fmap. Qed.

(** After the first phase no document of the pair is active. *)
Lemma update_many_none_active now u d m k doc :
  update_many_deactivate now u d m !! k = Some doc →
  matches_active u d doc = false.
Proof.
  rewrite lookup_update_many. destruct (m !! k) as [old|] eqn:E; [|done].
  simpl. intros [= <-].
  destruct (matches_active u d old) eqn:M; [|done].
  unfold matches_active. simpl. by rewrite andb_false_r.
Qed.

(** The first phase only ever switches documents off. *)
Lemma update_many_active_before now u d u' d' m k doc :
  update_many_deactivate now u d m !! k = Some doc →
  matches_active u' d' doc = true →
  ∃ old, m !! k = Some old ∧ matches_active u' d' old = true.
Proof.
  rewrite lookup_update_many. destruct (m !! k) as [old|] eqn:E; [|done].
  simpl. intros [= <-] H. exists old. split; [done|].
  destruct (matches_active u d old) eqn:M; [|done].
  apply matches_active_spec in H as (_ & _ & H). by simpl in H.
Qed.

Lemma lookup_upsert_eq now id uuid dir u d m :
  ∃ doc, upsert_session now id uuid dir u d m !! id = Some doc ∧
         s_user_id doc = u ∧ s_device_id doc = d ∧ s_is_active doc = true ∧
         s_workspace_session_uuid doc = uuid ∧ s_workspace_dir doc = dir ∧
         s_last_activated_at doc = now.
Proof.
  unfold upsert_session. destruct (m !! id) as [old|];
    (eexists; split; [apply lookup_insert_eq | done]).
Qed.

Lemma lookup_upsert_ne now id uuid dir u d m k :
  id ≠ k → upsert_session now id uuid dir u d m !! k = m !! k.
Proof.
  intros Hne. unfold upsert_session.
  destruct (m !! id); by rewrite lookup_insert_ne.
Qed.

(** One call re-establishes the invariant for every pair. *)
Lemma create_session_preserves now id uuid dir u d db :
  one_active_invariant db →
  one_active_invariant (create_session now id uuid dir u d db).
Proof.
  intros Hinv u' d' k1 k2 d1 d2. unfold create_session. simpl.
  set (m1 := update_many_deactivate now u d (sessions_collection db)).
  intros H1 H2 A1 A2.
  destruct (decide (id = k1)) as [->|N1]; destruct (decide (k1 = k2)) as [|N];
    try done.
  - (* k1 is the upserted document, k2 is another one *)
    rewrite lookup_upsert_ne in H2 by done.
    destruct (lookup_upsert_eq now k1 uuid dir u d m1) as (doc & Hd & Hu & Hdev & _).
    rewrite Hd in H1. injection H1 as ->.
    apply matches_active_spec in A1 as (E1 & E2 & _).
    rewrite Hu in E1. rewrite Hdev in E2. subst u' d'.
    apply update_many_none_active in H2. congruence.
  - rewrite lookup_upsert_ne in H1 by done.
    destruct (decide (id = k2)) as [->|N2].
    + destruct (lookup_upsert_eq now k2 uuid dir u d m1) as (doc & Hd & Hu & Hdev & _).
      rewrite Hd in H2. injection H2 as ->.
      apply matches_active_spec in A2 as (E1 & E2 & _).
      rewrite Hu in E1. rewrite Hdev in E2. subst u' d'.
      apply update_many_none_active in H1. congruence.
    + rewrite lookup_upsert_ne in H2 by done.
      destruct (update_many_active_before _ _ _ _ _ _ _ _ H1 A1) as (o1 & L1 & B1).
      destruct (update_many_active_before _ _ _ _ _ _ _ _ H2 A2) as (o2 & L2 & B2).
      exact (Hinv u' d' k1 k2 o1 o2 L1 L2 B1 B2).
Qed.

Lemma empty_db_invariant : one_active_invariant empty_db.
Proof. intros u d k1 k2 d1 d2 H. simpl in H. by rewrite lookup_empty in H. Qed.

Lemma run_calls_preserves calls db :
  one_active_invariant db → one_active_invariant (run_calls calls db).
Proof.
  revert db. induction calls as [|c calls IH]; intros db Hinv; [done|].
  simpl. apply IH. by apply create_session_preserves.
Qed.

(** The invariant bounds the number of active documents of a pair. *)
Lemma at_most_one_size u d db :
  at_most_one_active u d (sessions_collection db) →
  (size (active_sessions u d db) ≤ 1)%nat.
Proof.
  intros H. unfold active_sessions.
  set (f := filter _ _).
  destruct (map_choose_or_empty f) as [(k & v & Hk)| ->];
    [|rewrite map_size_empty; lia].
  assert (f = {[k := v]}) as ->; [|by rewrite map_size_singleton].
  apply map_eq. intros k'.
  destruct (decide (k = k')) as [<-|Hne].
  - by rewrite lookup_singleton_eq.
  - rewrite lookup_singleton_ne by done.
    destruct (f !! k') as [v'|] eqn:Hk'; [|done].
    apply map_lookup_filter_Some in Hk as [Hk Pk].
    apply map_lookup_filter_Some in Hk' as [Hk' Pk'].
    simpl in *. destruct Hne. eauto.
Qed.

End SessionStore.

(** C2: for every (user_id, device_id) pair, after any sequence of
    sequentially executed [create_session] calls on an initially empty
    session store, at most one session document of that pair has
    [is_active = true]: two active documents of the pair have the same
    [_id], and the set of active documents of the pair has size at
    most one. *)
Theorem create_session_one_active_per_pair :
  ∀ (calls : list Db.CreateCall) (u : string) (d : option string),
    let db := Db.run_calls calls Db.empty_db in
    at_most_one_active u d (Db.sessions_collection db) ∧
    (size (Db.active_sessions u d db) ≤ 1)%nat.
Proof.
  intros calls u d db.
  assert (H : at_most_one_active u d (Db.sessions_collection db)).
  { apply run_calls_preserves, empty_db_invariant. }
  split; [exact H | by apply at_most_one_size].
Qed.

(* ===================================================================== *)
(** * Properties of the event queries                                    *)
(* ===================================================================== *)

Section Events.

Lemma insert_sorted_perm o x l : Permutation (insert_sorted o x l) (x :: l).
Proof.
  induction l as [|y l IH]; simpl; [done|].
  destruct (before o x y); [done|].
  rewrite IH. apply perm_swap.
Qed.

Lemma sort_by_timestamp_perm o l : Permutation (sort_by_timestamp o l) l.
Proof.
  induction l as [|x l IH]; simpl; [done|].
  rewrite insert_sorted_perm. by constructor.
Qed.

Lemma insert_sorted_ascending x l :
  ascending l → ascending (insert_sorted ASCENDING x l).
Proof.
  unfold ascending. induction 1 as [|y l Hs IH Hall]; simpl.
  - repeat constructor.
  - destruct (e_timestamp x <=? e_timestamp y) eqn:E.
    + apply Z.leb_le in E. constructor; [by constructor|].
      constructor; [done|].
      eapply Forall_impl; [exact Hall|]. simpl. intros; lia.
    + apply Z.leb_gt in E. constructor; [done|].
      rewrite insert_sorted_perm. constructor; [lia | done].
  Qed.

Lemma sort_by_timestamp_ascending l :
  ascending (sort_by_timestamp ASCENDING l).
Proof.
  induction l as [|x l IH]; simpl; [constructor|].
  by apply insert_sorted_ascending.
Qed.

(** The store's query, asked the way the events handler means to ask
    it (ascending, no limit, no type filter): exactly the events of the
    session, in non-decreasing timestamp order. *)
Lemma get_events_for_session_all_ascending db sid :
  ascending (get_events_for_session db sid 0 ASCENDING None) ∧
  Permutation (get_events_for_session db sid 0 ASCENDING None)
    (List.filter (λ e, bool_decide (e_session_id e = sid))
       (events_collection db)).
Proof.
  unfold get_events_for_session. simpl. split.
  - apply sort_by_timestamp_ascending.
  - rewrite sort_by_timestamp_perm.
    erewrite filter_ext; [reflexivity|].
    intros e. unfold find_query. by rewrite andb_true_r.
Qed.

End Events.

(** C1 (the handler does not do what the specification and its own
    docstring say):
    for every store and every session key, [get_session_events]
    answers with the 500 error built from the [NameError] on
    [pymongo]; it never returns the events. The handler
    [get_sessions_by_device_id] next to it resolves the same name,
    because it imports it in its own body. *)
Theorem get_session_events_name_error :
  ∀ (db : Database) (session_id : string),
    Rest.get_session_events db session_id =
      Rest.HTTPException 500
        "Error retrieving events: name 'pymongo' is not defined"
    ∧ Rest.name_defined Rest.locals_of_get_sessions_by_device_id "pymongo" = true.
Proof. intros db session_id. split; reflexivity. Qed.

(** With one event stored for ["u1_dev1"], the documented behaviour
    returns it and the handler returns the error. *)
Example get_session_events_u1_dev1 :
  let db := (save_event 7 "u1_dev1" "u1" (Some "dev1") "user_message" "hi"
               empty_db).2 in
  Rest.get_session_events_documented db "u1_dev1" =
    Rest.Ok [Rest.mkEventJson 0 "u1_dev1" "u1" (Some "dev1") 7 "user_message" "hi"]
  ∧ Rest.get_session_events db "u1_dev1" =
    Rest.HTTPException 500
      "Error retrieving events: name 'pymongo' is not defined".
Proof. split; reflexivity. Qed.

(* ===================================================================== *)
(** * Properties of the handshake                                        *)
(* ===================================================================== *)

Section Handshake.

Lemma send_json_connected by_ ws ev s :
  sockets s !! ws = Some CONNECTED →
  send_json by_ ws ev s = (Return (), emit [Sent by_ ws ev] s).
Proof. intros H. unfold send_json. by rewrite H. Qed.

Lemma send_json_not_connected by_ ws ev s :
  sockets s !! ws ≠ Some CONNECTED →
  send_json by_ ws ev s = (Raise TransportClosed, s).
Proof.
  intros H. unfold send_json.
  destruct (sockets s !! ws) as [[]|]; done.
Qed.

Lemma dict_get_missing key fields :
  has_field key fields = false → dict_get key fields = PyNone.
Proof.
  induction fields as [|[k v] fields IH]; simpl; [done|].
  destruct (String.eqb k key); simpl; [done | exact IH].
Qed.

Lemma error_status_not_success st :
  is_error_status st = true → is_success st = false.
Proof. unfold is_error_status, is_success. lia. Qed.

Lemma fetch_user_id_failure http :
  identity_failure http → fetch_user_id http = None.
Proof.
  destruct 1 as [st body Hst| |st|st fields Hf]; simpl; try done.
  - by rewrite error_status_not_success.
  - by destruct (is_success st).
  - destruct (is_success st); simpl; [|done].
    by rewrite dict_get_missing.
Qed.

(** Without an identity the endpoint sends the error, closes and
    returns; nothing else changes. *)
Lemma handshake_no_identity ws h env s :
  fetch_user_id (he_http env) = None →
  websocket_endpoint_handshake ws h env s =
    (Return Returned,
     emit [Sent Handler ws (error_event "User authentication failed.");
           Closed ws]
       (set_sockets (<[ws := DISCONNECTED]> (sockets s)) s)).
Proof.
  intros Hnone. unfold websocket_endpoint_handshake. rewrite Hnone.
  unfold mbind, M_bind, accept, modify. simpl.
  rewrite send_json_connected by (simpl; apply lookup_insert_eq).
  unfold close, modify, mret, M_ret, emit, set_sockets. simpl.
  by rewrite insert_insert_eq, <- app_assoc.
Qed.

Lemma task_cancel_db tid s : db (task_cancel tid s) = db s.
Proof. unfold task_cancel. by destruct (task_done tid s). Qed.

Lemma cleanup_connection_db ws s : db (cleanup_connection ws s) = db s.
Proof.
  unfold cleanup_connection, remove_agent, cancel_running_task, detach_agent,
    remove_connection.
  repeat (case_decide || case_match); simpl; rewrite ?task_cancel_db; done.
Qed.


End Handshake.

(** C6: when the identity resolver meets an HTTP error status, a
    network or request error, a body that is not JSON, or a response
    without the [user_id] field, [fetch_user_id] returns [None]; the
    handshake then sends exactly the error event "User authentication
    failed.", closes the connection and returns, without registering
    the connection or touching the store. *)
Theorem identity_failure_aborts_handshake :
  ∀ (ws : nat) (h : Headers) (env : HandshakeEnv) (s : Server),
    identity_failure (he_http env) →
    fetch_user_id (he_http env) = None ∧
    ∃ s', websocket_endpoint_handshake ws h env s = (Return Returned, s') ∧
          trace s' = trace s ++
            [Sent Handler ws (error_event "User authentication failed.");
             Closed ws] ∧
          sockets s' !! ws = Some DISCONNECTED ∧
          active_connections s' = active_connections s ∧
          db s' = db s.
Proof.
  intros ws h env s Hfail.
  pose proof (fetch_user_id_failure _ Hfail) as Hnone.
  split; [done|]. eexists. split; [by apply handshake_no_identity|].
  simpl. split_and!; try done. apply lookup_insert_eq.
Qed.

Lemma identity_failure_aborts_handshake_witness :
  let env := mkHandshakeEnv (Response 500 NotJson) "uuid-1" "/ws/uuid-1" None in
  fetch_user_id (he_http env) = None ∧
  ∃ s', websocket_endpoint_handshake 0%nat (mkHeaders None None None (Some "dev1"))
          env initial = (Return Returned, s') ∧
        trace s' = trace initial ++
          [Sent Handler 0%nat (error_event "User authentication failed.");
           Closed 0%nat] ∧
        sockets s' !! 0%nat = Some DISCONNECTED ∧
        active_connections s' = active_connections initial ∧
        db s' = db initial.
Proof.
  apply (identity_failure_aborts_handshake 0%nat
           (mkHeaders None None None (Some "dev1"))
           (mkHandshakeEnv (Response 500 NotJson) "uuid-1" "/ws/uuid-1" None)
           initial).
  apply http_error_status. reflexivity.
Defined.

(* ===================================================================== *)
(** * Where the session document is written                              *)
(* ===================================================================== *)

Section SessionBinding.

Lemma create_session_bound now cx dir d0 :
  ∃ doc,
    sessions_collection
      (create_session now (cx_composite_session_id cx)
         (cx_workspace_session_uuid cx) dir (cx_user_id cx)
         (Some (cx_device_id cx)) d0)
      !! cx_composite_session_id cx = Some doc ∧
    s_user_id doc = cx_user_id cx ∧
    s_device_id doc = Some (cx_device_id cx) ∧
    s_is_active doc = true.
Proof.
  unfold create_session. simpl.
  destruct (lookup_upsert_eq now (cx_composite_session_id cx)
              (cx_workspace_session_uuid cx) dir (cx_user_id cx)
              (Some (cx_device_id cx))
              (update_many_deactivate now (cx_user_id cx)
                 (Some (cx_device_id cx)) (sessions_collection d0)))
    as (doc & H & Hu & Hd & Ha & _).
  eauto.
Qed.

(** Handling [init_agent] writes the session document before anything
    that can fail, except the construction of the database manager. *)
Lemma init_agent_binds_session cx orc content s :
  (∀ err, o_init orc ≠ DbUnavailable err) →
  session_bound cx
    (loop_state (loop_iteration cx orc (Data (Message "init_agent" content)) s)).
Proof.
  intros Hdb. unfold session_bound.
  assert (Hgoal : ∀ s', db s' =
            create_session (o_now orc) (cx_composite_session_id cx)
              (cx_workspace_session_uuid cx)
              (default "" (cx_workspace_manager cx))
              (cx_user_id cx) (Some (cx_device_id cx)) (db s) →
          ∃ doc, sessions_collection (db s') !! cx_composite_session_id cx
                   = Some doc ∧
                 s_user_id doc = cx_user_id cx ∧
                 s_device_id doc = Some (cx_device_id cx) ∧
                 s_is_active doc = true).
  { intros s' ->. apply create_session_bound. }
  apply Hgoal. clear Hgoal.
  unfold loop_iteration, on_receive, try_except, handle_message. simpl.
  unfold create_agent_for_connection, mbind, M_bind, modify, raise, create_task.
  destruct (o_init orc) as [err|err|] eqn:E; [by destruct (Hdb err)|..]; simpl.
  - unfold send_json. simpl.
    destruct (sockets s !! cx_websocket cx) as [[]|] eqn:Hs; simpl;
      rewrite ?Hs; simpl; rewrite ?cleanup_connection_db; done.
  - unfold send_json. simpl.
    destruct (sockets s !! cx_websocket cx) as [[]|] eqn:Hs; simpl;
      rewrite ?Hs; simpl; rewrite ?cleanup_connection_db; done.
Qed.

End SessionBinding.




(* ===================================================================== *)
(** * Properties of the dispatch loop: queries                           *)
(* ===================================================================== *)

Section Queries.

(** The state after an accepted query: acknowledgment, new task,
    bookkeeping entry, in this order. *)
Lemma query_accepted cx orc content s :
  sockets s !! cx_websocket cx = Some CONNECTED →
  task_in_flight (cx_websocket cx) s = false →
  loop_iteration cx orc (Data (Message "query" content)) s =
    Continue
      (set_active_tasks
         (<[cx_websocket cx := length (tasks s)]> (active_tasks s))
         (emit [Spawned (length (tasks s))]
            (set_tasks
               (tasks s ++
                  [mkTask (RunAgentAsync (cx_websocket cx) (c_text content)
                             (c_resume content) (c_files content))
                          PENDING false])
               (emit [Sent Handler (cx_websocket cx) processing_ack] s)))).
Proof.
  intros Hs Hfl.
  unfold loop_iteration, on_receive, try_except, handle_message. simpl.
  rewrite Hfl. unfold mbind, M_bind.
  rewrite send_json_connected by done. reflexivity.
Qed.

Lemma query_rejected cx orc content s :
  sockets s !! cx_websocket cx = Some CONNECTED →
  task_in_flight (cx_websocket cx) s = true →
  loop_iteration cx orc (Data (Message "query" content)) s =
    Continue
      (emit [Sent Handler (cx_websocket cx)
               (error_event "A query is already being processed")] s).
Proof.
  intros Hs Hfl.
  unfold loop_iteration, on_receive, try_except, handle_message. simpl.
  rewrite Hfl. by rewrite send_json_connected.
Qed.

Lemma outbox_emit_sent by_ ws ev s :
  outbox ws (emit [Sent by_ ws ev] s) = outbox ws s ++ [ev].
Proof.
  unfold outbox. simpl. rewrite omap_app. simpl.
  by rewrite decide_True.
Qed.

Lemma task_in_flight_true ws tid t s :
  active_tasks s !! ws = Some tid → tasks s !! tid = Some t →
  is_done (t_state t) = false → task_in_flight ws s = true.
Proof.
  intros Ha Ht Hd. unfold task_in_flight, task_done.
  by rewrite Ha, Ht, Hd.
Qed.

End Queries.

(** C4: when a query message is dispatched on a connection whose
    recorded task is not yet done, the loop goes on and the server
    state changes in one respect only: exactly one event, the error
    "A query is already being processed", is appended to what was sent
    on that connection. No task is created, the existing task and all
    dictionaries are as before. *)
Theorem query_while_task_running_rejected :
  ∀ (cx : ConnCtx) (orc : Oracle) (content : Content) (s : Server)
    (tid : nat) (t : Task),
    sockets s !! cx_websocket cx = Some CONNECTED →
    active_tasks s !! cx_websocket cx = Some tid →
    tasks s !! tid = Some t →
    is_done (t_state t) = false →
    ∃ s', loop_iteration cx orc (Data (Message "query" content)) s = Continue s' ∧
          trace s' = trace s ++
            [Sent Handler (cx_websocket cx)
               (error_event "A query is already being processed")] ∧
          outbox (cx_websocket cx) s' = outbox (cx_websocket cx) s ++
            [error_event "A query is already being processed"] ∧
          tasks s' = tasks s ∧
          active_tasks s' = active_tasks s ∧
          active_agents s' = active_agents s ∧
          message_processors s' = message_processors s ∧
          active_connections s' = active_connections s ∧
          agents s' = agents s ∧
          sockets s' = sockets s ∧
          db s' = db s.
Proof.
  intros cx orc content s tid t Hs Ha Ht Hd.
  eexists. split.
  - apply query_rejected; [done|]. by eapply task_in_flight_true.
  - rewrite outbox_emit_sent. by simpl.
Qed.

Lemma query_while_task_running_rejected_witness :
  ∃ s', loop_iteration cx0 calm (Data (Message "query" query_hello))
          (w_server after_first_query) = Continue s' ∧
        trace s' = trace (w_server after_first_query) ++
          [Sent Handler 0%nat
             (error_event "A query is already being processed")] ∧
        outbox 0%nat s' = outbox 0%nat (w_server after_first_query) ++
          [error_event "A query is already being processed"] ∧
        tasks s' = tasks (w_server after_first_query) ∧
        active_tasks s' = active_tasks (w_server after_first_query) ∧
        active_agents s' = active_agents (w_server after_first_query) ∧
        message_processors s' = message_processors (w_server after_first_query) ∧
        active_connections s' = active_connections (w_server after_first_query) ∧
        agents s' = agents (w_server after_first_query) ∧
        sockets s' = sockets (w_server after_first_query) ∧
        db s' = db (w_server after_first_query).
Proof.
  apply (query_while_task_running_rejected cx0 calm query_hello
           (w_server after_first_query) 0%nat
           (mkTask (RunAgentAsync 0%nat "hello" false []) PENDING false));
    reflexivity.
Defined.

(* ===================================================================== *)
(** * A query before init_agent                                          *)
(* ===================================================================== *)

Section QueryBeforeInit.

Lemma task_step_start_without_agent tid ws ui r fs s :
  tasks s !! tid = Some (mkTask (RunAgentAsync ws ui r fs) PENDING false) →
  active_agents s !! ws = None →
  sockets s !! ws = Some CONNECTED →
  task_step tid Start s =
    set_task_state tid FINISHED
      (emit [Sent (TaskSender tid) ws
               (error_event "Agent not initialized for this connection")] s).
Proof.
  intros Ht Ha Hs. unfold task_step. rewrite Ht. simpl.
  rewrite Ha. by rewrite send_json_connected.
Qed.

Lemma task_in_flight_finished ws tid t s :
  active_tasks s !! ws = Some tid → tasks s !! tid = Some t →
  is_done (t_state t) = true → task_in_flight ws s = false.
Proof.
  intros Ha Ht Hd. unfold task_in_flight, task_done.
  by rewrite Ha, Ht, Hd.
Qed.

End QueryBeforeInit.

(** C10: a query on a connection without agent and without task in
    flight is acknowledged and a task is spawned and recorded; when
    that task runs it sends exactly the error "Agent not initialized
    for this connection" and is finished at once, never suspended in
    the agent, with no message queued and no store write; its entry
    stays in [active_tasks] but it is done, so the next query on the
    connection is acknowledged and gets a new task. *)
Theorem query_before_init_agent :
  ∀ (cx : ConnCtx) (orc orc' : Oracle) (content content' : Content)
    (s : Server),
    let ws := cx_websocket cx in
    let tid := length (tasks s) in
    let coro := RunAgentAsync ws (c_text content) (c_resume content)
                  (c_files content) in
    sockets s !! ws = Some CONNECTED →
    task_in_flight ws s = false →
    active_agents s !! ws = None →
    ∃ s1 s3,
      loop_iteration cx orc (Data (Message "query" content)) s = Continue s1 ∧
      trace s1 = (trace s ++ [Sent Handler ws processing_ack; Spawned tid])%list ∧
      active_tasks s1 !! ws = Some tid ∧
      tasks s1 !! tid = Some (mkTask coro PENDING false) ∧
      let s2 := task_step tid Start s1 in
      trace s2 = (trace s1 ++
        [Sent (TaskSender tid) ws
           (error_event "Agent not initialized for this connection")])%list ∧
      tasks s2 !! tid = Some (mkTask coro FINISHED false) ∧
      agents s2 = agents s ∧ db s2 = db s ∧
      active_tasks s2 !! ws = Some tid ∧
      loop_iteration cx orc' (Data (Message "query" content')) s2 = Continue s3 ∧
      trace s3 = (trace s2 ++
        [Sent Handler ws processing_ack; Spawned (S tid)])%list ∧
      active_tasks s3 !! ws = Some (S tid) ∧
      tasks s3 !! S tid =
        Some (mkTask (RunAgentAsync ws (c_text content') (c_resume content')
                        (c_files content')) PENDING false).
Proof.
  intros cx orc orc' content content' s ws tid coro Hs Hfl Hag.
  eexists _, _. split; [by apply query_accepted|].
  set (s1 := set_active_tasks _ _).
  assert (Ht1 : tasks s1 !! tid = Some (mkTask coro PENDING false)).
  { simpl. apply list_lookup_middle. done. }
  split; [by simpl; rewrite <- app_assoc|].
  split; [simpl; apply lookup_insert_eq|].
  split; [done|].
  cbv zeta.
  rewrite (task_step_start_without_agent tid ws _ _ _ s1 Ht1) by done.
  set (s2 := set_task_state _ _ _).
  assert (Ht2 : tasks s2 !! tid = Some (mkTask coro FINISHED false)).
  { simpl. rewrite list_lookup_alter_eq.
    fold tid. unfold ws, tid. by rewrite list_lookup_middle. }
  assert (Hlen : length (tasks s2) = S tid).
  { simpl. rewrite length_alter, length_app. simpl. unfold tid. lia. }
  split; [done|]. split; [done|]. split; [done|]. split; [done|].
  split; [simpl; apply lookup_insert_eq|].
  rewrite (query_accepted cx orc' content' s2).
  - rewrite Hlen. split; [reflexivity|].
    split; [by simpl; rewrite <- !app_assoc|].
    split; [simpl; apply lookup_insert_eq|].
    simpl. apply list_lookup_middle. rewrite length_alter, length_app.
    simpl. unfold tid. lia.
  - done.
  - eapply task_in_flight_finished; [|exact Ht2|done].
    simpl. apply lookup_insert_eq.
Qed.

Lemma query_before_init_agent_witness :
  ∃ s1 s3,
    loop_iteration cx0 calm (Data (Message "query" query_hello))
      (w_server connected) = Continue s1 ∧
    trace s1 = (trace (w_server connected) ++
      [Sent Handler 0%nat processing_ack; Spawned 0%nat])%list ∧
    active_tasks s1 !! 0%nat = Some 0%nat ∧
    tasks s1 !! 0%nat =
      Some (mkTask (RunAgentAsync 0%nat "hello" false []) PENDING false) ∧
    let s2 := task_step 0%nat Start s1 in
    trace s2 = (trace s1 ++
      [Sent (TaskSender 0%nat) 0%nat
         (error_event "Agent not initialized for this connection")])%list ∧
    tasks s2 !! 0%nat =
      Some (mkTask (RunAgentAsync 0%nat "hello" false []) FINISHED false) ∧
    agents s2 = agents (w_server connected) ∧
    db s2 = db (w_server connected) ∧
    active_tasks s2 !! 0%nat = Some 0%nat ∧
    loop_iteration cx0 calm (Data (Message "query" query_hello)) s2
      = Continue s3 ∧
    trace s3 = (trace s2 ++
      [Sent Handler 0%nat processing_ack; Spawned 1%nat])%list ∧
    active_tasks s3 !! 0%nat = Some 1%nat ∧
    tasks s3 !! 1%nat =
      Some (mkTask (RunAgentAsync 0%nat "hello" false []) PENDING false).
Proof.
  apply (query_before_init_agent cx0 calm calm query_hello query_hello
           (w_server connected)); reflexivity.
Defined.

(* ===================================================================== *)
(** * Properties of cleanup_connection                                   *)
(* ===================================================================== *)

Section Cleanup.

Lemma task_cancel_states tid s i :
  t_state <$> tasks (task_cancel tid s) !! i = t_state <$> tasks s !! i.
Proof.
  unfold task_cancel. destruct (task_done tid s); [done|]. simpl.
  rewrite list_lookup_alter. case_decide; [subst|done].
  by destruct (tasks s !! i).
Qed.

Lemma task_cancel_coros tid s i :
  t_coro <$> tasks (task_cancel tid s) !! i = t_coro <$> tasks s !! i.
Proof.
  unfold task_cancel. destruct (task_done tid s); [done|]. simpl.
  rewrite list_lookup_alter. case_decide; [subst|done].
  by destruct (tasks s !! i).
Qed.

Lemma task_cancel_other tid s i :
  i ≠ tid → tasks (task_cancel tid s) !! i = tasks s !! i.
Proof.
  intros Hne. unfold task_cancel. destruct (task_done tid s); [done|]. simpl.
  by rewrite list_lookup_alter_ne.
Qed.

Lemma task_done_cancel tid s i :
  task_done i (task_cancel tid s) = task_done i s.
Proof.
  unfold task_done. pose proof (task_cancel_states tid s i) as H.
  destruct (tasks (task_cancel tid s) !! i), (tasks s !! i); simpl in *;
    congruence.
Qed.

(** What [cleanup_connection] does to each component of the state. *)

Lemma cleanup_active_connections ws s :
  active_connections (cleanup_connection ws s) = active_connections s ∖ {[ws]}.
Proof.
  unfold cleanup_connection.
  assert (H4 : ∀ s0, active_connections (remove_agent ws s0)
                     = active_connections s0).
  { intros s0. unfold remove_agent. by case_decide. }
  assert (H3 : ∀ s0, active_connections (cancel_running_task ws s0)
                     = active_connections s0).
  { intros s0. unfold cancel_running_task, task_cancel.
    destruct (active_tasks s0 !! ws) as [tid|]; [|done].
    by destruct (task_done tid s0). }
  assert (H2 : ∀ s0, active_connections (detach_agent ws s0)
                     = active_connections s0).
  { intros s0. unfold detach_agent.
    destruct (active_agents s0 !! ws); [|done]. by case_decide. }
  rewrite H4, H3, H2. clear H4 H3 H2. unfold remove_connection.
  destruct (decide (ws ∈ active_connections s)) as [Hin|Hin]; simpl;
    [done|].
  apply set_eq. intros x. rewrite elem_of_difference, elem_of_singleton.
  split; [intros Hx; split; [done | by intros ->] | by intros [Hx _]].
Qed.

Lemma remove_connection_frame ws s :
  active_agents (remove_connection ws s) = active_agents s ∧
  active_tasks (remove_connection ws s) = active_tasks s ∧
  message_processors (remove_connection ws s) = message_processors s ∧
  agents (remove_connection ws s) = agents s ∧
  tasks (remove_connection ws s) = tasks s ∧
  sockets (remove_connection ws s) = sockets s ∧
  trace (remove_connection ws s) = trace s.
Proof. unfold remove_connection. by case_decide. Qed.

Lemma detach_agent_frame ws s :
  active_agents (detach_agent ws s) = active_agents s ∧
  active_tasks (detach_agent ws s) = active_tasks s ∧
  tasks (detach_agent ws s) = tasks s ∧
  sockets (detach_agent ws s) = sockets s ∧
  trace (detach_agent ws s) = trace s.
Proof.
  unfold detach_agent. destruct (active_agents s !! ws); [|done].
  by case_decide.
Qed.

Lemma cancel_running_task_frame ws s :
  active_agents (cancel_running_task ws s) = active_agents s ∧
  message_processors (cancel_running_task ws s) = message_processors s ∧
  agents (cancel_running_task ws s) = agents s ∧
  sockets (cancel_running_task ws s) = sockets s.
Proof.
  unfold cancel_running_task, task_cancel.
  destruct (active_tasks s !! ws) as [tid|]; [|done].
  by destruct (task_done tid s).
Qed.

Lemma remove_agent_frame ws s :
  active_tasks (remove_agent ws s) = active_tasks s ∧
  message_processors (remove_agent ws s) = message_processors s ∧
  agents (remove_agent ws s) = agents s ∧
  tasks (remove_agent ws s) = tasks s ∧
  sockets (remove_agent ws s) = sockets s ∧
  trace (remove_agent ws s) = trace s.
Proof. unfold remove_agent. by case_decide. Qed.

Lemma task_in_flight_frame ws s s' :
  active_tasks s' = active_tasks s → tasks s' = tasks s →
  task_in_flight ws s' = task_in_flight ws s.
Proof. intros Ha Ht. unfold task_in_flight, task_done. by rewrite Ha, Ht. Qed.

Lemma cleanup_active_agents ws s :
  active_agents (cleanup_connection ws s) = delete ws (active_agents s).
Proof.
  unfold cleanup_connection.
  set (s3 := cancel_running_task ws _).
  assert (H3 : active_agents s3 = active_agents s).
  { unfold s3.
    rewrite (proj1 (cancel_running_task_frame _ _)),
            (proj1 (detach_agent_frame _ _)).
    apply remove_connection_frame. }
  unfold remove_agent. case_decide as Hd; simpl; rewrite H3; [done|].
  rewrite H3 in Hd. symmetry. apply delete_id.
  by apply eq_None_not_Some.
Qed.

Lemma cleanup_agents ws s :
  agents (cleanup_connection ws s) =
    match active_agents s !! ws with
    | Some aid => alter detached aid (agents s)
    | None => agents s
    end.
Proof.
  unfold cleanup_connection.
  destruct (remove_agent_frame ws
    (cancel_running_task ws (detach_agent ws (remove_connection ws s))))
    as (_ & _ & -> & _).
  destruct (cancel_running_task_frame ws
    (detach_agent ws (remove_connection ws s))) as (_ & _ & -> & _).
  destruct (remove_connection_frame ws s) as (Ha & _ & _ & Hg & _).
  unfold detach_agent. rewrite Ha.
  destruct (active_agents s !! ws); [|done].
  case_decide; simpl; by rewrite Hg.
Qed.

Lemma cleanup_message_processors ws s :
  message_processors (cleanup_connection ws s) =
    if decide (is_Some (active_agents s !! ws))
    then delete ws (message_processors s)
    else message_processors s.
Proof.
  unfold cleanup_connection.
  destruct (remove_agent_frame ws
    (cancel_running_task ws (detach_agent ws (remove_connection ws s))))
    as (_ & -> & _).
  destruct (cancel_running_task_frame ws
    (detach_agent ws (remove_connection ws s))) as (_ & -> & _).
  destruct (remove_connection_frame ws s) as (Ha & _ & Hm & _).
  unfold detach_agent. rewrite Ha.
  destruct (active_agents s !! ws) as [aid|].
  - destruct (decide (is_Some (Some aid))) as [_|[]]; [|by eexists].
    unfold set_agents. simpl. rewrite Hm.
    destruct (decide (is_Some (message_processors s !! ws))) as [Hd|Hd];
      simpl; rewrite ?Hm; [done|].
    symmetry. apply delete_id. by apply eq_None_not_Some.
  - rewrite decide_False by (by intros []). done.
Qed.

Lemma cleanup_tasks_frame ws s :
  active_tasks (detach_agent ws (remove_connection ws s)) = active_tasks s ∧
  tasks (detach_agent ws (remove_connection ws s)) = tasks s ∧
  trace (detach_agent ws (remove_connection ws s)) = trace s.
Proof.
  destruct (detach_agent_frame ws (remove_connection ws s))
    as (_ & -> & -> & _ & ->).
  destruct (remove_connection_frame ws s) as (_ & -> & _ & _ & -> & _ & ->).
  done.
Qed.

(** A task that is still in flight gets a cancellation request and its
    entry is dropped; without such a task nothing happens to the tasks,
    to [active_tasks] or to the trace. *)
Lemma cleanup_task_in_flight ws tid s :
  active_tasks s !! ws = Some tid → task_done tid s = false →
  active_tasks (cleanup_connection ws s) = delete ws (active_tasks s) ∧
  tasks (cleanup_connection ws s) =
    alter (λ t, mkTask (t_coro t) (t_state t) true) tid (tasks s) ∧
  trace (cleanup_connection ws s) = (trace s ++ [CancelRequested tid])%list.
Proof.
  intros Ha Hd. unfold cleanup_connection.
  destruct (remove_agent_frame ws
    (cancel_running_task ws (detach_agent ws (remove_connection ws s))))
    as (-> & _ & _ & -> & _ & ->).
  destruct (cleanup_tasks_frame ws s) as (Hat & Ht & Htr).
  unfold cancel_running_task, task_cancel, task_done.
  rewrite Hat, Ha, Ht. fold (task_done tid s). rewrite Hd. simpl.
  by rewrite Hat, Htr.
Qed.

Lemma cleanup_no_task_in_flight ws s :
  task_in_flight ws s = false →
  active_tasks (cleanup_connection ws s) = active_tasks s ∧
  tasks (cleanup_connection ws s) = tasks s ∧
  trace (cleanup_connection ws s) = trace s.
Proof.
  intros Hfl. unfold cleanup_connection.
  destruct (remove_agent_frame ws
    (cancel_running_task ws (detach_agent ws (remove_connection ws s))))
    as (-> & _ & _ & -> & _ & ->).
  destruct (cleanup_tasks_frame ws s) as (Hat & Ht & Htr).
  unfold cancel_running_task, task_done.
  unfold task_in_flight, task_done in Hfl.
  rewrite Hat, Ht. destruct (active_tasks s !! ws) as [tid|]; [|done].
  destruct (tasks s !! tid) as [t|]; simpl in *.
  - apply negb_false_iff in Hfl. by rewrite Hfl.
  - done.
Qed.

Lemma cleanup_sockets ws s : sockets (cleanup_connection ws s) = sockets s.
Proof.
  unfold cleanup_connection.
  destruct (remove_agent_frame ws
    (cancel_running_task ws (detach_agent ws (remove_connection ws s))))
    as (_ & _ & _ & _ & -> & _).
  destruct (cancel_running_task_frame ws
    (detach_agent ws (remove_connection ws s))) as (_ & _ & _ & ->).
  destruct (detach_agent_frame ws (remove_connection ws s))
    as (_ & _ & _ & -> & _).
  apply remove_connection_frame.
Qed.

Lemma server_eq s1 s2 :
  active_connections s1 = active_connections s2 →
  active_agents s1 = active_agents s2 →
  active_tasks s1 = active_tasks s2 →
  message_processors s1 = message_processors s2 →
  sockets s1 = sockets s2 →
  agents s1 = agents s2 →
  tasks s1 = tasks s2 →
  db s1 = db s2 →
  trace s1 = trace s2 →
  s1 = s2.
Proof. destruct s1, s2. simpl. by intros -> -> -> -> -> -> -> -> ->. Qed.

Lemma task_in_flight_cases ws s :
  (∃ tid, active_tasks s !! ws = Some tid ∧ task_done tid s = false ∧
          task_in_flight ws s = true) ∨
  task_in_flight ws s = false.
Proof.
  unfold task_in_flight. destruct (active_tasks s !! ws) as [tid|]; [|by right].
  destruct (task_done tid s) eqn:E; [by right|]. left. eauto.
Qed.

Lemma cleanup_not_in_flight ws s :
  task_in_flight ws (cleanup_connection ws s) = false.
Proof.
  destruct (task_in_flight_cases ws s) as [(tid & Ha & Hd & _)|Hfl].
  - destruct (cleanup_task_in_flight ws tid s Ha Hd) as (Hat & _).
    unfold task_in_flight. by rewrite Hat, lookup_delete_eq.
  - destruct (cleanup_no_task_in_flight ws s Hfl) as (Hat & Ht & _).
    by rewrite (task_in_flight_frame ws s _ Hat Ht).
Qed.

(** Running the cleanup a second time changes nothing. *)
Lemma cleanup_connection_idempotent ws s :
  cleanup_connection ws (cleanup_connection ws s) = cleanup_connection ws s.
Proof.
  set (s' := cleanup_connection ws s).
  assert (Hag : active_agents s' !! ws = None).
  { unfold s'. rewrite cleanup_active_agents. apply lookup_delete_eq. }
  destruct (cleanup_no_task_in_flight ws s' (cleanup_not_in_flight ws s))
    as (Hat & Ht & Htr).
  apply server_eq; try done.
  - rewrite cleanup_active_connections. unfold s'.
    rewrite cleanup_active_connections.
    apply set_eq. intros x. rewrite !elem_of_difference. tauto.
  - rewrite cleanup_active_agents. by apply delete_id.
  - rewrite cleanup_message_processors, Hag.
    by destruct (decide (is_Some None)) as [[]|].
  - apply cleanup_sockets.
  - by rewrite cleanup_agents, Hag.
  - apply cleanup_connection_db.
Qed.

(** The agent is detached, not destroyed: its object stays in place
    with [websocket = None], every task keeps its state and coroutine
    (a cancellation is only a request), and the message processor task
    is not touched at all. *)
Lemma cleanup_detaches ws aid a s :
  active_agents s !! ws = Some aid → agents s !! aid = Some a →
  agents (cleanup_connection ws s) !! aid = Some (detached a) ∧
  (∀ i, t_state <$> tasks (cleanup_connection ws s) !! i
        = t_state <$> tasks s !! i) ∧
  (∀ pid, message_processors s !! ws = Some pid →
          active_tasks s !! ws ≠ Some pid →
          tasks (cleanup_connection ws s) !! pid = tasks s !! pid).
Proof.
  intros Ha Hg. split; [|split].
  - rewrite cleanup_agents, Ha, list_lookup_alter_eq. by rewrite Hg.
  - intros i.
    destruct (task_in_flight_cases ws s) as [(tid & Hat & Hd & _)|Hfl].
    + destruct (cleanup_task_in_flight ws tid s Hat Hd) as (_ & -> & _).
      rewrite list_lookup_alter. case_decide; [subst|done].
      by destruct (tasks s !! i).
    + by destruct (cleanup_no_task_in_flight ws s Hfl) as (_ & -> & _).
  - intros pid _ Hne.
    destruct (task_in_flight_cases ws s) as [(tid & Hat & Hd & _)|Hfl].
    + destruct (cleanup_task_in_flight ws tid s Hat Hd) as (_ & -> & _).
      apply list_lookup_alter_ne. congruence.
    + by destruct (cleanup_no_task_in_flight ws s Hfl) as (_ & -> & _).
Qed.

(** A task still in flight is asked to cancel and its entry goes. *)
Lemma cleanup_cancels_running_task ws tid t s :
  active_tasks s !! ws = Some tid → tasks s !! tid = Some t →
  is_done (t_state t) = false →
  tasks (cleanup_connection ws s) !! tid
    = Some (mkTask (t_coro t) (t_state t) true) ∧
  active_tasks (cleanup_connection ws s) !! ws = None ∧
  trace (cleanup_connection ws s) = (trace s ++ [CancelRequested tid])%list.
Proof.
  intros Ha Ht Hd.
  assert (Hnd : task_done tid s = false) by (unfold task_done; by rewrite Ht).
  destruct (cleanup_task_in_flight ws tid s Ha Hnd) as (-> & -> & ->).
  rewrite list_lookup_alter_eq, Ht, lookup_delete_eq. done.
Qed.

(** On a connection that never got an agent or a task (a disconnect
    before [init_agent]) the cleanup only takes the socket out of
    [active_connections]. *)
Lemma cleanup_partially_initialized ws s :
  active_agents s !! ws = None → active_tasks s !! ws = None →
  cleanup_connection ws s
    = set_active_connections (active_connections s ∖ {[ws]}) s.
Proof.
  intros Ha Ht.
  assert (Hfl : task_in_flight ws s = false).
  { unfold task_in_flight. by rewrite Ht. }
  destruct (cleanup_no_task_in_flight ws s Hfl) as (Hat & Htk & Htr).
  apply server_eq; simpl; try done.
  - apply cleanup_active_connections.
  - rewrite cleanup_active_agents. by apply delete_id.
  - rewrite cleanup_message_processors, Ha.
    by destruct (decide (is_Some None)) as [[]|].
  - apply cleanup_sockets.
  - by rewrite cleanup_agents, Ha.
  - apply cleanup_connection_db.
Qed.

(** The entries of the connection are gone when its task, if it has
    one, was still in flight. *)
Lemma cleanup_forgets ws s :
  (is_Some (message_processors s !! ws) → is_Some (active_agents s !! ws)) →
  (∀ tid, active_tasks s !! ws = Some tid → task_done tid s = false) →
  forgotten ws (cleanup_connection ws s).
Proof.
  intros Hmp Hrun. unfold forgotten.
  rewrite cleanup_active_connections, cleanup_active_agents,
    cleanup_message_processors, lookup_delete_eq.
  split; [rewrite elem_of_difference, elem_of_singleton; tauto|].
  split; [done|]. split.
  - case_decide as Hd; [apply lookup_delete_eq|].
    apply eq_None_not_Some. tauto.
  - destruct (active_tasks s !! ws) as [tid|] eqn:Ha.
    + destruct (cleanup_task_in_flight ws tid s Ha (Hrun tid eq_refl))
        as (-> & _).
      apply lookup_delete_eq.
    + assert (Hfl : task_in_flight ws s = false).
      { unfold task_in_flight. by rewrite Ha. }
      destruct (cleanup_no_task_in_flight ws s Hfl) as (-> & _). done.
Qed.

(** The entry of a task that is already done is not removed. *)
Lemma cleanup_keeps_done_task ws tid s :
  active_tasks s !! ws = Some tid → task_done tid s = true →
  active_tasks (cleanup_connection ws s) !! ws = Some tid.
Proof.
  intros Ha Hd.
  assert (Hfl : task_in_flight ws s = false).
  { unfold task_in_flight. by rewrite Ha, Hd. }
  by destruct (cleanup_no_task_in_flight ws s Hfl) as (-> & _).
Qed.

End Cleanup.

(** C5 (the cleanup misses one case): on the connection of the
    scenario, whose only task has already finished when the client
    goes away (a query sent before [init_agent]), the disconnect runs
    [cleanup_connection] and the connection's entry in [active_tasks]
    is still there afterwards, pointing to the finished task: the
    deletion sits under the same test as the cancellation. Detaching
    the agent, cancelling a task in flight, idempotence and the
    partially initialised case hold as the specification says (lemmas
    [cleanup_detaches], [cleanup_cancels_running_task],
    [cleanup_connection_idempotent], [cleanup_partially_initialized]). *)
Theorem cleanup_leaves_finished_task_entry :
  let s := w_server after_task_ran in
  active_tasks s !! 0%nat = Some 0%nat ∧
  task_done 0%nat s = true ∧
  w_server after_disconnect = cleanup_connection 0%nat s ∧
  active_tasks (cleanup_connection 0%nat s) !! 0%nat = Some 0%nat ∧
  ¬ forgotten 0%nat (cleanup_connection 0%nat s).
Proof.
  intros s.
  assert (Ha : active_tasks s !! 0%nat = Some 0%nat) by reflexivity.
  assert (Hd : task_done 0%nat s = true) by reflexivity.
  pose proof (cleanup_keeps_done_task 0%nat 0%nat s Ha Hd) as Hkeep.
  split_and!; try done.
  intros (_ & _ & _ & Hnone). congruence.
Qed.

(* ===================================================================== *)
(** * Acknowledgment before task output                                  *)
(* ===================================================================== *)

Section Ordering.

Lemma ack_then_spawn_app ws tid tr ext :
  ack_then_spawn ws tid tr → ack_then_spawn ws tid (tr ++ ext).
Proof.
  intros (p1 & p2 & ->). exists p1, (p2 ++ ext).
  by rewrite <- app_assoc.
Qed.

(** A task output found in [tr ++ ext], where [ext] holds none, lies
    in [tr]. *)
Lemma task_output_in_prefix tr ext pre tid ws ev post :
  Forall handler_effect ext →
  tr ++ ext = pre ++ Sent (TaskSender tid) ws ev :: post →
  ∃ post', tr = pre ++ Sent (TaskSender tid) ws ev :: post'.
Proof.
  intros Hext Heq. apply app_eq_inv in Heq as [(k & -> & Hk)|(k & -> & Hk)].
  - destruct k as [|x k].
    + simpl in Hk. subst ext. by inversion Hext.
    + injection Hk as <- _. eauto.
  - subst ext. apply Forall_app in Hext as [_ Hext]. by inversion Hext.
Qed.

Lemma outputs_follow_ack_app tr ext :
  Forall handler_effect ext →
  outputs_follow_ack tr → outputs_follow_ack (tr ++ ext).
Proof.
  intros Hext Hout pre tid ws ev post Heq.
  destruct (task_output_in_prefix _ _ _ _ _ _ _ Hext Heq) as (post' & ->).
  by eapply Hout.
Qed.

Lemma quiet_refl s : quiet s s.
Proof.
  split; [exists []; by rewrite app_nil_r | eauto].
Qed.

Lemma quiet_trans s1 s2 s3 : quiet s1 s2 → quiet s2 s3 → quiet s1 s3.
Proof.
  intros [(e1 & T1 & F1) C1] [(e2 & T2 & F2) C2]. split.
  - exists (e1 ++ e2). rewrite T2, T1, <- app_assoc. split; [done|].
    by apply Forall_app.
  - intros tid t3 H3. destruct (C2 tid t3 H3) as [?|(t2 & H2 & E2)]; [by left|].
    destruct (C1 tid t2 H2) as [(ag & Hag)|(t1 & H1 & E1)].
    + left. exists ag. congruence.
    + right. exists t1. split; [done | congruence].
Qed.

Lemma quiet_ordered s s' : ordered s → quiet s s' → ordered s'.
Proof.
  intros [Hq Ho] [(ext & Ht & Hf) Hc]. split.
  - intros tid t' ws ui r fs Hl Hco. rewrite Ht.
    destruct (Hc tid t' Hl) as [(ag & Hag)|(t & Hl0 & E)]; [congruence|].
    apply ack_then_spawn_app. apply (Hq tid t ws ui r fs Hl0). congruence.
  - rewrite Ht. by apply outputs_follow_ack_app.
Qed.

(** Primitive operations that are quiet. *)

Lemma quiet_same s s' :
  trace s' = trace s → tasks s' = tasks s → quiet s s'.
Proof.
  intros Ht Hk. split.
  - exists []. by rewrite app_nil_r.
  - intros tid t' H. right. exists t'. by rewrite <- Hk.
Qed.

Lemma quiet_emit l s : Forall handler_effect l → quiet s (emit l s).
Proof.
  intros Hl. split; [by exists l|]. intros tid t' H. right. by exists t'.
Qed.

Lemma quiet_alter_task f tid s :
  (∀ t, t_coro (f t) = t_coro t) → quiet s (set_tasks (alter f tid (tasks s)) s).
Proof.
  intros Hf. split; [exists []; by rewrite app_nil_r|].
  intros i t'. simpl. rewrite list_lookup_alter. case_decide as Hi.
  - subst i. destruct (tasks s !! tid) as [t|] eqn:E; [|done].
    simpl. intros [= <-]. right. exists t. by rewrite Hf.
  - intros H. right. by exists t'.
Qed.

Lemma quiet_set_task_state tid st s : quiet s (set_task_state tid st s).
Proof. unfold set_task_state. by apply quiet_alter_task. Qed.

Lemma quiet_task_cancel tid s : quiet s (task_cancel tid s).
Proof.
  unfold task_cancel. destruct (task_done tid s); [apply quiet_refl|].
  eapply quiet_trans;
    [apply (quiet_alter_task (λ t, mkTask (t_coro t) (t_state t) true) tid);
     done|].
  apply quiet_emit. by repeat constructor.
Qed.

Lemma quiet_cleanup ws s : quiet s (cleanup_connection ws s).
Proof.
  destruct (task_in_flight_cases ws s) as [(tid & Ha & Hd & _)|Hfl].
  - destruct (cleanup_task_in_flight ws tid s Ha Hd) as (_ & Hk & Ht).
    eapply quiet_trans; [apply (quiet_task_cancel tid)|].
    apply quiet_same; unfold task_cancel; rewrite Hd; simpl; congruence.
  - destruct (cleanup_no_task_in_flight ws s Hfl) as (_ & Hk & Ht).
    by apply quiet_same.
Qed.

(** Quiet computations compose. *)

Lemma quietly_ret {A} (a : A) : quietly (mret a).
Proof. intros s. apply quiet_refl. Qed.

Lemma quietly_raise {A} e : quietly (raise (A:=A) e).
Proof. intros s. apply quiet_refl. Qed.

Lemma quietly_bind {A B} (c : M A) (f : A → M B) :
  quietly c → (∀ a, quietly (f a)) → quietly (c ≫= f).
Proof.
  intros Hc Hf s. unfold mbind, M_bind. specialize (Hc s).
  destruct (c s) as [[a|e] s']; simpl in *; [|done].
  eapply quiet_trans; [exact Hc | apply Hf].
Qed.

Lemma quietly_try_except {A} (body : M A) (handler : Exn → M A) :
  quietly body → (∀ e, quietly (handler e)) → quietly (try_except body handler).
Proof.
  intros Hb Hh s. unfold try_except. specialize (Hb s).
  destruct (body s) as [[a|e] s']; simpl in *; [done|].
  eapply quiet_trans; [exact Hb | apply Hh].
Qed.

Lemma quietly_modify f : (∀ s, quiet s (f s)) → quietly (modify f).
Proof. intros Hf s. apply Hf. Qed.

Lemma quietly_send_handler ws ev : quietly (send_json Handler ws ev).
Proof.
  intros s. unfold send_json.
  destruct (sockets s !! ws) as [[]|]; simpl; try apply quiet_refl.
  apply quiet_emit. by repeat constructor.
Qed.

Lemma quietly_create_processor ag : quietly (create_task (ProcessMessages ag)).
Proof.
  intros s. unfold create_task. simpl. split.
  - exists [Spawned (length (tasks s))]. split; [done|]. by repeat constructor.
  - intros tid t'. simpl. rewrite lookup_snoc_Some.
    intros [[_ H]|[_ <-]]; [right; by exists t' | left; by exists ag].
Qed.

Lemma quietly_if {A} (b : Server → bool) (c1 c2 : M A) :
  quietly c1 → quietly c2 → quietly (λ s, if b s then c1 s else c2 s).
Proof. intros H1 H2 s. destruct (b s); [apply H1 | apply H2]. Qed.

(** The handlers. *)

Lemma quietly_create_agent cx orc : quietly (create_agent_for_connection cx orc).
Proof.
  unfold create_agent_for_connection.
  destruct (o_init orc) as [err|err|]; [apply quietly_raise|..];
    (apply quietly_bind; [apply quietly_modify; intros s; by apply quiet_same|]);
    intros _; [apply quietly_raise|].
  intros s. by apply quiet_same.
Qed.

Lemma spawn_query_ordered ws ui r fs s :
  ordered s →
  ordered
    (set_active_tasks (<[ws := length (tasks s)]> (active_tasks s))
       (emit [Spawned (length (tasks s))]
          (set_tasks (tasks s ++ [mkTask (RunAgentAsync ws ui r fs) PENDING false])
             (emit [Sent Handler ws processing_ack] s)))).
Proof.
  intros [Hq Ho]. split.
  - intros tid t ws' ui' r' fs'. simpl. rewrite lookup_snoc_Some.
    rewrite <- app_assoc. simpl.
    intros [[_ Hl]|[-> <-]] Hco.
    + apply ack_then_spawn_app. by eapply Hq.
    + simpl in Hco. injection Hco as -> _ _ _.
      by exists (trace s), [].
  - simpl. rewrite <- app_assoc. apply outputs_follow_ack_app; [|done].
    by repeat constructor.
Qed.

Lemma handle_message_ordered cx orc msg_type content s :
  ordered s → ordered (handle_message cx orc msg_type content s).2.
Proof.
  intros Hord. unfold handle_message.
  destruct (String.eqb msg_type "init_agent").
  { eapply quiet_ordered; [done|]. revert s Hord. intros s _. revert s.
    apply quietly_bind; [apply quietly_create_agent|]. intros agent.
    apply quietly_bind; [apply quietly_modify; intros s; by apply quiet_same|].
    intros _.
    apply quietly_bind; [apply quietly_create_processor|]. intros mp.
    apply quietly_bind; [apply quietly_modify; intros s; by apply quiet_same|].
    intros _. apply quietly_send_handler. }
  destruct (String.eqb msg_type "query").
  { destruct (task_in_flight (cx_websocket cx) s).
    - eapply quiet_ordered; [done | apply quietly_send_handler].
    - unfold mbind, M_bind, send_json.
      destruct (sockets s !! cx_websocket cx) as [[]|]; simpl; try done.
      by apply spawn_query_ordered. }
  destruct (String.eqb msg_type "workspace_info").
  { eapply quiet_ordered; [done|].
    destruct (cx_workspace_manager cx); apply quietly_send_handler. }
  destruct (String.eqb msg_type "ping").
  { eapply quiet_ordered; [done | apply quietly_send_handler]. }
  destruct (String.eqb msg_type "cancel").
  { eapply quiet_ordered; [done|].
    destruct (task_in_flight (cx_websocket cx) s);
      [|apply quietly_send_handler].
    apply quietly_bind; [|intros _; apply quietly_send_handler].
    apply quietly_modify. intros s0.
    destruct (active_tasks s0 !! cx_websocket cx);
      [apply quiet_task_cancel | apply quiet_refl]. }
  destruct (String.eqb msg_type "enhance_prompt").
  { eapply quiet_ordered; [done|].
    destruct (o_enhance orc) as [err|success message enhanced_prompt];
      [apply quietly_raise|].
    destruct (success && negb (String.eqb enhanced_prompt ""));
      apply quietly_send_handler. }
  eapply quiet_ordered; [done | apply quietly_send_handler].
Qed.

Lemma on_receive_ordered cx orc d s :
  ordered s → ordered (on_receive cx orc d s).2.
Proof.
  intros Hord. unfold on_receive, try_except.
  assert (Hh : ∀ e s0, ordered s0 →
    ordered ((match e with
              | JSONDecodeError =>
                  send_json Handler (cx_websocket cx)
                    (error_event "Invalid JSON format")
              | _ =>
                  send_json Handler (cx_websocket cx)
                    (error_event ("Error processing request: " +:+ exn_str e))
              end) s0).2).
  { intros e s0 H0. eapply quiet_ordered; [exact H0|].
    destruct e; apply quietly_send_handler. }
  destruct d as [|err|msg_type content].
  - exact (Hh JSONDecodeError s Hord).
  - exact (Hh (Exception err) s Hord).
  - pose proof (handle_message_ordered cx orc msg_type content s Hord) as Hb.
    destruct (handle_message cx orc msg_type content s) as [[a|e] s'];
      simpl in *; [done | by apply Hh].
Qed.

Lemma loop_iteration_ordered cx orc i s :
  ordered s → ordered (loop_state (loop_iteration cx orc i s)).
Proof.
  intros Hord. unfold loop_iteration. destruct i as [|d|err]; simpl.
  - eapply quiet_ordered; [done | apply quiet_cleanup].
  - pose proof (on_receive_ordered cx orc d s Hord) as Hb.
    destruct (on_receive cx orc d s) as [[a|e] s']; simpl in *; [done|].
    eapply quiet_ordered; [done | apply quiet_cleanup].
  - eapply quiet_ordered; [done | apply quiet_cleanup].
Qed.

Lemma quietly_handshake ws h env :
  quietly (websocket_endpoint_handshake ws h env).
Proof.
  unfold websocket_endpoint_handshake.
  assert (Hclose : quietly (close ws)).
  { apply quietly_modify. intros s.
    eapply quiet_trans; [|apply quiet_emit; by repeat constructor].
    by apply quiet_same. }
  apply quietly_bind; [apply quietly_modify; intros s; by apply quiet_same|].
  intros _.
  assert (Hfail : ∀ msg, quietly
            (send_json Handler ws (error_event msg) ;; close ws ;; mret Returned)).
  { intros msg. apply quietly_bind; [apply quietly_send_handler|]. intros _.
    apply quietly_bind; [done|]. intros _. apply quietly_ret. }
  destruct (fetch_user_id (he_http env)) as [uid|]; [|apply Hfail].
  destruct (h_X_Device_ID h) as [dev|]; [|apply Hfail].
  destruct (String.eqb dev ""); [apply Hfail|].
  apply quietly_bind; [apply quietly_modify; intros s; by apply quiet_same|].
  intros _. apply quietly_try_except.
  - destruct (he_get_client_error env); [apply quietly_raise|].
    apply quietly_bind; [apply quietly_send_handler|]. intros _.
    apply quietly_ret.
  - intros _. apply quietly_bind; [|intros _; apply quietly_ret].
    apply quietly_modify. intros s. apply quiet_cleanup.
Qed.

Lemma quietly_unprovisioned ws h http err :
  quietly (websocket_endpoint_unprovisioned ws h http err).
Proof.
  unfold websocket_endpoint_unprovisioned.
  assert (Hclose : quietly (close ws)).
  { apply quietly_modify. intros s.
    eapply quiet_trans; [|apply quiet_emit; by repeat constructor].
    by apply quiet_same. }
  apply quietly_bind; [apply quietly_modify; intros s; by apply quiet_same|].
  intros _.
  assert (Hfail : ∀ msg, quietly
            (send_json Handler ws (error_event msg) ;; close ws ;; mret Returned)).
  { intros msg. apply quietly_bind; [apply quietly_send_handler|]. intros _.
    apply quietly_bind; [done|]. intros _. apply quietly_ret. }
  destruct (fetch_user_id http) as [uid|]; [|apply Hfail].
  destruct (h_X_Device_ID h) as [dev|]; [|apply Hfail].
  destruct (String.eqb dev ""); [apply Hfail|].
  apply quietly_bind; [apply quietly_modify; intros s; by apply quiet_same|].
  intros _. apply quietly_raise.
Qed.

(** The tasks. *)

Lemma task_send_ordered tid ws ev t ui r fs s :
  ordered s → tasks s !! tid = Some t → t_coro t = RunAgentAsync ws ui r fs →
  ordered (send_json (TaskSender tid) ws ev s).2.
Proof.
  intros [Hq Ho] Ht Hco. unfold send_json.
  destruct (sockets s !! ws) as [[]|]; simpl; try done.
  split.
  - intros tid' t' ws' ui' r' fs' Hl' Hco'. simpl.
    apply ack_then_spawn_app. by eapply Hq.
  - intros pre tid' ws' ev' post. simpl. intros Heq.
    apply app_eq_inv in Heq as [(k & Hk1 & Hk2)|(k & -> & Hk)].
    + destruct k as [|x k].
      * simpl in Hk2. injection Hk2 as -> -> -> ->.
        rewrite app_nil_r in Hk1. subst pre. by eapply Hq.
      * injection Hk2 as <- Hk2. eapply Ho. exact Hk1.
    + destruct k as [|x k]; [|by destruct k].
      simpl in Hk. injection Hk as <- <- <- <-.
      rewrite app_nil_r. by eapply Hq.
Qed.

Lemma quiet_finally ws s : quiet s (finally_clause ws s).
Proof. by apply quiet_same. Qed.

Lemma task_step_ordered tid ev s : ordered s → ordered (task_step tid ev s).
Proof.
  intros Hord. unfold task_step.
  destruct (tasks s !! tid) as [[[ws ui r fs|ag] st mc]|] eqn:Ht; [| |done].
  - unfold run_agent_async_step.
    pose proof (λ ev0, task_send_ordered tid ws ev0 _ ui r fs s Hord Ht eq_refl)
      as Hsend.
    destruct st, ev; try done.
    + destruct mc; [done|]. destruct (active_agents s !! ws) as [aid|].
      * eapply quiet_ordered; [done|].
        eapply quiet_trans; [|apply quiet_set_task_state].
        by apply quiet_same.
      * eapply quiet_ordered; [apply Hsend | apply quiet_set_task_state].
    + destruct mc; [|done].
      eapply quiet_ordered; [done | apply quiet_set_task_state].
    + eapply quiet_ordered; [done|].
      eapply quiet_trans; [apply quiet_finally | apply quiet_set_task_state].
    + eapply quiet_ordered; [apply Hsend|].
      eapply quiet_trans; [apply quiet_finally | apply quiet_set_task_state].
    + destruct mc; [|done]. eapply quiet_ordered; [done|].
      eapply quiet_trans; [apply quiet_finally | apply quiet_set_task_state].
  - destruct st, mc, ev; try done.
    eapply quiet_ordered; [done | apply quiet_set_task_state].
Qed.

(** The whole server. *)

Lemma step_ordered w l : ordered (w_server w) → ordered (w_server (step w l)).
Proof.
  intros Hord.
  destruct l as [ws h env|ws i orc|ws|tid ev|ws h http err]; simpl.
  - destruct (sockets (w_server w) !! ws); [done|].
    pose proof (quietly_handshake ws h env (w_server w)) as Hq.
    destruct (websocket_endpoint_handshake ws h env (w_server w))
      as [[[cx|]|e] s']; simpl in *; by eapply quiet_ordered.
  - destruct (w_loops w !! ws) as [cx|]; [|done].
    set (i' := match sockets (w_server w) !! ws with
               | Some CONNECTED => i
               | _ => ClientGone
               end).
    pose proof (loop_iteration_ordered cx orc i' (w_server w) Hord) as Hl.
    by destruct (loop_iteration cx orc i' (w_server w)).
  - destruct (sockets (w_server w) !! ws); [|done]. simpl.
    eapply quiet_ordered; [done | by apply quiet_same].
  - by apply task_step_ordered.
  - destruct (sockets (w_server w) !! ws); [done|]. simpl.
    eapply quiet_ordered; [done | apply quietly_unprovisioned].
Qed.

Lemma boot_ordered : ordered (w_server boot).
Proof.
  split.
  - intros tid t ws ui r fs H. by destruct tid.
  - intros pre tid ws ev post H. by destruct pre.
Qed.

Lemma run_ordered ls w : ordered (w_server w) → ordered (w_server (run ls w)).
Proof.
  revert w. induction ls as [|l ls IH]; intros w Hord; [done|].
  simpl. apply IH. by apply step_ordered.
Qed.

End Ordering.

(** C7: the acknowledgment comes first. (1) An accepted query (socket
    connected, no task in flight) appends to the trace the [processing]
    acknowledgment and then the spawning of the new task, which is
    created pending and recorded in [active_tasks]. (2) In every run
    of the server, every query task was spawned immediately after the
    acknowledgment sent on its connection, and every event a task sends
    comes later in the trace than that acknowledgment and spawning. *)
Theorem ack_before_spawn_and_output :
  (∀ (cx : ConnCtx) (orc : Oracle) (content : Content) (s : Server),
     sockets s !! cx_websocket cx = Some CONNECTED →
     task_in_flight (cx_websocket cx) s = false →
     ∃ s', loop_iteration cx orc (Data (Message "query" content)) s
             = Continue s' ∧
           trace s' = trace s ++
             [Sent Handler (cx_websocket cx) processing_ack;
              Spawned (length (tasks s))] ∧
           tasks s' = tasks s ++
             [mkTask (RunAgentAsync (cx_websocket cx) (c_text content)
                        (c_resume content) (c_files content)) PENDING false] ∧
           active_tasks s' =
             <[cx_websocket cx := length (tasks s)]> (active_tasks s)) ∧
  (∀ (ls : list Label),
     let s := w_server (run ls boot) in
     (∀ tid t ws ui r fs,
        tasks s !! tid = Some t → t_coro t = RunAgentAsync ws ui r fs →
        ack_then_spawn ws tid (trace s)) ∧
     (∀ pre tid ws ev post,
        trace s = pre ++ Sent (TaskSender tid) ws ev :: post →
        ack_then_spawn ws tid pre)).
Proof.
  split.
  - intros cx orc content s Hs Hfl. eexists. split; [by apply query_accepted|].
    simpl. by rewrite <- app_assoc.
  - intros ls. exact (run_ordered ls boot boot_ordered).
Qed.

Lemma ack_before_spawn_and_output_witness :
  (∃ s', loop_iteration cx0 calm (Data (Message "query" query_hello))
           (w_server connected) = Continue s' ∧
         trace s' = trace (w_server connected) ++
           [Sent Handler 0%nat processing_ack; Spawned 0%nat] ∧
         tasks s' = [mkTask (RunAgentAsync 0%nat "hello" false []) PENDING false] ∧
         active_tasks s' = <[0%nat := 0%nat]> ∅) ∧
  ack_then_spawn 0%nat 0%nat
    (trace (w_server connected) ++
       [Sent Handler 0%nat processing_ack; Spawned 0%nat]).
Proof.
  destruct ack_before_spawn_and_output as [Hstep Hrun]. split.
  - apply (Hstep cx0 calm query_hello (w_server connected)); reflexivity.
  - destruct (Hrun [Connect 0%nat dev1_headers u1_env;
                    Receive 0%nat (Data (Message "query" query_hello)) calm;
                    TaskStep 0%nat Start]) as [_ Hout].
    apply (Hout _ 0%nat 0%nat
             (error_event "Agent not initialized for this connection") []).
    reflexivity.
Defined.

(* ===================================================================== *)
(** * Properties of the upload endpoint                                  *)
(* ===================================================================== *)

Section UploadArea.
Import Upload.

Implicit Types (fs : gmap (list string) Node) (d p q : list string)
  (n : string).

Lemma simple_name_spec n :
  simple_name n = true ↔ is_absolute n = false ∧ parts n = [n] ∧ n ≠ "..".
Proof.
  unfold simple_name.
  rewrite !andb_true_iff, !negb_true_iff, bool_decide_eq_true, String.eqb_neq.
  tauto.
Qed.

Lemma simple_name_joinpath d n :
  simple_name n = true → joinpath d n = d ++ [n].
Proof.
  intros (Ha & Hp & _)%simple_name_spec. unfold joinpath. by rewrite Ha, Hp.
Qed.

Lemma simple_name_nonempty n : simple_name n = true → String.eqb n "" = false.
Proof.
  intros (_ & Hp & _)%simple_name_spec. apply String.eqb_neq. by intros ->.
Qed.

Lemma plain_snoc d n :
  plain (d ++ [n]) = true ↔ plain d = true ∧ n ≠ "..".
Proof.
  unfold plain. rewrite forallb_app. simpl.
  rewrite !andb_true_iff, negb_true_iff, String.eqb_neq. tauto.
Qed.

Lemma directory_chain_spec fs p :
  directory_chain fs p = true ↔
  ∀ k, (k ≤ length p)%nat → node_at fs (take k p) = Some Dir.
Proof.
  unfold directory_chain. rewrite forallb_forall. split.
  - intros H k Hk. specialize (H k). rewrite in_seq in H.
    assert (Hr : (0 ≤ k < 0 + S (length p))%nat) by lia.
    specialize (H Hr). by destruct (node_at fs (take k p)) as [[]|].
  - intros H k Hk%in_seq. rewrite H by lia. done.
Qed.

Lemma directory_chain_self fs p :
  directory_chain fs p = true → node_at fs p = Some Dir.
Proof.
  intros H. rewrite directory_chain_spec in H.
  specialize (H (length p) (le_n _)). by rewrite firstn_all in H.
Qed.

Lemma node_at_snoc fs d n : node_at fs (d ++ [n]) = fs !! (d ++ [n]).
Proof. by destruct d. Qed.

Lemma directory_chain_snoc fs d n :
  directory_chain fs d = true → fs !! (d ++ [n]) = Some Dir →
  directory_chain fs (d ++ [n]) = true.
Proof.
  rewrite !directory_chain_spec. intros H Hn k Hk.
  rewrite length_app in Hk. simpl in Hk.
  destruct (decide (k ≤ length d)%nat) as [Hle|Hgt].
  - rewrite take_app_le by done. by apply H.
  - replace k with (length (d ++ [n])) by (rewrite length_app; simpl; lia).
    by rewrite firstn_all, node_at_snoc.
Qed.

(** Adding an entry below or beside a chain of directories, or a
    directory anywhere, keeps the chain. *)
Lemma directory_chain_insert_dir fs p q :
  directory_chain fs p = true → directory_chain (<[q := Dir]> fs) p = true.
Proof.
  rewrite !directory_chain_spec. intros H k Hk. specialize (H k Hk).
  destruct (take k p) as [|c r] eqn:E; [done|]. simpl in *.
  destruct (decide (q = c :: r)) as [->|Hne].
  - apply lookup_insert_eq.
  - by rewrite lookup_insert_ne.
Qed.

Lemma directory_chain_insert_longer fs p q node :
  (length p < length q)%nat →
  directory_chain fs p = true → directory_chain (<[q := node]> fs) p = true.
Proof.
  rewrite !directory_chain_spec. intros Hlen H k Hk. specialize (H k Hk).
  destruct (take k p) as [|c r] eqn:E; [done|]. simpl in *.
  rewrite lookup_insert_ne; [done|]. intros ->.
  apply (f_equal length) in E. rewrite length_take in E. lia.
Qed.

(** Resolution inside a chain of directories is the identity. *)
Lemma walk_chain fs cur todo :
  plain todo = true →
  (∀ k, (k < length todo)%nat → node_at fs (cur ++ take k todo) = Some Dir) →
  walk fs cur todo = inr (cur ++ todo).
Proof.
  revert cur. induction todo as [|c rest IH]; intros cur Hp Hd; simpl.
  - by rewrite app_nil_r.
  - pose proof (Hd 0%nat ltac:(simpl; lia)) as H0. simpl in H0.
    rewrite app_nil_r in H0. rewrite H0.
    simpl in Hp. apply andb_true_iff in Hp as [Hc Hp].
    apply negb_true_iff in Hc. rewrite Hc.
    rewrite IH; [by rewrite <- app_assoc | done |].
    intros k Hk. specialize (Hd (S k) ltac:(simpl; lia)).
    simpl in Hd. by rewrite <- app_assoc.
Qed.

Lemma resolve_directory fs d :
  directory_chain fs d = true → plain d = true → resolve fs d = inr d.
Proof.
  intros Hd Hp. unfold resolve. rewrite walk_chain; [done | done |].
  intros k Hk. simpl. rewrite directory_chain_spec in Hd. apply Hd. lia.
Qed.

Lemma resolve_child fs d n :
  directory_chain fs d = true → plain d = true → n ≠ ".." →
  resolve fs (d ++ [n]) = inr (d ++ [n]).
Proof.
  intros Hd Hp Hn. unfold resolve. rewrite walk_chain; [done | |].
  - by apply plain_snoc.
  - intros k Hk. rewrite length_app in Hk. simpl in *.
    rewrite take_app_le by lia.
    rewrite directory_chain_spec in Hd. apply Hd. lia.
Qed.

Lemma path_exists_directory fs d :
  directory_chain fs d = true → plain d = true → path_exists fs d = true.
Proof.
  intros Hd Hp. unfold path_exists.
  by rewrite resolve_directory, directory_chain_self.
Qed.

Lemma path_exists_child fs d n :
  directory_chain fs d = true → plain d = true → n ≠ ".." →
  path_exists fs (d ++ [n]) =
    match fs !! (d ++ [n]) with Some _ => true | None => false end.
Proof.
  intros Hd Hp Hn. unfold path_exists.
  by rewrite resolve_child, node_at_snoc.
Qed.

Lemma path_mkdir_existing fs d :
  directory_chain fs d = true → plain d = true → path_mkdir fs d = inr fs.
Proof.
  intros Hd Hp. unfold path_mkdir. simpl. unfold os_mkdir, path_is_dir.
  by rewrite resolve_directory, directory_chain_self.
Qed.

Lemma path_mkdir_child fs d n :
  directory_chain fs d = true → plain d = true → n ≠ ".." →
  match fs !! (d ++ [n]) with
  | None | Some Dir => true
  | Some (File _) => false
  end = true →
  path_mkdir fs (d ++ [n]) = inr (<[d ++ [n] := Dir]> fs).
Proof.
  intros Hd Hp Hn Hfree. unfold path_mkdir. simpl. unfold os_mkdir, path_is_dir.
  rewrite resolve_child, node_at_snoc by done.
  destruct (fs !! (d ++ [n])) as [[|data]|] eqn:E; try done.
  simpl. by rewrite insert_id.
Qed.

Lemma write_file_child fs d n data :
  directory_chain fs d = true → plain d = true → n ≠ ".." →
  match fs !! (d ++ [n]) with Some Dir => false | _ => true end = true →
  write_file fs (d ++ [n]) data = inr (<[d ++ [n] := File data]> fs).
Proof.
  intros Hd Hp Hn Hfree. unfold write_file.
  rewrite resolve_child, node_at_snoc by done.
  by destruct (fs !! (d ++ [n])) as [[|data']|].
Qed.

Lemma name_snoc d n : name (d ++ [n]) = n.
Proof. unfold name. apply last_last. Qed.

Lemma parent_snoc d n : parent (d ++ [n]) = d.
Proof. unfold parent. apply removelast_last. Qed.

(** What [workspace_ready] provides. *)
Lemma workspace_ready_facts cfg sid fs :
  workspace_ready cfg sid fs = true →
  let W := workspace cfg ++ [sid] in
  let ud := upload_dir_of cfg sid in
  simple_name sid = true ∧ simple_name (UPLOAD_FOLDER_NAME cfg) = true ∧
  ud = W ++ [UPLOAD_FOLDER_NAME cfg] ∧
  plain W = true ∧ plain ud = true ∧
  directory_chain fs W = true ∧
  path_mkdir fs ud = inr (<[ud := Dir]> fs) ∧
  directory_chain (<[ud := Dir]> fs) ud = true.
Proof.
  intros H W ud. unfold workspace_ready in H. rewrite !andb_true_iff in H.
  destruct H as ((((Hpw & Hsid) & Hup) & Hch) & Hud).
  pose proof Hsid as (_ & _ & Hsid')%simple_name_spec.
  pose proof Hup as (_ & _ & Hup')%simple_name_spec.
  assert (Hud_eq : ud = W ++ [UPLOAD_FOLDER_NAME cfg]).
  { unfold ud, upload_dir_of, W. by rewrite <- app_assoc. }
  assert (HpW : plain W = true) by (by apply plain_snoc).
  split_and!; try done.
  - rewrite Hud_eq. by apply plain_snoc.
  - rewrite Hud_eq. apply path_mkdir_child; try done. by rewrite <- Hud_eq.
  - rewrite Hud_eq. apply directory_chain_snoc.
    + by apply directory_chain_insert_dir.
    + apply lookup_insert_eq.
Qed.

(** A new file with a simple name: it is stored under that name in
    the upload folder, and nothing else changes (the folder itself is
    created if it was not there). *)
Lemma upload_fresh cfg sid n content data fs :
  workspace_ready cfg sid fs = true →
  simple_name n = true →
  fs !! (upload_dir_of cfg sid ++ [n]) = None →
  decode_content cfg content = Some data →
  upload_file_endpoint cfg (upload_request sid n content) fs =
    (Uploaded ("/" +:+ UPLOAD_FOLDER_NAME cfg +:+ "/" +:+ n)
              (render (upload_dir_of cfg sid ++ [n])),
     <[upload_dir_of cfg sid ++ [n] := File data]>
       (<[upload_dir_of cfg sid := Dir]> fs)).
Proof.
  intros Hready Hn Hfree Hdec.
  destruct (workspace_ready_facts cfg sid fs Hready)
    as (Hsid & Hup & Hud & HpW & Hpud & HchW & Hmk & Hch1).
  pose proof Hn as (Hrel & _ & Hn')%simple_name_spec.
  set (ud := upload_dir_of cfg sid) in *.
  assert (Hne : ud ≠ ud ++ [n]).
  { intros E. apply (f_equal length) in E. rewrite length_app in E.
    simpl in E. lia. }
  unfold upload_file_endpoint, upload_request. simpl.
  rewrite (simple_name_nonempty sid Hsid).
  rewrite (simple_name_joinpath _ sid Hsid).
  rewrite (path_exists_directory fs _ HchW HpW). simpl.
  rewrite (simple_name_joinpath _ _ Hup), <- Hud, Hmk.
  rewrite (simple_name_nonempty n Hn), Hrel.
  rewrite (simple_name_joinpath _ n Hn).
  rewrite (path_exists_child _ ud n Hch1 Hpud Hn').
  rewrite lookup_insert_ne, Hfree by done.
  rewrite parent_snoc, (path_mkdir_existing _ ud Hch1 Hpud), Hdec.
  rewrite write_file_child; try done.
  by rewrite lookup_insert_ne, Hfree.
Qed.

Lemma stem_snoc d n : stem (d ++ [n]) = stem [n].
Proof. unfold stem. by rewrite name_snoc. Qed.

Lemma suffix_snoc d n : suffix (d ++ [n]) = suffix [n].
Proof. unfold suffix. by rewrite name_snoc. Qed.

(** Storing a file in the upload folder keeps the workspace ready. *)
Lemma workspace_ready_after_upload cfg sid n node fs :
  workspace_ready cfg sid fs = true →
  workspace_ready cfg sid
    (<[upload_dir_of cfg sid ++ [n] := node]>
       (<[upload_dir_of cfg sid := Dir]> fs)) = true.
Proof.
  intros H. unfold workspace_ready in *. rewrite !andb_true_iff in *.
  destruct H as ((((Hpw & Hsid) & Hup) & Hch) & Hud).
  split_and!; try done.
  - apply directory_chain_insert_longer.
    + unfold upload_dir_of. rewrite !length_app. simpl. lia.
    + by apply directory_chain_insert_dir.
  - rewrite lookup_insert_ne, lookup_insert_eq; [done|].
    intros E. apply (f_equal length) in E. rewrite length_app in E.
    simpl in E. lia.
Qed.

(** The collision loop returns the first candidate, counting from
    [counter], that does not exist; it gives up only when every
    candidate within the bound exists. *)
Lemma unique_path_first_free fuel fs ud base ext c p :
  unique_path fuel fs ud base ext c = Some p →
  ∃ k, (c ≤ k < c + fuel)%nat ∧
       p = joinpath ud (base +:+ "_" +:+ pretty k +:+ ext) ∧
       path_exists fs p = false ∧
       ∀ j, (c ≤ j < k)%nat →
            path_exists fs (joinpath ud (base +:+ "_" +:+ pretty j +:+ ext))
              = true.
Proof.
  revert c. induction fuel as [|fuel IH]; intros c; simpl; [done|].
  destruct (path_exists fs (joinpath ud (base +:+ "_" +:+ pretty c +:+ ext)))
    eqn:E.
  - intros H. destruct (IH _ H) as (k & Hk & -> & Hfree & Hbusy).
    exists k. split; [lia|]. split; [done|]. split; [done|].
    intros j Hj. destruct (decide (j = c)) as [->|Hne]; [done|].
    apply Hbusy. lia.
  - intros [= <-]. exists c. split; [lia|]. split; [done|]. split; [done|].
    intros j Hj. lia.
Qed.

Lemma unique_path_exhausted fuel fs ud base ext c :
  unique_path fuel fs ud base ext c = None →
  ∀ j, (c ≤ j < c + fuel)%nat →
       path_exists fs (joinpath ud (base +:+ "_" +:+ pretty j +:+ ext)) = true.
Proof.
  revert c. induction fuel as [|fuel IH]; intros c; simpl; [intros; lia|].
  destruct (path_exists fs (joinpath ud (base +:+ "_" +:+ pretty c +:+ ext)))
    eqn:E; [|done].
  intros H j Hj. destruct (decide (j = c)) as [->|Hne]; [done|].
  apply (IH _ H). lia.
Qed.

End UploadArea.

(* ===================================================================== *)
(** * Path sanitization in the upload endpoint                           *)
(* ===================================================================== *)

Section Sanitization.
Import Upload.

Implicit Types (fs : gmap (list string) Node) (d p q : list string).


Lemma is_absolute_head c w :
  Ascii.eqb c "/" = false → is_absolute (String c w) = false.
Proof.
  intros E.
  change (is_absolute (String c w))
    with (if Ascii.ascii_dec "/" c then String.prefix "" w else false).
  destruct (Ascii.ascii_dec "/" c) as [<-|]; [|done].
  by rewrite Ascii.eqb_refl in E.
Qed.




(** Resolution only looks at directories, so it is stable when
    directories are kept. *)
Lemma walk_kept fs fs' cur todo q :
  dirs_kept fs fs' → walk fs cur todo = inr q → walk fs' cur todo = inr q.
Proof.
  intros Hk. revert cur. induction todo as [|c rest IH]; intros cur; simpl;
    [done|].
  destruct (node_at fs cur) as [[|data]|] eqn:E; try done.
  rewrite (Hk cur E). apply IH.
Qed.


Lemma dirs_kept_refl fs : dirs_kept fs fs.
Proof. by intros x. Qed.

Lemma dirs_kept_trans fs1 fs2 fs3 :
  dirs_kept fs1 fs2 → dirs_kept fs2 fs3 → dirs_kept fs1 fs3.
Proof. intros H1 H2 x Hx. by apply H2, H1. Qed.

Lemma dirs_kept_insert fs q node :
  node_at fs q ≠ Some Dir → dirs_kept fs (<[q := node]> fs).
Proof.
  intros Hq x Hx. destruct x as [|c r]; [done|]. simpl in *.
  rewrite lookup_insert_ne; [done|]. intros ->. by apply Hq.
Qed.

Lemma node_at_insert_eq fs q node :
  node_at fs q ≠ Some Dir → node_at (<[q := node]> fs) q = Some node.
Proof.
  intros Hq. destruct q as [|c r]; [done|]. simpl. apply lookup_insert_eq.
Qed.

Lemma os_mkdir_ok fs p fs' :
  os_mkdir fs p = inr fs' → dirs_kept fs fs' ∧ path_is_dir fs' p = true.
Proof.
  unfold os_mkdir. destruct (resolve fs p) as [e|q] eqn:E; [done|].
  destruct (node_at fs q) as [node|] eqn:En; [done|]. intros [= <-].
  assert (Hq : node_at fs q ≠ Some Dir) by congruence.
  pose proof (dirs_kept_insert fs q Dir Hq) as Hk. split; [done|].
  unfold path_is_dir, resolve.
  rewrite (walk_kept fs _ [] p q Hk E).
  by rewrite node_at_insert_eq.
Qed.

Lemma exist_ok_case fs p (e : OsError) exist_ok fs' :
  (if negb exist_ok || negb (path_is_dir fs p)
   then inl (e, fs) else inr fs) = inr fs' →
  dirs_kept fs fs' ∧ path_is_dir fs' p = true.
Proof.
  destruct (negb exist_ok || negb (path_is_dir fs p)) eqn:B; [done|].
  intros [= <-]. apply orb_false_iff in B as [_ B].
  apply negb_false_iff in B. split; [apply dirs_kept_refl | done].
Qed.

(** When [mkdir] succeeds the path is a directory, and no directory
    was lost. *)
Lemma path_mkdir_rec_ok depth fs p parents exist_ok fs' :
  path_mkdir_rec depth fs p parents exist_ok = inr fs' →
  dirs_kept fs fs' ∧ path_is_dir fs' p = true.
Proof.
  revert fs p parents exist_ok fs'.
  induction depth as [|depth IH]; intros fs p parents exist_ok fs'; simpl.
  - destruct (os_mkdir fs p) as [e|fs1] eqn:E.
    + destruct e; try apply exist_ok_case.
      by destruct (negb parents || bool_decide (parent p = p)).
    + intros [= <-]. by apply os_mkdir_ok.
  - destruct (os_mkdir fs p) as [e|fs1] eqn:E.
    + destruct e; try apply exist_ok_case.
      destruct (negb parents || bool_decide (parent p = p)); [done|].
      destruct (path_mkdir_rec depth fs (parent p) true true)
        as [e1|fs1] eqn:E1; [done|].
      intros H2. destruct (IH _ _ _ _ _ E1) as [K1 _].
      destruct (IH _ _ _ _ _ H2) as [K2 D2].
      split; [by eapply dirs_kept_trans | done].
    + intros [= <-]. by apply os_mkdir_ok.
Qed.



End Sanitization.

(* ===================================================================== *)
(** * The collision loop finds a name                                    *)
(* ===================================================================== *)

Section CollisionLoop.
Import Upload.

Implicit Types (fs : gmap (list string) Node) (d p q : list string).

Lemma free_of_app c a b :
  free_of c (a +:+ b) = free_of c a && free_of c b.
Proof.
  induction a as [|x a IH]; simpl; [done|].
  by rewrite IH, andb_assoc.
Qed.

Lemma free_of_substring c s i n :
  free_of c s = true → free_of c (substring i n s) = true.
Proof.
  revert i n. induction s as [|x s IH]; intros i n H.
  - by destruct i, n.
  - simpl in H. apply andb_true_iff in H as [Hx Hs].
    destruct i as [|i]; [destruct n as [|n]|]; simpl; [done| |by apply IH].
    by rewrite Hx, IH.
Qed.

Lemma split_on_free sep s : free_of sep s = true → split_on sep s = [s].
Proof.
  induction s as [|x s IH]; simpl; [done|].
  intros [Hx Hs]%andb_true_iff. apply negb_true_iff in Hx.
  by rewrite Hx, IH.
Qed.

Lemma split_on_all_free sep s :
  Forall (λ w, free_of sep w = true) (split_on sep s).
Proof.
  induction s as [|x s IH]; simpl; [by repeat constructor|].
  destruct (Ascii.eqb x sep) eqn:E; [by constructor|].
  destruct (split_on sep s) as [|w ws].
  - constructor; [simpl; by rewrite E | constructor].
  - inversion IH; subst. constructor; [|done]. simpl. by rewrite E.
Qed.

Lemma parts_all_free s : Forall (λ w, free_of "/" w = true) (parts s).
Proof.
  unfold parts. apply Forall_forall. intros w Hw%list_elem_of_In.
  apply filter_In in Hw as [Hw%list_elem_of_In _].
  pose proof (split_on_all_free "/" s) as H.
  rewrite Forall_forall in H. by apply H.
Qed.

(** Decimal digits only. *)
Lemma pretty_N_go_free x s :
  free_of "/" s = true → free_of "/" (pretty_N_go x s) = true.
Proof.
  revert s. induction (N.lt_wf_0 x) as [x _ IH]; intros s Hs.
  destruct (decide (x = 0)%N) as [->|Hx]; [by rewrite pretty_N_go_0|].
  rewrite pretty_N_go_step by lia. apply IH.
  - apply N.div_lt; lia.
  - simpl. rewrite Hs, andb_true_r.
    assert (Hm : (x `mod` 10 < 10)%N) by (apply N.mod_lt; lia).
    destruct (x `mod` 10)%N as [|[[[|[]|]|[[]|[]|]|]|[[|[]|]|[[]|[]|]|]|]];
      try done; lia.
Qed.

Lemma pretty_nat_free (n : nat) : free_of "/" (pretty n) = true.
Proof.
  unfold pretty, pretty_nat, pretty, pretty_N.
  case_decide; [done|]. by apply pretty_N_go_free.
Qed.

Lemma candidate_free base ext k :
  free_of "/" base = true → free_of "/" ext = true →
  free_of "/" (candidate base ext k) = true.
Proof.
  intros Hb He. unfold candidate.
  by rewrite !free_of_app, Hb, He, pretty_nat_free.
Qed.

Lemma candidate_has_underscore base ext k :
  free_of "_" (candidate base ext k) = false.
Proof.
  unfold candidate. rewrite !free_of_app. simpl. apply andb_false_r.
Qed.

Lemma free_not_absolute s : free_of "/" s = true → is_absolute s = false.
Proof.
  destruct s as [|c s]; [done|]. simpl.
  intros [Hc _]%andb_true_iff. apply negb_true_iff in Hc.
  by apply is_absolute_head.
Qed.

(** Every candidate is one plain path component. *)
Lemma candidate_simple base ext k :
  free_of "/" base = true → free_of "/" ext = true →
  simple_name (candidate base ext k) = true.
Proof.
  intros Hb He. pose proof (candidate_free base ext k Hb He) as Hfree.
  pose proof (candidate_has_underscore base ext k) as Hu.
  apply simple_name_spec. split; [by apply free_not_absolute|].
  assert (Hne : ∀ s, free_of "_" s = true → candidate base ext k ≠ s).
  { intros s Hs E. rewrite E in Hu. congruence. }
  split; [|by apply Hne].
  unfold parts. rewrite split_on_free by done. simpl.
  rewrite (proj2 (String.eqb_neq _ "")), (proj2 (String.eqb_neq _ "."));
    [done | by apply Hne | by apply Hne].
Qed.

Lemma string_length_app a b :
  String.length (a +:+ b) = (String.length a + String.length b)%nat.
Proof. induction a as [|x a IH]; simpl; [done | by rewrite IH]. Qed.

Lemma string_app_inj_r a b e : a +:+ e = b +:+ e → a = b.
Proof.
  intros H.
  assert (Hlen : String.length a = String.length b).
  { apply (f_equal String.length) in H. rewrite !string_length_app in H. lia. }
  revert b H Hlen. induction a as [|x a IH]; intros [|y b] H Hlen;
    simpl in *; try done.
  injection H as -> H. f_equal. apply IH; [done | lia].
Qed.

Lemma candidate_inj base ext j k :
  candidate base ext j = candidate base ext k → j = k.
Proof.
  unfold candidate. intros H.
  apply String.app_inj in H. apply (String.app_inj "_") in H.
  apply string_app_inj_r in H. by apply (inj pretty) in H.
Qed.

Lemma walk_snoc fs cur todo n :
  walk fs cur (todo ++ [n]) =
    match walk fs cur todo with
    | inl e => inl e
    | inr q => walk fs q [n]
    end.
Proof.
  revert cur. induction todo as [|c rest IH]; intros cur; simpl; [done|].
  destruct (node_at fs cur) as [[|data]|]; first [done | apply IH].
Qed.

(** A plain child that exists is an entry of the file system, below
    the place its directory resolves to. *)
Lemma path_exists_child_entry fs d n :
  n ≠ ".." → path_exists fs (d ++ [n]) = true →
  ∃ q, resolve fs d = inr q ∧ is_Some (fs !! (q ++ [n])).
Proof.
  intros Hn. unfold path_exists, resolve. rewrite walk_snoc.
  destruct (walk fs [] d) as [e|q]; [done|]. simpl.
  destruct (node_at fs q) as [[|data]|]; try done.
  apply String.eqb_neq in Hn. rewrite Hn, node_at_snoc.
  destruct (fs !! (q ++ [n])) eqn:E; [|done]. intros _. exists q. eauto.
Qed.

(** More distinct entries than the file system has cannot all exist. *)
Lemma entries_bounded fs (l : list (list string)) :
  NoDup l → (∀ x, x ∈ l → is_Some (fs !! x)) → (length l ≤ size fs)%nat.
Proof.
  intros Hnd Hin.
  rewrite <- (size_list_to_set (C:=gset (list string)) l Hnd).
  rewrite <- (size_dom (D:=gset (list string)) fs).
  apply subseteq_size. intros x Hx%elem_of_list_to_set.
  apply elem_of_dom. by apply Hin.
Qed.

(** The candidates are pairwise different plain names, so one more of
    them than the file system has entries is enough: the loop always
    finds a name. *)
Lemma unique_path_total fs ud base ext c :
  free_of "/" base = true → free_of "/" ext = true →
  is_Some (unique_path (S (size fs)) fs ud base ext c).
Proof.
  intros Hb He.
  destruct (unique_path (S (size fs)) fs ud base ext c) as [p|] eqn:E;
    [by eexists|].
  exfalso.
  pose proof (unique_path_exhausted _ _ _ _ _ _ E) as Hall.
  assert (Hkey : ∀ j, (c ≤ j < c + S (size fs))%nat →
            ∃ q, resolve fs ud = inr q ∧
                 is_Some (fs !! (q ++ [candidate base ext j]))).
  { intros j Hj. specialize (Hall j Hj).
    pose proof (candidate_simple base ext j Hb He) as Hs.
    fold (candidate base ext j) in Hall.
    rewrite (simple_name_joinpath _ _ Hs) in Hall.
    apply simple_name_spec in Hs as (_ & _ & Hn).
    by apply path_exists_child_entry. }
  destruct (Hkey c ltac:(lia)) as (q & Hq & _).
  set (f := λ j : nat, q ++ [candidate base ext j]).
  assert (Hinj : Inj (=) (=) f).
  { intros j k Hjk. unfold f in Hjk. apply app_inv_head in Hjk.
    injection Hjk as Hjk. by apply candidate_inj in Hjk. }
  pose proof (entries_bounded fs (f <$> seq c (S (size fs)))) as Hbound.
  rewrite length_fmap, length_seq in Hbound.
  assert (S (size fs) ≤ size fs)%nat; [|lia].
  apply Hbound.
  - apply NoDup_fmap_2; [done | apply NoDup_seq].
  - intros x (j & -> & Hj%elem_of_seq)%list_elem_of_fmap.
    destruct (Hkey j ltac:(lia)) as (q' & Hq' & Hsome).
    rewrite Hq in Hq'. injection Hq' as <-. exact Hsome.
Qed.

Lemma name_free p :
  Forall (λ w, free_of "/" w = true) p → free_of "/" (name p) = true.
Proof.
  unfold name. induction 1 as [|w ws Hw Hws IH]; [done|].
  destruct ws as [|w' ws]; [done | exact IH].
Qed.

Lemma stem_free p :
  Forall (λ w, free_of "/" w = true) p → free_of "/" (stem p) = true.
Proof.
  intros H%name_free. unfold stem.
  destruct (rfind "." (name p)) as [i|]; [|done].
  destruct ((0 <? i)%nat && (i <? String.length (name p) - 1)%nat); [|done].
  by apply free_of_substring.
Qed.

Lemma suffix_free p :
  Forall (λ w, free_of "/" w = true) p → free_of "/" (suffix p) = true.
Proof.
  intros H%name_free. unfold suffix.
  destruct (rfind "." (name p)) as [i|]; [|done].
  destruct ((0 <? i)%nat && (i <? String.length (name p) - 1)%nat); [|done].
  by apply free_of_substring.
Qed.

Lemma joinpath_free base s :
  Forall (λ w, free_of "/" w = true) base →
  Forall (λ w, free_of "/" w = true) (joinpath base s).
Proof.
  intros Hb. unfold joinpath. destruct (is_absolute s).
  - apply parts_all_free.
  - apply Forall_app. split; [done | apply parts_all_free].
Qed.

(** With a workspace path made of proper components, the endpoint
    never gives up on the collision loop. *)
Lemma upload_finds_a_name cfg req fs :
  Forall (λ w, free_of "/" w = true) (workspace cfg) →
  (upload_file_endpoint cfg req fs).1 ≠ server_error "no unique name".
Proof.
  intros Hw. unfold upload_file_endpoint.
  destruct (r_session_id req) as [session_id|]; [|done].
  destruct (String.eqb session_id ""); [done|].
  destruct (r_file req) as [file_info|]; [|done].
  destruct (negb (path_exists fs (joinpath (workspace cfg) session_id)));
    [done|].
  set (upload_dir := joinpath (joinpath (workspace cfg) session_id)
                       (UPLOAD_FOLDER_NAME cfg)).
  assert (Hud : Forall (λ w, free_of "/" w = true) upload_dir).
  { by apply joinpath_free, joinpath_free. }
  destruct (path_mkdir fs upload_dir) as [[e ?]|fs1]; [by destruct e|].
  destruct (String.eqb (fi_path file_info) ""); [done|].
  set (file_path := if is_absolute (fi_path file_info)
                    then name (parts (fi_path file_info))
                    else fi_path file_info).
  set (original_path := joinpath upload_dir file_path).
  assert (Hop : Forall (λ w, free_of "/" w = true) original_path).
  { by apply joinpath_free. }
  destruct (path_exists fs1 original_path).
  - destruct (unique_path_total fs1 upload_dir (stem original_path)
                (suffix original_path) 1 (stem_free _ Hop) (suffix_free _ Hop))
      as [full_path ->].
    destruct (path_mkdir fs1 (parent full_path)) as [[e ?]|fs2]; [by destruct e|].
    destruct (decode_content cfg (fi_content file_info)); [|done].
    destruct (write_file fs2 full_path f) as [e|fs3]; [by destruct e | done].
  - destruct (path_mkdir fs1 (parent original_path)) as [[e ?]|fs2];
      [by destruct e|].
    destruct (decode_content cfg (fi_content file_info)); [|done].
    destruct (write_file fs2 original_path f) as [e|fs3];
      [by destruct e | done].
Qed.

End CollisionLoop.


(* ===================================================================== *)
(** * More properties of the session and event store                     *)
(* ===================================================================== *)

Section StoreLookups.

Lemma find_query_selected sid f e :
  find_query sid f e = true ↔ selected sid f e.
Proof.
  unfold find_query, selected.
  rewrite andb_true_iff, bool_decide_eq_true.
  split.
  - intros [Hs Hf]. split; [done|]. intros t -> Hne.
    rewrite bool_decide_eq_false_2 in Hf by done.
    by apply bool_decide_eq_true in Hf.
  - intros [Hs Hf]. split; [done|].
    destruct f as [t|]; [|done].
    destruct (bool_decide (t = "")) eqn:E; [done|].
    apply bool_decide_eq_false in E. apply bool_decide_eq_true. by apply Hf.
Qed.

Lemma before_total o a b : before o a b = false → before o b a = true.
Proof. destruct o; simpl; lia. Qed.

Lemma before_trans o a b c :
  before o a b = true → before o b c = true → before o a c = true.
Proof. destruct o; simpl; lia. Qed.

Lemma before_refl o a : before o a a = true.
Proof. destruct o; simpl; lia. Qed.

Lemma insert_sorted_in_order o x l :
  in_order o l → in_order o (insert_sorted o x l).
Proof.
  unfold in_order. induction 1 as [|y l Hs IH Hall]; simpl.
  - repeat constructor.
  - destruct (before o x y) eqn:E.
    + constructor; [by constructor|]. constructor; [done|].
      eapply Forall_impl; [exact Hall|]. simpl.
      intros z Hz. by eapply before_trans.
    + apply before_total in E. constructor; [done|].
      rewrite insert_sorted_perm. by constructor.
Qed.

Lemma sort_by_timestamp_in_order o l : in_order o (sort_by_timestamp o l).
Proof.
  induction l as [|x l IH]; simpl; [constructor|].
  by apply insert_sorted_in_order.
Qed.

Lemma in_order_take o n l : in_order o l → in_order o (take n l).
Proof.
  unfold in_order. intros H. revert n.
  induction H as [|x l Hs IH Hall]; intros [|n]; simpl; try constructor.
  - apply IH.
  - by apply Forall_take.
Qed.

Lemma elem_of_list_filter_bool {A} (P : A → bool) l x :
  x ∈ List.filter P l ↔ x ∈ l ∧ P x = true.
Proof. rewrite !list_elem_of_In. apply filter_In. Qed.

(** The query without limit. *)
Lemma query_unlimited db sid limit o f :
  limit ≤ 0 →
  get_events_for_session db sid limit o f =
    sort_by_timestamp o (List.filter (find_query sid f) (events_collection db)).
Proof.
  intros H. unfold get_events_for_session.
  destruct (0 <? limit) eqn:E; [lia | done].
Qed.

Lemma query_limited db sid limit o f :
  get_events_for_session db sid limit o f =
    if 0 <? limit
    then take (Z.to_nat limit) (get_events_for_session db sid 0 o f)
    else get_events_for_session db sid 0 o f.
Proof. reflexivity. Qed.

Lemma query_elem_of db sid o f e :
  e ∈ get_events_for_session db sid 0 o f ↔
  e ∈ events_collection db ∧ selected sid f e.
Proof.
  rewrite query_unlimited by lia. rewrite sort_by_timestamp_perm.
  rewrite elem_of_list_filter_bool. by rewrite find_query_selected.
Qed.

Lemma insert_by_created_at_perm o x l :
  Permutation (insert_by_created_at o x l) (x :: l).
Proof.
  induction l as [|y l IH]; simpl; [done|].
  destruct (created_before o x y); [done|].
  rewrite IH. apply perm_swap.
Qed.

Lemma sort_by_created_at_perm o l : Permutation (sort_by_created_at o l) l.
Proof.
  induction l as [|x l IH]; simpl; [done|].
  rewrite insert_by_created_at_perm. by constructor.
Qed.

Lemma insert_by_created_at_newest_first x l :
  newest_first l → newest_first (insert_by_created_at DESCENDING x l).
Proof.
  unfold newest_first. induction 1 as [|y l Hs IH Hall]; simpl.
  - repeat constructor.
  - destruct (s_created_at y.2 <=? s_created_at x.2) eqn:E.
    + apply Z.leb_le in E. constructor; [by constructor|].
      constructor; [done|].
      eapply Forall_impl; [exact Hall|]. simpl. intros; lia.
    + apply Z.leb_gt in E. constructor; [done|].
      rewrite insert_by_created_at_perm. constructor; [lia | done].
Qed.

Lemma sort_by_created_at_newest_first l :
  newest_first (sort_by_created_at DESCENDING l).
Proof.
  induction l as [|x l IH]; simpl; [constructor|].
  by apply insert_by_created_at_newest_first.
Qed.

Lemma sessions_by_device_perm db device :
  Permutation (get_sessions_by_device_id db device)
    (List.filter (λ kv, bool_decide (s_device_id kv.2 = Some device))
       (map_to_list (sessions_collection db))).
Proof. apply sort_by_created_at_perm. Qed.

Lemma sessions_by_device_elem_of db device k doc :
  (k, doc) ∈ get_sessions_by_device_id db device ↔
  sessions_collection db !! k = Some doc ∧ s_device_id doc = Some device.
Proof.
  rewrite sessions_by_device_perm, elem_of_list_filter_bool.
  rewrite elem_of_map_to_list. simpl. by rewrite bool_decide_eq_true.
Qed.

Lemma NoDup_fst_filter {A B} (P : A * B → bool) (l : list (A * B)) :
  NoDup l.*1 → NoDup (List.filter P l).*1.
Proof.
  induction l as [|x l IH]; simpl; [done|].
  rewrite NoDup_cons. intros [Hx Hl].
  destruct (P x); simpl; [|by apply IH].
  apply NoDup_cons. split; [|by apply IH].
  intros Hin. apply Hx.
  apply list_elem_of_fmap in Hin as (y & -> & Hy).
  apply list_elem_of_fmap. exists y. split; [done|].
  by apply elem_of_list_filter_bool in Hy as [Hy _].
Qed.

Lemma query_limit_one :
  ∀ (db : Database) (sid : string) (o : SortOrder) (f : option string),
    match get_events_for_session db sid 1 o f with
    | [] => ∀ e, e ∈ events_collection db → ¬ selected sid f e
    | e :: rest =>
        rest = [] ∧ e ∈ events_collection db ∧ selected sid f e ∧
        ∀ e', e' ∈ events_collection db → selected sid f e' →
              match o with
              | ASCENDING => e_timestamp e ≤ e_timestamp e'
              | DESCENDING => e_timestamp e' ≤ e_timestamp e
              end
    end.
Proof.
  intros db sid o f. rewrite query_limited. simpl.
  pose proof (query_elem_of db sid o f) as Hin.
  assert (Hord : in_order o (get_events_for_session db sid 0 o f)).
  { rewrite query_unlimited by lia. apply sort_by_timestamp_in_order. }
  destruct (get_events_for_session db sid 0 o f) as [|e l]; simpl.
  - intros e He Hsel. by apply (elem_of_nil e), Hin.
  - split; [by rewrite take_0|].
    destruct (proj1 (Hin e) (list_elem_of_here _ _)) as [He Hsel].
    split_and!; try done.
    intros e' He' Hsel'.
    assert (Hb : before o e e' = true).
    { apply StronglySorted_inv in Hord as [_ Hall].
      rewrite Forall_forall in Hall.
      pose proof (proj2 (Hin e') (conj He' Hsel')) as Hx.
      apply elem_of_cons in Hx as [->|Htl].
      - apply before_refl.
      - by apply Hall. }
    destruct o; simpl in Hb; lia.
Qed.

End StoreLookups.

(** X1: whatever the store held before, after
    [create_session(id, uuid, dir, u, d)] the pair [(u, d)] has exactly
    one active session document, the one with [_id = id], and it
    carries the workspace uuid, the workspace directory and the
    activation time of this call. *)
Theorem create_session_sole_active :
  ∀ (now : Z) (id uuid dir u : string) (d : option string) (db : Database),
    ∃ doc,
      active_sessions u d (create_session now id uuid dir u d db)
        = {[ id := doc ]} ∧
      s_workspace_session_uuid doc = uuid ∧
      s_workspace_dir doc = dir ∧
      s_last_activated_at doc = now.
Proof.
  intros now id uuid dir u d db.
  set (m1 := update_many_deactivate now u d (sessions_collection db)).
  destruct (lookup_upsert_eq now id uuid dir u d m1)
    as (doc & Hd & Hu & Hdev & Hact & Huuid & Hdir & Hnow).
  exists doc. split; [|done].
  unfold active_sessions, create_session. simpl. fold m1.
  apply map_eq. intros k.
  destruct (decide (id = k)) as [<-|Hne].
  - rewrite lookup_singleton_eq. apply map_lookup_filter_Some.
    split; [done|]. simpl. apply matches_active_spec. done.
  - rewrite lookup_singleton_ne by done.
    apply map_lookup_filter_None. right. intros doc' Hk. simpl.
    rewrite lookup_upsert_ne in Hk by done.
    apply update_many_none_active in Hk. congruence.
Qed.

(** X2: looking a session up by id right after [create_session]
    returns the document just written. A new id gets
    [created_at = now] and no [deactivated_at]; an id that was already
    in the store keeps its [created_at], and keeps a [deactivated_at]
    stamp - the one it had, or [now] if the document was the active
    one of the pair, because the first phase deactivates it before the
    upsert switches it on again. *)
Theorem create_session_then_get_session_by_id :
  ∀ (now : Z) (id uuid dir u : string) (d : option string) (db : Database),
    get_session_by_id (create_session now id uuid dir u d db) id =
      Some (id,
            match sessions_collection db !! id with
            | None => mkSession u d uuid dir true now now None
            | Some old =>
                mkSession u d uuid dir true now (s_created_at old)
                  (if matches_active u d old then Some now
                   else s_deactivated_at old)
            end).
Proof.
  intros now id uuid dir u d db.
  unfold get_session_by_id, create_session, upsert_session. simpl.
  rewrite lookup_update_many.
  destruct (sessions_collection db !! id) as [old|]; simpl;
    rewrite lookup_insert_eq; simpl; [|done].
  by destruct (matches_active u d old).
Qed.

(** X3: [create_session] never deletes a document and never touches the
    events. A document with another [_id] is left exactly as it was,
    unless it was an active document of the same pair: then it is
    switched off and stamped with the time of the call. *)
Theorem create_session_other_documents :
  ∀ (now : Z) (id uuid dir u : string) (d : option string) (db : Database)
    (k : string),
    k ≠ id →
    let db' := create_session now id uuid dir u d db in
    events_collection db' = events_collection db ∧
    match sessions_collection db !! k with
    | None => sessions_collection db' !! k = None
    | Some old =>
        sessions_collection db' !! k =
          Some (if matches_active u d old then set_deactivated now old
                else old)
    end.
Proof.
  intros now id uuid dir u d db k Hne db'. split; [done|].
  unfold db', create_session. simpl.
  rewrite lookup_upsert_ne by done. rewrite lookup_update_many.
  by destruct (sessions_collection db !! k).
Qed.

Lemma create_session_other_documents_witness :
  let db := create_session 1 "u1_dev1" "uuid-1" "/ws/uuid-1" "u1" (Some "dev1")
              empty_db in
  let db' := create_session 2 "u1_x" "uuid-2" "/ws/uuid-2" "u1" (Some "dev1")
               db in
  events_collection db' = events_collection db ∧
  match sessions_collection db !! "u1_dev1" with
  | None => sessions_collection db' !! "u1_dev1" = None
  | Some old =>
      sessions_collection db' !! "u1_dev1" =
        Some (if matches_active "u1" (Some "dev1") old
              then set_deactivated 2 old else old)
  end.
Proof.
  intros db db'.
  apply (create_session_other_documents 2 "u1_x" "uuid-2" "/ws/uuid-2" "u1"
           (Some "dev1") db "u1_dev1").
  discriminate.
Defined.

(** X4: [get_events_for_session], for every limit, order and type
    filter: the result is sorted by timestamp in the requested order;
    every event in it is stored, belongs to the session and has the
    requested type (an empty filter string counts as no filter); a
    positive limit bounds the length, and the limited result is the
    beginning of the unlimited one; with a limit of zero or less the
    result holds every matching event exactly once. *)
Theorem get_events_for_session_spec :
  ∀ (db : Database) (sid : string) (limit : Z) (o : SortOrder)
    (f : option string),
    let r := get_events_for_session db sid limit o f in
    in_order o r ∧
    (∀ e, e ∈ r → e ∈ events_collection db ∧ selected sid f e) ∧
    (0 < limit →
       (length r ≤ Z.to_nat limit)%nat ∧
       r = take (Z.to_nat limit) (get_events_for_session db sid 0 o f)) ∧
    (limit ≤ 0 →
       Permutation r
         (List.filter (find_query sid f) (events_collection db))).
Proof.
  intros db sid limit o f r.
  assert (Hr : r = if 0 <? limit
                   then take (Z.to_nat limit) (get_events_for_session db sid 0 o f)
                   else get_events_for_session db sid 0 o f) by reflexivity.
  assert (Hall : in_order o (get_events_for_session db sid 0 o f)).
  { rewrite query_unlimited by lia. apply sort_by_timestamp_in_order. }
  split_and!.
  - rewrite Hr. destruct (0 <? limit); [by apply in_order_take | done].
  - intros e He. apply query_elem_of with (o := o). rewrite Hr in He.
    destruct (0 <? limit); [|done].
    apply elem_of_take in He as (i & He & _).
    by apply list_elem_of_lookup_2 in He.
  - intros Hpos. rewrite Hr.
    destruct (0 <? limit) eqn:E; [|lia].
    split; [|done]. rewrite length_take. lia.
  - intros Hle. unfold r. rewrite query_unlimited by done.
    apply sort_by_timestamp_perm.
Qed.

(** X5: asked for one event ([limit = 1]), the query returns the first
    matching event in the requested order - the earliest one when
    ascending (this is how the sessions handler finds a session's first
    user message), the latest one when descending - and it returns
    nothing only if no stored event matches. *)
Theorem get_events_for_session_first :
  ∀ (db : Database) (sid : string) (o : SortOrder) (f : option string),
    match get_events_for_session db sid 1 o f with
    | [] => ∀ e, e ∈ events_collection db → ¬ selected sid f e
    | e :: rest =>
        rest = [] ∧ e ∈ events_collection db ∧ selected sid f e ∧
        ∀ e', e' ∈ events_collection db → selected sid f e' →
              match o with
              | ASCENDING => e_timestamp e ≤ e_timestamp e'
              | DESCENDING => e_timestamp e' ≤ e_timestamp e
              end
    end.
Proof. exact query_limit_one. Qed.

(** X6: [save_event] appends one document whose id is new for the
    collection and leaves the sessions alone. A later query for the
    event's session (no limit, no type filter) returns the event
    together with what it returned before; every query whose filter
    the event does not pass returns exactly what it returned before. *)
Theorem save_event_then_query :
  ∀ (now : Z) (sid u : string) (d : option string) (ty payload : string)
    (db : Database),
    let r := save_event now sid u d ty payload db in
    let e := mkEvent r.1 sid u d now ty payload in
    r.1 = length (events_collection db) ∧
    sessions_collection r.2 = sessions_collection db ∧
    (∀ o, Permutation (get_events_for_session r.2 sid 0 o None)
            (e :: get_events_for_session db sid 0 o None)) ∧
    (∀ sid' limit o f,
       ¬ selected sid' f e →
       get_events_for_session r.2 sid' limit o f
         = get_events_for_session db sid' limit o f).
Proof.
  intros now sid u d ty payload db r e. split_and!; try done.
  - intros o. rewrite !query_unlimited by lia. rewrite !sort_by_timestamp_perm.
    unfold r, save_event. simpl. rewrite List.filter_app. simpl.
    unfold find_query at 2. simpl.
    rewrite bool_decide_eq_true_2 by done. simpl.
    by rewrite <- Permutation_cons_append.
  - intros sid' limit o f Hns. unfold get_events_for_session.
    unfold r, save_event. simpl. rewrite List.filter_app. simpl.
    destruct (find_query sid' f _) eqn:E.
    + apply find_query_selected in E. by destruct Hns.
    + by rewrite app_nil_r.
Qed.

(** X7: [get_sessions_by_device_id] returns exactly the session
    documents whose [device_id] is the given one, each once, newest
    [created_at] first. *)
Theorem get_sessions_by_device_id_spec :
  ∀ (db : Database) (device : string),
    let r := get_sessions_by_device_id db device in
    newest_first r ∧
    NoDup r.*1 ∧
    ∀ k doc, (k, doc) ∈ r ↔
             sessions_collection db !! k = Some doc ∧
             s_device_id doc = Some device.
Proof.
  intros db device r. split_and!.
  - apply sort_by_created_at_newest_first.
  - unfold r. rewrite sessions_by_device_perm.
    apply NoDup_fst_filter, NoDup_fst_map_to_list.
  - apply sessions_by_device_elem_of.
Qed.

(** X8: [get_session_by_workspace] returns a stored session document
    with the given workspace directory whenever there is one, and
    nothing only when no document has that directory. *)
Theorem get_session_by_workspace_spec :
  ∀ (db : Database) (dir : string),
    match get_session_by_workspace db dir with
    | Some (k, doc) =>
        sessions_collection db !! k = Some doc ∧ s_workspace_dir doc = dir
    | None =>
        ∀ k doc, sessions_collection db !! k = Some doc →
                 s_workspace_dir doc ≠ dir
    end.
Proof.
  intros db dir. unfold get_session_by_workspace, find_one.
  destruct (head _) as [[k doc]|] eqn:E.
  - apply head_Some_elem_of, elem_of_list_filter_bool in E as [Hin Hp].
    apply elem_of_map_to_list in Hin. simpl in Hp.
    by apply bool_decide_eq_true in Hp.
  - apply head_None in E. intros k doc Hk Hdir.
    assert (Hin : (k, doc) ∈ List.filter
              (λ kv : string * SessionDoc,
                 bool_decide (s_workspace_dir kv.2 = dir))
              (map_to_list (sessions_collection db))).
    { apply elem_of_list_filter_bool. split.
      - by apply elem_of_map_to_list.
      - simpl. by apply bool_decide_eq_true. }
    rewrite E in Hin. by apply elem_of_nil in Hin.
Qed.

(* ===================================================================== *)
(** * Properties of the sessions handler                                 *)
(* ===================================================================== *)

Section SessionsHandler.

Variable content_text : string → string.

Lemma first_message_spec db sid :
  first_user_message content_text db sid (Rest.first_message content_text db sid).
Proof.
  unfold Rest.first_message, first_user_message.
  pose proof (query_limit_one db sid ASCENDING (Some Rest.USER_MESSAGE_value)) as H.
  destruct (get_events_for_session db sid 1 ASCENDING _) as [|e rest].
  - by left.
  - right. destruct H as (_ & He & Hsel & Hmin). by exists e.
Qed.

Lemma newest_first_json db l :
  newest_first l →
  StronglySorted (λ a b, Rest.sj_created_at b ≤ Rest.sj_created_at a)
    (map (Rest.session_json content_text db) l).
Proof.
  unfold newest_first. induction 1 as [|x l Hs IH Hall]; simpl; constructor.
  - done.
  - apply Forall_fmap. eapply Forall_impl; [exact Hall|]. done.
Qed.

Lemma sessions_handler_ok db device :
  Rest.get_sessions_by_device_id content_text db device =
    Rest.Ok (map (Rest.session_json content_text db)
               (get_sessions_by_device_id db device)).
Proof. reflexivity. Qed.

End SessionsHandler.

(** X10: the sessions handler answers with a list, never with an error
    of its own. The list holds one entry for each session document of
    the device and no other, newest [created_at] first; an entry
    repeats the document's fields, and its [first_message] is the text
    of an earliest user message stored for that session, or the empty
    string if there is none. *)
Theorem sessions_handler_lists_device_sessions :
  ∀ (content_text : string → string) (db : Database) (device : string),
    ∃ l,
      Rest.get_sessions_by_device_id content_text db device = Rest.Ok l ∧
      StronglySorted (λ a b, Rest.sj_created_at b ≤ Rest.sj_created_at a) l ∧
      NoDup (Rest.sj_id <$> l) ∧
      (∀ k doc,
         sessions_collection db !! k = Some doc →
         s_device_id doc = Some device →
         Rest.session_json content_text db (k, doc) ∈ l) ∧
      (∀ j, j ∈ l →
         ∃ doc,
           sessions_collection db !! Rest.sj_id j = Some doc ∧
           s_device_id doc = Some device ∧
           Rest.sj_device_id j = Some device ∧
           Rest.sj_user_id j = s_user_id doc ∧
           Rest.sj_workspace_dir j = s_workspace_dir doc ∧
           Rest.sj_workspace_session_uuid j = s_workspace_session_uuid doc ∧
           Rest.sj_created_at j = s_created_at doc ∧
           Rest.sj_last_activated_at j = s_last_activated_at doc ∧
           Rest.sj_is_active j = s_is_active doc ∧
           first_user_message content_text db (Rest.sj_id j)
             (Rest.sj_first_message j)).
Proof.
  intros content_text db device. eexists.
  split; [apply sessions_handler_ok|]. split_and!.
  - apply newest_first_json, sort_by_created_at_newest_first.
  - rewrite <- list_fmap_compose.
    assert (Heq : Rest.sj_id ∘ Rest.session_json content_text db = fst)
      by done.
    rewrite Heq, sessions_by_device_perm.
    apply NoDup_fst_filter, NoDup_fst_map_to_list.
  - intros k doc Hk Hd. apply list_elem_of_fmap. exists (k, doc).
    split; [done|]. by apply sessions_by_device_elem_of.
  - intros j Hj. apply list_elem_of_fmap in Hj as ([k doc] & -> & Hin).
    apply sessions_by_device_elem_of in Hin as [Hk Hd].
    exists doc. simpl. split_and!; try done.
    apply first_message_spec.
Qed.

(** X11: when the store keeps at most one active session per
    (user, device) pair - which [create_session] guarantees - the
    sessions handler shows at most one active entry per user in the
    list of a device. *)
Theorem sessions_handler_one_active_per_user :
  ∀ (content_text : string → string) (db : Database) (device : string)
    (l : list Rest.SessionJson) (j1 j2 : Rest.SessionJson),
    one_active_invariant db →
    Rest.get_sessions_by_device_id content_text db device = Rest.Ok l →
    j1 ∈ l → j2 ∈ l →
    Rest.sj_user_id j1 = Rest.sj_user_id j2 →
    Rest.sj_is_active j1 = true → Rest.sj_is_active j2 = true →
    j1 = j2.
Proof.
  intros content_text db device l j1 j2 Hinv Hok H1 H2 Hu A1 A2.
  rewrite sessions_handler_ok in Hok. injection Hok as <-.
  apply list_elem_of_fmap in H1 as ([k1 d1] & -> & Hin1).
  apply list_elem_of_fmap in H2 as ([k2 d2] & -> & Hin2).
  apply sessions_by_device_elem_of in Hin1 as [Hk1 Hd1].
  apply sessions_by_device_elem_of in Hin2 as [Hk2 Hd2].
  simpl in *.
  assert (k1 = k2) as <-.
  { apply (Hinv (s_user_id d1) (Some device) k1 k2 d1 d2 Hk1 Hk2);
      apply matches_active_spec; split_and!; congruence. }
  congruence.
Qed.

Lemma sessions_handler_one_active_per_user_witness :
  let db := run_calls
              [mkCall 1 "u1_dev1" "uuid-1" "/ws/uuid-1" "u1" (Some "dev1");
               mkCall 2 "u1_x" "uuid-2" "/ws/uuid-2" "u1" (Some "dev1")]
              empty_db in
  let j := Rest.mkSessionJson "u1_x" "/ws/uuid-2" 2 2 (Some "dev1") "u1" true
             "uuid-2" "" in
  Rest.get_sessions_by_device_id (λ p, p) db "dev1" =
    Rest.Ok [j; Rest.mkSessionJson "u1_dev1" "/ws/uuid-1" 1 1 (Some "dev1")
                  "u1" false "uuid-1" ""] ∧
  j = j.
Proof.
  intros db j. split; [reflexivity|].
  apply (sessions_handler_one_active_per_user (λ p, p) db "dev1"
           [j; Rest.mkSessionJson "u1_dev1" "/ws/uuid-1" 1 1 (Some "dev1")
                 "u1" false "uuid-1" ""] j j).
  - apply run_calls_preserves, empty_db_invariant.
  - reflexivity.
  - apply list_elem_of_here.
  - apply list_elem_of_here.
  - reflexivity.
  - reflexivity.
  - reflexivity.
Defined.

(* ===================================================================== *)
(** * More properties of the handshake                                   *)
(* ===================================================================== *)

Section HandshakeOutcomes.

Lemma fetch_user_id_some http v :
  fetch_user_id http = Some v ↔
  ∃ st fields,
    http = Response st (JsonObject fields) ∧ 200 ≤ st ≤ 299 ∧
    dict_get "user_id" fields = v ∧ py_truthy v = true.
Proof.
  split.
  - destruct http as [msg|msg|st body]; simpl; try done.
    destruct (is_success st) eqn:E; simpl; [|done].
    destruct body as [| |fields]; try done.
    destruct (py_truthy (dict_get "user_id" fields)) eqn:T; [|done].
    intros [= <-]. exists st, fields. unfold is_success in E.
    split_and!; try done; lia.
  - intros (st & fields & -> & Hst & <- & T). simpl.
    assert (E : is_success st = true) by (unfold is_success; lia).
    by rewrite E, T.
Qed.

Lemma handshake_after_accept ws h env s :
  websocket_endpoint_handshake ws h env s =
    (accept ws ;;
     match fetch_user_id (he_http env) with
     | None =>
         send_json Handler ws (error_event "User authentication failed.") ;;
         close ws ;; mret Returned
     | Some user_id =>
         match h_X_Device_ID h with
         | None =>
             send_json Handler ws
               (error_event "X-Device-ID header is required and was not found.") ;;
             close ws ;; mret Returned
         | Some dev =>
             if String.eqb dev "" then
               send_json Handler ws
                 (error_event "X-Device-ID header is required and was not found.") ;;
               close ws ;; mret Returned
             else
               modify (λ s, set_active_connections
                              ({[ws]} ∪ active_connections s) s) ;;
               try_except
                 (match he_get_client_error env with
                  | Some err => raise (Exception err)
                  | None =>
                      send_json Handler ws
                        (connection_established (he_workspace_root env)) ;;
                      mret (Ready (mkConnCtx ws (py_str user_id) dev
                                     (py_str user_id +:+ "_" +:+ dev)
                                     (he_workspace_session_uuid env)
                                     (Some (he_workspace_root env))))
                  end)
                 (λ _, modify (cleanup_connection ws) ;; mret Returned)
         end
     end) s.
Proof. reflexivity. Qed.

Lemma outbox_trace ws s s' :
  trace s' = trace s → outbox ws s' = outbox ws s.
Proof. unfold outbox. by intros ->. Qed.

Lemma outbox_cancel_requested ws tid s s' :
  trace s' = trace s ++ [CancelRequested tid] → outbox ws s' = outbox ws s.
Proof.
  unfold outbox. intros ->. rewrite omap_app. simpl. by rewrite app_nil_r.
Qed.

Lemma cleanup_outbox ws ws' s :
  outbox ws' (cleanup_connection ws s) = outbox ws' s.
Proof.
  destruct (task_in_flight_cases ws s) as [(tid & Ha & Hd & _)|Hfl].
  - destruct (cleanup_task_in_flight ws tid s Ha Hd) as (_ & _ & Htr).
    by eapply outbox_cancel_requested.
  - destruct (cleanup_no_task_in_flight ws s Hfl) as (_ & _ & Htr).
    by apply outbox_trace.
Qed.

Lemma cleanup_not_closed ws ws' s :
  Closed ws' ∈ trace (cleanup_connection ws s) → Closed ws' ∈ trace s.
Proof.
  destruct (task_in_flight_cases ws s) as [(tid & Ha & Hd & _)|Hfl].
  - destruct (cleanup_task_in_flight ws tid s Ha Hd) as (_ & _ & ->).
    rewrite elem_of_app, list_elem_of_singleton. by intros [|].
  - by destruct (cleanup_no_task_in_flight ws s Hfl) as (_ & _ & ->).
Qed.

End HandshakeOutcomes.

(** X12: [fetch_user_id] returns a user id in exactly one situation:
    the identity service answered with a 2xx status and a JSON object
    whose ["user_id"] entry is truthy; the value returned is that
    entry. A 1xx or 3xx status, an empty string, [null], [0] or
    [false] as user id all count as failure. *)
Theorem fetch_user_id_some_iff :
  ∀ (http : HttpOutcome) (v : PyValue),
    fetch_user_id http = Some v ↔
    ∃ st fields,
      http = Response st (JsonObject fields) ∧ 200 ≤ st ≤ 299 ∧
      dict_get "user_id" fields = v ∧ py_truthy v = true.
Proof. exact fetch_user_id_some. Qed.

(** X13: a handshake with a resolved identity, a non-empty
    [X-Device-ID] header and a working LLM client enters the dispatch
    loop with the composite session id [<user_id>_<device_id>]; the
    socket is accepted and added to [active_connections], exactly one
    event is sent - CONNECTION_ESTABLISHED with the workspace root -
    and no agent, task, processor or store entry is touched. *)
Theorem handshake_success :
  ∀ (ws : nat) (h : Headers) (env : HandshakeEnv) (s : Server)
    (uid : PyValue) (dev : string),
    fetch_user_id (he_http env) = Some uid →
    h_X_Device_ID h = Some dev →
    dev ≠ "" →
    he_get_client_error env = None →
    ∃ s',
      websocket_endpoint_handshake ws h env s =
        (Return (Ready (mkConnCtx ws (py_str uid) dev
                          (py_str uid +:+ "_" +:+ dev)
                          (he_workspace_session_uuid env)
                          (Some (he_workspace_root env)))), s') ∧
      sockets s' = <[ws := CONNECTED]> (sockets s) ∧
      active_connections s' = {[ws]} ∪ active_connections s ∧
      trace s' = trace s ++
        [Sent Handler ws (connection_established (he_workspace_root env))] ∧
      active_agents s' = active_agents s ∧
      active_tasks s' = active_tasks s ∧
      message_processors s' = message_processors s ∧
      agents s' = agents s ∧
      tasks s' = tasks s ∧
      db s' = db s.
Proof.
  intros ws h env s uid dev Hid Hdev Hne Hcl.
  rewrite handshake_after_accept, Hid, Hdev, Hcl.
  apply String.eqb_neq in Hne. rewrite Hne.
  unfold mbind, M_bind, accept, modify, try_except. simpl.
  rewrite send_json_connected by (simpl; apply lookup_insert_eq).
  eexists. split; [reflexivity|]. done.
Qed.

Lemma handshake_success_witness :
  ∃ s',
    websocket_endpoint_handshake 0%nat dev1_headers u1_env initial =
      (Return (Ready cx0), s') ∧
    sockets s' = <[0%nat := CONNECTED]> (sockets initial) ∧
    active_connections s' = {[0%nat]} ∪ active_connections initial ∧
    trace s' = trace initial ++
      [Sent Handler 0%nat (connection_established "/ws/uuid-1")] ∧
    active_agents s' = active_agents initial ∧
    active_tasks s' = active_tasks initial ∧
    message_processors s' = message_processors initial ∧
    agents s' = agents initial ∧
    tasks s' = tasks initial ∧
    db s' = db initial.
Proof.
  apply (handshake_success 0%nat dev1_headers u1_env initial (PyStr "u1")
           "dev1"); try reflexivity.
  discriminate.
Defined.

(** X14: an authenticated client whose [X-Device-ID] header is missing
    or empty is told so and disconnected: the only changes are the
    error event, the close, and the socket's state. The connection is
    never registered. *)
Theorem handshake_without_device_id :
  ∀ (ws : nat) (h : Headers) (env : HandshakeEnv) (s : Server)
    (uid : PyValue),
    fetch_user_id (he_http env) = Some uid →
    h_X_Device_ID h = None ∨ h_X_Device_ID h = Some "" →
    websocket_endpoint_handshake ws h env s =
      (Return Returned,
       emit [Sent Handler ws
               (error_event "X-Device-ID header is required and was not found.");
             Closed ws]
         (set_sockets (<[ws := DISCONNECTED]> (sockets s)) s)).
Proof.
  intros ws h env s uid Hid Hdev.
  rewrite handshake_after_accept, Hid.
  assert (Hgoal :
    (accept ws ;;
     send_json Handler ws
       (error_event "X-Device-ID header is required and was not found.") ;;
     close ws ;; mret Returned) s =
    (Return Returned,
     emit [Sent Handler ws
             (error_event "X-Device-ID header is required and was not found.");
           Closed ws]
       (set_sockets (<[ws := DISCONNECTED]> (sockets s)) s))).
  { unfold mbind, M_bind, accept, modify. simpl.
    rewrite send_json_connected by (simpl; apply lookup_insert_eq).
    unfold close, modify, mret, M_ret, emit, set_sockets. simpl.
    by rewrite insert_insert_eq, <- app_assoc. }
  destruct Hdev as [-> | ->]; exact Hgoal.
Qed.

Lemma handshake_without_device_id_witness :
  websocket_endpoint_handshake 0%nat (mkHeaders (Some "tok") None None None)
    u1_env initial =
    (Return Returned,
     emit [Sent Handler 0%nat
             (error_event "X-Device-ID header is required and was not found.");
           Closed 0%nat]
       (set_sockets (<[0%nat := DISCONNECTED]> (sockets initial)) initial)).
Proof.
  apply (handshake_without_device_id 0%nat
           (mkHeaders (Some "tok") None None None) u1_env initial (PyStr "u1")).
  - reflexivity.
  - left. reflexivity.
Defined.

(** X15: when the LLM client cannot be created, the endpoint returns
    without a word: the connection, registered a moment before, is
    cleaned up again, but nothing is sent to the client and the handler
    does not close the socket, which stays accepted. The store is not
    touched. *)
Theorem handshake_client_failure_is_silent :
  ∀ (ws : nat) (h : Headers) (env : HandshakeEnv) (s : Server)
    (uid : PyValue) (dev err : string),
    fetch_user_id (he_http env) = Some uid →
    h_X_Device_ID h = Some dev →
    dev ≠ "" →
    he_get_client_error env = Some err →
    ∃ s',
      websocket_endpoint_handshake ws h env s = (Return Returned, s') ∧
      (∀ ws', outbox ws' s' = outbox ws' s) ∧
      (Closed ws ∈ trace s' → Closed ws ∈ trace s) ∧
      sockets s' !! ws = Some CONNECTED ∧
      (ws ∉ active_connections s') ∧
      active_agents s' !! ws = None ∧
      db s' = db s.
Proof.
  intros ws h env s uid dev err Hid Hdev Hne Hcl.
  rewrite handshake_after_accept, Hid, Hdev, Hcl.
  apply String.eqb_neq in Hne. rewrite Hne.
  unfold mbind, M_bind, accept, modify, try_except, raise. simpl.
  eexists. split; [reflexivity|]. split_and!.
  - intros ws'. by rewrite cleanup_outbox.
  - intros Hc. by apply cleanup_not_closed in Hc.
  - rewrite cleanup_sockets. simpl. apply lookup_insert_eq.
  - rewrite cleanup_active_connections, elem_of_difference, elem_of_singleton.
    tauto.
  - rewrite cleanup_active_agents. apply lookup_delete_eq.
  - by rewrite cleanup_connection_db.
Qed.

Lemma handshake_client_failure_is_silent_witness :
  ∃ s',
    websocket_endpoint_handshake 0%nat dev1_headers
      (mkHandshakeEnv (Response 200 (JsonObject [("user_id", PyStr "u1")]))
         "uuid-1" "/ws/uuid-1" (Some "no credentials")) initial
      = (Return Returned, s') ∧
    (∀ ws', outbox ws' s' = outbox ws' initial) ∧
    (Closed 0%nat ∈ trace s' → Closed 0%nat ∈ trace initial) ∧
    sockets s' !! 0%nat = Some CONNECTED ∧
    (0%nat ∉ active_connections s') ∧
    active_agents s' !! 0%nat = None ∧
    db s' = db initial.
Proof.
  apply (handshake_client_failure_is_silent 0%nat dev1_headers
           (mkHandshakeEnv (Response 200 (JsonObject [("user_id", PyStr "u1")]))
              "uuid-1" "/ws/uuid-1" (Some "no credentials"))
           initial (PyStr "u1") "dev1" "no credentials"); try reflexivity.
  discriminate.
Defined.

(* ===================================================================== *)
(** * More properties of the dispatch loop                               *)
(* ===================================================================== *)

Section Dispatch.

Lemma outbox_sent ws s :
  outbox ws s =
    omap (λ p : nat * RealtimeEvent,
            if decide (p.1 = ws) then Some p.2 else None) (sent s).
Proof.
  unfold outbox, sent. induction (trace s) as [|e tr IH]; [done|].
  destruct e as [by_ ws' ev| | |]; simpl; try exact IH.
  destruct (decide (ws' = ws)); simpl; [f_equal|]; exact IH.
Qed.

Lemma outbox_sent_snoc ws ws' ev s s' :
  sent s' = sent s ++ [(ws, ev)] →
  outbox ws' s' = outbox ws' s ++ (if decide (ws = ws') then [ev] else []).
Proof.
  intros H. rewrite !outbox_sent, H, omap_app. simpl.
  by destruct (decide (ws = ws')).
Qed.

Ltac reply_done :=
  eexists _, _; split; [reflexivity|];
  split_and!; try done;
  unfold sent; simpl; rewrite ?omap_app; simpl;
  rewrite ?app_nil_r, <- ?app_assoc; reflexivity.

Lemma task_cancel_frame tid s :
  sockets (task_cancel tid s) = sockets s ∧
  active_connections (task_cancel tid s) = active_connections s ∧
  active_agents (task_cancel tid s) = active_agents s ∧
  active_tasks (task_cancel tid s) = active_tasks s ∧
  message_processors (task_cancel tid s) = message_processors s ∧
  agents (task_cancel tid s) = agents s ∧
  sent (task_cancel tid s) = sent s.
Proof.
  unfold task_cancel. destruct (task_done tid s); [done|].
  split_and!; try done.
  unfold sent. simpl. rewrite omap_app. simpl. by rewrite app_nil_r.
Qed.

(** While the socket is connected, handling what was received ends
    normally and sends exactly one event, on this socket. *)
Lemma on_receive_replies cx orc d s :
  sockets s !! cx_websocket cx = Some CONNECTED →
  ∃ s' ev,
    on_receive cx orc d s = (Return (), s') ∧
    sent s' = sent s ++ [(cx_websocket cx, ev)] ∧
    sockets s' = sockets s ∧
    active_connections s' = active_connections s.
Proof.
  intros Hs. unfold on_receive, try_except.
  destruct d as [|err|ty content]; simpl.
  - rewrite send_json_connected by done. reply_done.
  - rewrite send_json_connected by done. reply_done.
  - unfold handle_message.
    destruct (String.eqb ty "init_agent").
    { unfold create_agent_for_connection, mbind, M_bind, modify, raise,
        create_task.
      destruct (o_init orc) as [err|err|]; simpl.
      - rewrite send_json_connected by done. reply_done.
      - rewrite send_json_connected by done. reply_done.
      - rewrite send_json_connected by done. reply_done. }
    destruct (String.eqb ty "query").
    { destruct (task_in_flight (cx_websocket cx) s).
      - rewrite send_json_connected by done. reply_done.
      - unfold mbind, M_bind. rewrite send_json_connected by done.
        simpl. reply_done. }
    destruct (String.eqb ty "workspace_info").
    { destruct (cx_workspace_manager cx);
        rewrite send_json_connected by done; reply_done. }
    destruct (String.eqb ty "ping").
    { rewrite send_json_connected by done. reply_done. }
    destruct (String.eqb ty "cancel").
    { destruct (task_in_flight (cx_websocket cx) s).
      - unfold mbind, M_bind, modify.
        destruct (active_tasks s !! cx_websocket cx) as [tid|].
        + destruct (task_cancel_frame tid s) as (Hk & Hc & _ & _ & _ & _ & Hsent).
          rewrite send_json_connected by (by rewrite Hk).
          eexists _, _. split; [reflexivity|]. split_and!; try done.
          unfold sent at 1. simpl. rewrite omap_app. simpl.
          fold (sent (task_cancel tid s)). by rewrite Hsent.
        + rewrite send_json_connected by done. reply_done.
      - rewrite send_json_connected by done. reply_done. }
    destruct (String.eqb ty "enhance_prompt").
    { destruct (o_enhance orc) as [err|success message enhanced]; simpl.
      - rewrite send_json_connected by done. reply_done.
      - destruct (success && negb (String.eqb enhanced ""));
          rewrite send_json_connected by done; reply_done. }
    rewrite send_json_connected by done. reply_done.
Qed.

(** [cleanup_connection] sends nothing. *)
Lemma cleanup_sent ws s : sent (cleanup_connection ws s) = sent s.
Proof.
  unfold sent.
  destruct (task_in_flight_cases ws s) as [(tid & Ha & Hd & _)|Hfl].
  - destruct (cleanup_task_in_flight ws tid s Ha Hd) as (_ & _ & ->).
    rewrite omap_app. simpl. by rewrite app_nil_r.
  - by destruct (cleanup_no_task_in_flight ws s Hfl) as (_ & _ & ->).
Qed.

End Dispatch.

(** X16: the loop answers every text frame and no other. While the
    socket is connected, whatever text a frame carries - a message of
    any type, known or not, malformed JSON, a message whose handling
    raises - the loop goes on, exactly one event has been sent, it
    went to this connection, and no other connection was sent
    anything. When [receive_text] itself raises, as for a frame
    without text, no event is sent: the call stands outside the inner
    [try], the loop ends and the connection is cleaned up. *)
Theorem every_message_answered_once :
  (∀ (cx : ConnCtx) (orc : Oracle) (d : Decoded) (s : Server),
     sockets s !! cx_websocket cx = Some CONNECTED →
     ∃ s' ev,
       loop_iteration cx orc (Data d) s = Continue s' ∧
       sent s' = sent s ++ [(cx_websocket cx, ev)] ∧
       outbox (cx_websocket cx) s' = outbox (cx_websocket cx) s ++ [ev] ∧
       (∀ ws', ws' ≠ cx_websocket cx → outbox ws' s' = outbox ws' s) ∧
       sockets s' = sockets s ∧
       active_connections s' = active_connections s) ∧
  (∀ (cx : ConnCtx) (orc : Oracle) (err : string) (s : Server),
     loop_iteration cx orc (ReceiveRaises err) s =
       Stop (cleanup_connection (cx_websocket cx) s) ∧
     sent (cleanup_connection (cx_websocket cx) s) = sent s ∧
     cx_websocket cx ∉ active_connections
                         (cleanup_connection (cx_websocket cx) s)).
Proof.
  split.
  - intros cx orc d s Hs.
    destruct (on_receive_replies cx orc d s Hs)
      as (s' & ev & Hr & Hsent & Hk & Hc).
    exists s', ev. unfold loop_iteration. rewrite Hr.
    split_and!; try done.
    + rewrite (outbox_sent_snoc _ _ _ _ _ Hsent). by rewrite decide_True.
    + intros ws' Hne. rewrite (outbox_sent_snoc _ _ _ _ _ Hsent).
      rewrite decide_False by done. by rewrite app_nil_r.
  - intros cx orc err s. split_and!; [done | apply cleanup_sent |].
    rewrite cleanup_active_connections, elem_of_difference, elem_of_singleton.
    tauto.
Qed.

Lemma every_message_answered_once_witness :
  ∃ s' ev,
    loop_iteration cx0 calm (Data InvalidJson) (w_server connected)
      = Continue s' ∧
    sent s' = sent (w_server connected) ++ [(0%nat, ev)] ∧
    outbox 0%nat s' = outbox 0%nat (w_server connected) ++ [ev] ∧
    (∀ ws', ws' ≠ 0%nat → outbox ws' s' = outbox ws' (w_server connected)) ∧
    sockets s' = sockets (w_server connected) ∧
    active_connections s' = active_connections (w_server connected).
Proof.
  apply (proj1 every_message_answered_once cx0 calm InvalidJson
           (w_server connected)).
  reflexivity.
Defined.

Section DispatchCases.

Lemma stateful_type_false ty :
  stateful_type ty = false →
  String.eqb ty "init_agent" = false ∧ String.eqb ty "query" = false ∧
  String.eqb ty "cancel" = false.
Proof.
  unfold stateful_type. rewrite !orb_false_iff. tauto.
Qed.

Lemma known_type_false ty :
  known_type ty = false →
  stateful_type ty = false ∧ String.eqb ty "workspace_info" = false ∧
  String.eqb ty "ping" = false ∧ String.eqb ty "enhance_prompt" = false.
Proof.
  unfold known_type. rewrite !orb_false_iff. tauto.
Qed.

Lemma stateless_message cx orc ty content s :
  sockets s !! cx_websocket cx = Some CONNECTED →
  stateful_type ty = false →
  loop_iteration cx orc (Data (Message ty content)) s =
    Continue (emit [Sent Handler (cx_websocket cx)
                      (stateless_reply cx orc ty content)] s).
Proof.
  intros Hs Hty. apply stateful_type_false in Hty as (E1 & E2 & E3).
  unfold loop_iteration, on_receive, try_except, handle_message,
    stateless_reply.
  simpl. rewrite E1, E2, E3.
  destruct (String.eqb ty "workspace_info").
  { destruct (cx_workspace_manager cx); by rewrite send_json_connected. }
  destruct (String.eqb ty "ping").
  { by rewrite send_json_connected. }
  destruct (String.eqb ty "enhance_prompt").
  { destruct (o_enhance orc) as [err|success message enhanced]; simpl.
    - by rewrite send_json_connected.
    - destruct (success && negb (String.eqb enhanced ""));
        by rewrite send_json_connected. }
  by rewrite send_json_connected.
Qed.

Lemma cancel_in_flight cx orc content s tid :
  sockets s !! cx_websocket cx = Some CONNECTED →
  active_tasks s !! cx_websocket cx = Some tid →
  task_done tid s = false →
  loop_iteration cx orc (Data (Message "cancel" content)) s =
    Continue (emit [Sent Handler (cx_websocket cx)
                      (message_event SYSTEM "Query canceled")]
                (task_cancel tid s)).
Proof.
  intros Hs Ha Hd.
  unfold loop_iteration, on_receive, try_except, handle_message. simpl.
  unfold task_in_flight. rewrite Ha, Hd. simpl.
  unfold mbind, M_bind, modify. rewrite Ha.
  rewrite send_json_connected; [done|].
  unfold task_cancel. by destruct (task_done tid s).
Qed.

Lemma cancel_nothing cx orc content s :
  sockets s !! cx_websocket cx = Some CONNECTED →
  task_in_flight (cx_websocket cx) s = false →
  loop_iteration cx orc (Data (Message "cancel" content)) s =
    Continue (emit [Sent Handler (cx_websocket cx)
                      (error_event "No active query to cancel")] s).
Proof.
  intros Hs Hfl.
  unfold loop_iteration, on_receive, try_except, handle_message. simpl.
  rewrite Hfl. by rewrite send_json_connected.
Qed.

Lemma init_agent_built cx orc content s :
  sockets s !! cx_websocket cx = Some CONNECTED →
  o_init orc = AgentBuilt →
  loop_iteration cx orc (Data (Message "init_agent" content)) s =
    Continue
      (emit [Sent Handler (cx_websocket cx)
               (message_event AGENT_INITIALIZED "Agent initialized")]
         (set_message_processors
            (<[cx_websocket cx := length (tasks s)]> (message_processors s))
            (emit [Spawned (length (tasks s))]
               (set_tasks
                  (tasks s ++
                     [mkTask (ProcessMessages (length (agents s))) PENDING false])
                  (set_active_agents
                     (<[cx_websocket cx := length (agents s)]> (active_agents s))
                     (set_agents
                        (agents s ++
                           [mkAgent (Some (cx_websocket cx))
                              (cx_composite_session_id cx) (cx_user_id cx)
                              (cx_device_id cx) []])
                        (set_db
                           (create_session (o_now orc)
                              (cx_composite_session_id cx)
                              (cx_workspace_session_uuid cx)
                              (default "" (cx_workspace_manager cx))
                              (cx_user_id cx) (Some (cx_device_id cx)) (db s))
                           s))))))).
Proof.
  intros Hs Hb.
  unfold loop_iteration, on_receive, try_except, handle_message. simpl.
  unfold create_agent_for_connection, mbind, M_bind, modify, raise,
    create_task.
  rewrite Hb. simpl. by rewrite send_json_connected.
Qed.



End DispatchCases.

(** X17: a message that is neither [init_agent] nor [query] nor
    [cancel] - [ping], [workspace_info], [enhance_prompt], or a type
    the loop does not know - changes nothing but the trace: the state
    after it is the state before it plus one event sent on the
    connection. For an unknown type that event is the error naming the
    type; [ping] is answered by PONG with empty content;
    [workspace_info] by the workspace root; a prompt enhancement that
    raises, fails or comes back empty by an error event. *)
Theorem stateless_messages_only_reply :
  ∀ (cx : ConnCtx) (orc : Oracle) (ty : string) (content : Content)
    (s : Server),
    sockets s !! cx_websocket cx = Some CONNECTED →
    stateful_type ty = false →
    ∃ ev,
      loop_iteration cx orc (Data (Message ty content)) s =
        Continue (emit [Sent Handler (cx_websocket cx) ev] s) ∧
      (known_type ty = false →
         ev = error_event ("Unknown message type: " +:+ ty)) ∧
      (ty = "ping" → ev = mkRealtimeEvent PONG []) ∧
      (ty = "workspace_info" →
         ∀ root, cx_workspace_manager cx = Some root →
                 ev = mkRealtimeEvent WORKSPACE_INFO [("path", root)]) ∧
      (ty = "enhance_prompt" →
         match o_enhance orc with
         | EnhanceRaises err =>
             ev = error_event ("Error processing request: " +:+ err)
         | EnhanceReturns true message (String c p) =>
             ev = mkRealtimeEvent PROMPT_GENERATED
                    [("result", String c p);
                     ("original_request", c_text content)]
         | EnhanceReturns _ message _ => ev = error_event message
         end).
Proof.
  intros cx orc ty content s Hs Hty.
  exists (stateless_reply cx orc ty content).
  split; [by apply stateless_message|]. split_and!.
  - intros Hk. apply known_type_false in Hk as (_ & E1 & E2 & E3).
    unfold stateless_reply. by rewrite E1, E2, E3.
  - by intros ->.
  - intros -> root Hroot. unfold stateless_reply. simpl. by rewrite Hroot.
  - intros ->. unfold stateless_reply. simpl.
    destruct (o_enhance orc) as [err|[] message [|c p]]; done.
Qed.

Lemma stateless_messages_only_reply_witness :
  ∃ ev,
    loop_iteration cx0 calm (Data (Message "status" query_hello))
      (w_server connected) =
      Continue (emit [Sent Handler 0%nat ev] (w_server connected)) ∧
    ev = error_event "Unknown message type: status".
Proof.
  destruct (stateless_messages_only_reply cx0 calm "status" query_hello
              (w_server connected) eq_refl eq_refl)
    as (ev & Hstep & Hunknown & _).
  exists ev. split; [exact Hstep|]. apply Hunknown. reflexivity.
Defined.

(** X18: a [cancel] message while the connection's task is not done
    asks the task to cancel and then answers "Query canceled". The
    request does not end the task: it keeps its state, its entry in
    [active_tasks] stays, and so a query sent before the cancellation
    has been delivered is still rejected. Without a task in flight the
    answer is the error "No active query to cancel" and nothing else
    changes. *)
Theorem cancel_requests_cancellation :
  ∀ (cx : ConnCtx) (orc : Oracle) (content : Content) (s : Server),
    sockets s !! cx_websocket cx = Some CONNECTED →
    (∀ tid t,
       active_tasks s !! cx_websocket cx = Some tid →
       tasks s !! tid = Some t →
       is_done (t_state t) = false →
       ∃ s',
         loop_iteration cx orc (Data (Message "cancel" content)) s
           = Continue s' ∧
         trace s' = trace s ++
           [CancelRequested tid;
            Sent Handler (cx_websocket cx)
              (message_event SYSTEM "Query canceled")] ∧
         tasks s' = <[tid := mkTask (t_coro t) (t_state t) true]> (tasks s) ∧
         active_tasks s' = active_tasks s ∧
         task_in_flight (cx_websocket cx) s' = true ∧
         ∀ content', ∃ s'',
           loop_iteration cx orc (Data (Message "query" content')) s'
             = Continue s'' ∧
           tasks s'' = tasks s') ∧
    (task_in_flight (cx_websocket cx) s = false →
       loop_iteration cx orc (Data (Message "cancel" content)) s =
         Continue (emit [Sent Handler (cx_websocket cx)
                           (error_event "No active query to cancel")] s)).
Proof.
  intros cx orc content s Hs. split.
  - intros tid t Ha Ht Hd.
    assert (Hnd : task_done tid s = false) by (unfold task_done; by rewrite Ht).
    assert (Htc : task_cancel tid s =
              emit [CancelRequested tid]
                (set_tasks
                   (alter (λ t0, mkTask (t_coro t0) (t_state t0) true) tid
                      (tasks s)) s)).
    { unfold task_cancel. by rewrite Hnd. }
    assert (Htasks :
      alter (λ t0, mkTask (t_coro t0) (t_state t0) true) tid (tasks s)
      = <[tid := mkTask (t_coro t) (t_state t) true]> (tasks s)).
    { apply list_eq. intros i.
      destruct (decide (i = tid)) as [->|Hne].
      - rewrite list_lookup_alter_eq, Ht. simpl. symmetry.
        apply list_lookup_insert_eq. by eapply lookup_lt_Some.
      - rewrite list_lookup_alter_ne by done.
        by rewrite list_lookup_insert_ne. }
    set (s1 := emit [Sent Handler (cx_websocket cx)
                       (message_event SYSTEM "Query canceled")]
                 (task_cancel tid s)).
    assert (Hfl : task_in_flight (cx_websocket cx) s1 = true).
    { unfold s1, task_in_flight, task_done. rewrite Htc. simpl.
      rewrite Ha, list_lookup_alter_eq, Ht. simpl. by rewrite Hd. }
    assert (Hs1 : sockets s1 !! cx_websocket cx = Some CONNECTED).
    { unfold s1. by rewrite Htc. }
    exists s1. split; [by apply cancel_in_flight|]. split_and!.
    + unfold s1. rewrite Htc. simpl. by rewrite <- app_assoc.
    + unfold s1. rewrite Htc. exact Htasks.
    + unfold s1. by rewrite Htc.
    + exact Hfl.
    + intros content'. eexists. split; [by apply query_rejected|done].
  - by apply cancel_nothing.
Qed.

Lemma cancel_requests_cancellation_witness :
  ∃ s',
    loop_iteration cx0 calm (Data (Message "cancel" query_hello))
      (w_server after_first_query) = Continue s' ∧
    trace s' = trace (w_server after_first_query) ++
      [CancelRequested 0%nat;
       Sent Handler 0%nat (message_event SYSTEM "Query canceled")] ∧
    task_in_flight 0%nat s' = true.
Proof.
  destruct (cancel_requests_cancellation cx0 calm query_hello
              (w_server after_first_query) eq_refl) as [Hrun _].
  destruct (Hrun 0%nat (mkTask (RunAgentAsync 0%nat "hello" false []) PENDING false)
              eq_refl eq_refl eq_refl) as (s' & Hstep & Htr & _ & _ & Hfl & _).
  exists s'. done.
Defined.

(** X19: [init_agent] on a connected socket, when the agent can be
    built: a new agent object is created, bound to the connection's
    socket, composite session id, user and device, with an empty
    message queue; it becomes the connection's agent; its message
    processor is spawned as a new task and recorded; then
    AGENT_INITIALIZED is sent. The session document is written first.
    An agent the connection had before is replaced in the dictionary
    but not touched: it keeps its reference to the socket. *)
Theorem init_agent_installs_agent :
  ∀ (cx : ConnCtx) (orc : Oracle) (content : Content) (s : Server),
    sockets s !! cx_websocket cx = Some CONNECTED →
    o_init orc = AgentBuilt →
    ∃ s',
      loop_iteration cx orc (Data (Message "init_agent" content)) s
        = Continue s' ∧
      agents s' = agents s ++
        [mkAgent (Some (cx_websocket cx)) (cx_composite_session_id cx)
           (cx_user_id cx) (cx_device_id cx) []] ∧
      active_agents s' = <[cx_websocket cx := length (agents s)]> (active_agents s) ∧
      tasks s' = tasks s ++
        [mkTask (ProcessMessages (length (agents s))) PENDING false] ∧
      message_processors s' =
        <[cx_websocket cx := length (tasks s)]> (message_processors s) ∧
      trace s' = trace s ++
        [Spawned (length (tasks s));
         Sent Handler (cx_websocket cx)
           (message_event AGENT_INITIALIZED "Agent initialized")] ∧
      session_bound cx s' ∧
      active_tasks s' = active_tasks s ∧
      active_connections s' = active_connections s ∧
      (∀ old a, active_agents s !! cx_websocket cx = Some old →
                agents s !! old = Some a →
                agents s' !! old = Some a).
Proof.
  intros cx orc content s Hs Hb.
  eexists. split; [by apply init_agent_built|]. simpl.
  split_and!; try done.
  - by rewrite <- app_assoc.
  - apply create_session_bound.
  - intros old a _ Ha. by apply lookup_app_l_Some.
Qed.

Lemma init_agent_installs_agent_witness :
  ∃ s',
    loop_iteration cx0 calm (Data (Message "init_agent" query_hello))
      (w_server connected) = Continue s' ∧
    agents s' = [mkAgent (Some 0%nat) "u1_dev1" "u1" "dev1" []] ∧
    active_agents s' !! 0%nat = Some 0%nat ∧
    message_processors s' !! 0%nat = Some 0%nat ∧
    session_bound cx0 s'.
Proof.
  destruct (init_agent_installs_agent cx0 calm query_hello (w_server connected)
              eq_refl eq_refl)
    as (s' & Hstep & Hag & Haa & _ & Hmp & _ & Hb & _).
  exists s'. split_and!; try done.
  - by rewrite Haa.
  - by rewrite Hmp.
Defined.



(* ===================================================================== *)
(** * The life of a query task                                           *)
(* ===================================================================== *)

Section TaskSteps.

Lemma set_task_state_lookup tid st s t :
  tasks s !! tid = Some t →
  tasks (set_task_state tid st s) =
    <[tid := mkTask (t_coro t) st (t_must_cancel t)]> (tasks s).
Proof.
  intros Ht. unfold set_task_state. simpl.
  apply list_eq. intros i. destruct (decide (i = tid)) as [->|Hne].
  - rewrite list_lookup_alter_eq, Ht. simpl. symmetry.
    apply list_lookup_insert_eq. by eapply lookup_lt_Some.
  - rewrite list_lookup_alter_ne by done. by rewrite list_lookup_insert_ne.
Qed.

Lemma task_done_set_state tid st s t :
  tasks s !! tid = Some t →
  task_done tid (set_task_state tid st s) = is_done st.
Proof.
  intros Ht. unfold task_done. rewrite (set_task_state_lookup _ _ _ _ Ht).
  rewrite list_lookup_insert_eq by (by eapply lookup_lt_Some). done.
Qed.

Lemma sent_emit_sent by_ ws ev s :
  sent (emit [Sent by_ ws ev] s) = sent s ++ [(ws, ev)].
Proof. unfold sent. simpl. by rewrite omap_app. Qed.

Lemma task_step_query tid ws ui r fs st mc ev s :
  tasks s !! tid = Some (mkTask (RunAgentAsync ws ui r fs) st mc) →
  task_step tid ev s = run_agent_async_step tid ws ui st mc ev s.
Proof. intros Ht. unfold task_step. by rewrite Ht. Qed.



End TaskSteps.

(** X21: when a query task is first run on a connection that has an
    agent, the user's text is put on the agent's message queue as a
    USER_MESSAGE event, behind whatever is queued already, and the
    task is then suspended in the agent. Nothing is sent, the store and
    the dictionaries are as before. *)
Theorem run_agent_async_start :
  ∀ (tid ws aid : nat) (ui : string) (r : bool) (fs : list string)
    (a : Agent) (s : Server),
    tasks s !! tid = Some (mkTask (RunAgentAsync ws ui r fs) PENDING false) →
    active_agents s !! ws = Some aid →
    agents s !! aid = Some a →
    let s' := task_step tid Start s in
    tasks s' = <[tid := mkTask (RunAgentAsync ws ui r fs) RUNNING false]> (tasks s) ∧
    agents s' =
      <[aid := mkAgent (agent_websocket a) (agent_session_id a)
                 (agent_user_id a) (agent_device_id a)
                 (message_queue a ++
                    [mkRealtimeEvent USER_MESSAGE [("text", ui)]])]>
        (agents s) ∧
    trace s' = trace s ∧
    active_tasks s' = active_tasks s ∧
    active_agents s' = active_agents s ∧
    db s' = db s.
Proof.
  intros tid ws aid ui r fs a s Ht Ha Hag s'.
  unfold s'. rewrite (task_step_query _ _ _ _ _ _ _ _ _ Ht).
  unfold run_agent_async_step. rewrite Ha.
  split_and!; try done.
  - by rewrite (set_task_state_lookup tid RUNNING (set_agents _ s) _ Ht).
  - simpl. apply list_eq. intros i. destruct (decide (i = aid)) as [->|Hne].
    + rewrite list_lookup_alter_eq, Hag. simpl. symmetry.
      apply list_lookup_insert_eq. by eapply lookup_lt_Some.
    + rewrite list_lookup_alter_ne by done. by rewrite list_lookup_insert_ne.
Qed.

Lemma run_agent_async_start_witness :
  let s := w_server
             (run [Receive 0%nat (Data (Message "init_agent" query_hello)) calm;
                   Receive 0%nat (Data (Message "query" query_hello)) calm]
                connected) in
  let s' := task_step 1%nat Start s in
  tasks s' !! 1%nat
    = Some (mkTask (RunAgentAsync 0%nat "hello" false []) RUNNING false) ∧
  agents s' !! 0%nat
    = Some (mkAgent (Some 0%nat) "u1_dev1" "u1" "dev1"
              [mkRealtimeEvent USER_MESSAGE [("text", "hello")]]) ∧
  trace s' = trace s.
Proof.
  intros s s'.
  destruct (run_agent_async_start 1%nat 0%nat 0%nat "hello" false []
              (mkAgent (Some 0%nat) "u1_dev1" "u1" "dev1" []) s
              eq_refl eq_refl eq_refl)
    as (Ht & Ha & Htr & _).
  fold s' in Ht, Ha, Htr. rewrite Ht, Ha. done.
Defined.



(** X23: a query task that is cancelled before it was ever run never
    executes a line of [run_agent_async]: it ends cancelled, nothing is
    sent, nothing is queued for the agent, and - the [finally] clause
    not being reached - its entry stays in [active_tasks]. The entry
    points to a task that is done, so it does not block the next
    query. *)
Theorem run_agent_async_cancelled_before_start :
  ∀ (tid ws : nat) (ui : string) (r : bool) (fs : list string) (s : Server),
    tasks s !! tid = Some (mkTask (RunAgentAsync ws ui r fs) PENDING true) →
    active_tasks s !! ws = Some tid →
    task_step tid Start s = s ∧
    let s' := task_step tid CancelSeen s in
    tasks s' = <[tid := mkTask (RunAgentAsync ws ui r fs) CANCELLED true]> (tasks s) ∧
    active_tasks s' !! ws = Some tid ∧
    task_in_flight ws s' = false ∧
    trace s' = trace s ∧
    agents s' = agents s ∧
    db s' = db s.
Proof.
  intros tid ws ui r fs s Ht Ha.
  rewrite !(task_step_query _ _ _ _ _ _ _ _ _ Ht).
  unfold run_agent_async_step. split; [done|].
  assert (Htasks : tasks (set_task_state tid CANCELLED s) =
            <[tid := mkTask (RunAgentAsync ws ui r fs) CANCELLED true]> (tasks s)).
  { by rewrite (set_task_state_lookup tid CANCELLED _ _ Ht). }
  split_and!; try done.
  unfold task_in_flight, task_done. simpl in *. rewrite Ha, Htasks.
  rewrite list_lookup_insert_eq by (by eapply lookup_lt_Some). done.
Qed.

Lemma run_agent_async_cancelled_before_start_witness :
  let s := w_server
             (run [Receive 0%nat (Data (Message "cancel" query_hello)) calm]
                after_first_query) in
  task_step 0%nat Start s = s ∧
  let s' := task_step 0%nat CancelSeen s in
  active_tasks s' !! 0%nat = Some 0%nat ∧
  task_in_flight 0%nat s' = false ∧
  trace s' = trace s.
Proof.
  intros s.
  destruct (run_agent_async_cancelled_before_start 0%nat 0%nat "hello" false []
              s eq_refl eq_refl)
    as (Hstart & _ & Ha & Hfl & Htr & _).
  done.
Defined.

(* ===================================================================== *)
(** * Invariants of the running server                                   *)
(* ===================================================================== *)

Section Invariants.

Lemma pending_query_ext s s' tid :
  tasks s' = tasks s → pending_query s' tid = pending_query s tid.
Proof. unfold pending_query. by intros ->. Qed.

Lemma pending_query_view s s' tid :
  t_coro <$> tasks s' !! tid = t_coro <$> tasks s !! tid →
  t_state <$> tasks s' !! tid = t_state <$> tasks s !! tid →
  pending_query s' tid = pending_query s tid.
Proof.
  unfold pending_query.
  destruct (tasks s' !! tid) as [[c1 st1 m1]|], (tasks s !! tid) as [[c2 st2 m2]|];
    simpl; intros Hc Hst; try done.
  injection Hc as ->. by injection Hst as ->.
Qed.

Lemma pending_query_task_cancel tid0 s tid :
  pending_query (task_cancel tid0 s) tid = pending_query s tid.
Proof.
  apply pending_query_view; [apply task_cancel_coros | apply task_cancel_states].
Qed.

Lemma pending_query_app_processor s s' a st mc tid :
  tasks s' = tasks s ++ [mkTask (ProcessMessages a) st mc] →
  pending_query s' tid = pending_query s tid.
Proof.
  intros Ht. unfold pending_query. rewrite Ht.
  destruct (decide (tid < length (tasks s))%nat) as [Hlt|Hge].
  - by rewrite lookup_app_l.
  - rewrite lookup_app_r by lia.
    rewrite (lookup_ge_None_2 (tasks s)) by lia.
    destruct (tid - length (tasks s))%nat as [|n]; [done|].
    by destruct n.
Qed.

Lemma pending_query_app_query s s' ws ui r fs tid :
  tasks s' = tasks s ++ [mkTask (RunAgentAsync ws ui r fs) PENDING false] →
  pending_query s' tid =
    if decide (tid = length (tasks s)) then Some ws else pending_query s tid.
Proof.
  intros Ht. unfold pending_query. rewrite Ht.
  destruct (decide (tid = length (tasks s))) as [->|Hne].
  - rewrite lookup_app_r by lia. by rewrite Nat.sub_diag.
  - destruct (decide (tid < length (tasks s))%nat) as [Hlt|Hge].
    + by rewrite lookup_app_l.
    + rewrite lookup_app_r by lia.
      rewrite (lookup_ge_None_2 (tasks s)) by lia.
      destruct (tid - length (tasks s))%nat as [|n] eqn:E; [lia|].
      by destruct n.
Qed.

Lemma pending_query_in_flight ws tid s :
  pending_query s tid = Some ws → active_tasks s !! ws = Some tid →
  task_in_flight ws s = true.
Proof.
  unfold pending_query, task_in_flight, task_done. intros Hp ->.
  destruct (tasks s !! tid) as [[[] st mc]|]; try done.
  simpl. by destruct (is_done st).
Qed.

Lemma same_queries_refl s s' :
  active_tasks s' = active_tasks s → tasks s' = tasks s → same_queries s s'.
Proof. intros Ha Ht. split; [done|]. intros tid. by apply pending_query_ext. Qed.

(** *** cleanup_connection *)

Lemma cleanup_pending_query ws s tid :
  pending_query (cleanup_connection ws s) tid = pending_query s tid.
Proof.
  destruct (task_in_flight_cases ws s) as [(tid0 & Ha & Hd & _)|Hfl].
  - destruct (cleanup_task_in_flight ws tid0 s Ha Hd) as (_ & Ht & _).
    apply pending_query_view; rewrite Ht, list_lookup_alter;
      (case_decide; [subst|done]);
      match goal with
      | |- context [tasks s !! ?i] => by destruct (tasks s !! i)
      end.
  - destruct (cleanup_no_task_in_flight ws s Hfl) as (_ & Ht & _).
    by apply pending_query_ext.
Qed.

Lemma cleanup_active_tasks_other ws ws' s :
  ws' ≠ ws →
  active_tasks (cleanup_connection ws s) !! ws' = active_tasks s !! ws'.
Proof.
  intros Hne.
  destruct (task_in_flight_cases ws s) as [(tid0 & Ha & Hd & _)|Hfl].
  - destruct (cleanup_task_in_flight ws tid0 s Ha Hd) as (-> & _).
    by rewrite lookup_delete_ne.
  - by destruct (cleanup_no_task_in_flight ws s Hfl) as (-> & _).
Qed.

(** *** The handshake *)

Lemma handshake_cases ws h env s :
  let s1 := set_active_connections ({[ws]} ∪ active_connections s)
              (set_sockets (<[ws := CONNECTED]> (sockets s)) s) in
  (∃ cx, websocket_endpoint_handshake ws h env s =
           (Return (Ready cx),
            emit [Sent Handler ws (connection_established (he_workspace_root env))]
              s1) ∧
         cx_websocket cx = ws) ∨
  (∃ l, websocket_endpoint_handshake ws h env s =
          (Return Returned,
           emit l (set_sockets (<[ws := DISCONNECTED]> (sockets s)) s))) ∨
  websocket_endpoint_handshake ws h env s =
    (Return Returned, cleanup_connection ws s1).
Proof.
  intros s1. rewrite handshake_after_accept.
  assert (Hfail : ∀ msg,
    ∃ l, (accept ws ;; send_json Handler ws (error_event msg) ;;
          close ws ;; mret Returned) s =
         (Return Returned,
          emit l (set_sockets (<[ws := DISCONNECTED]> (sockets s)) s))).
  { intros msg. eexists. unfold mbind, M_bind, accept, modify. simpl.
    rewrite send_json_connected by (simpl; apply lookup_insert_eq).
    unfold close, modify, mret, M_ret, emit, set_sockets. simpl.
    rewrite insert_insert_eq, <- app_assoc. reflexivity. }
  destruct (fetch_user_id (he_http env)) as [uid|]; [|right; left; apply Hfail].
  destruct (h_X_Device_ID h) as [dev|]; [|right; left; apply Hfail].
  destruct (String.eqb dev ""); [right; left; apply Hfail|].
  unfold mbind, M_bind, accept, modify, try_except, raise. simpl.
  destruct (he_get_client_error env) as [err|]; simpl.
  - right. right. reflexivity.
  - left. rewrite send_json_connected by (simpl; apply lookup_insert_eq).
    eexists. split; reflexivity.
Qed.

(** *** The dispatch loop *)

Ltac shape_done :=
  eexists; split; [reflexivity|];
  split;
  [ split; [done|]; split; [done|]; left; done
  | left; split; [done | intros ?; reflexivity] ].

Lemma on_receive_shape cx orc d s :
  sockets s !! cx_websocket cx = Some CONNECTED →
  ∃ s',
    on_receive cx orc d s = (Return (), s') ∧
    registry_step (cx_websocket cx) s s' ∧
    query_step (cx_websocket cx) s s'.
Proof.
  intros Hs. unfold on_receive, try_except.
  destruct d as [|err|ty content]; simpl.
  - rewrite send_json_connected by done. shape_done.
  - rewrite send_json_connected by done. shape_done.
  - unfold handle_message.
    destruct (String.eqb ty "init_agent").
    { unfold create_agent_for_connection, mbind, M_bind, modify, raise,
        create_task.
      destruct (o_init orc) as [err|err|]; simpl.
      - rewrite send_json_connected by done. shape_done.
      - rewrite send_json_connected by done. shape_done.
      - rewrite send_json_connected by done.
        eexists; split; [reflexivity|]. split.
        + split; [done|]. split; [done|]. right. by eexists _, _.
        + left. split; [done|]. intros tid.
          by eapply pending_query_app_processor. }
    destruct (String.eqb ty "query").
    { destruct (task_in_flight (cx_websocket cx) s) eqn:Hfl.
      - rewrite send_json_connected by done. shape_done.
      - unfold mbind, M_bind. rewrite send_json_connected by done.
        simpl. eexists; split; [reflexivity|]. split.
        + split; [done|]. split; [done|]. by left.
        + right. split; [done|]. split; [done|]. intros tid.
          by eapply pending_query_app_query. }
    destruct (String.eqb ty "workspace_info").
    { destruct (cx_workspace_manager cx);
        rewrite send_json_connected by done; shape_done. }
    destruct (String.eqb ty "ping").
    { rewrite send_json_connected by done. shape_done. }
    destruct (String.eqb ty "cancel").
    { destruct (task_in_flight (cx_websocket cx) s).
      - unfold mbind, M_bind, modify.
        destruct (active_tasks s !! cx_websocket cx) as [tid0|].
        + destruct (task_cancel_frame tid0 s)
            as (Hk & Hc & Haa & Hat & Hmp & _ & _).
          rewrite send_json_connected by (by rewrite Hk).
          eexists; split; [reflexivity|]. split.
          * split; [done|]. split; [done|]. by left.
          * left. split; [done|]. intros tid.
            apply (pending_query_task_cancel tid0 s tid).
        + rewrite send_json_connected by done. shape_done.
      - rewrite send_json_connected by done. shape_done. }
    destruct (String.eqb ty "enhance_prompt").
    { destruct (o_enhance orc) as [err|success message enhanced]; simpl.
      - rewrite send_json_connected by done. shape_done.
      - destruct (success && negb (String.eqb enhanced ""));
          rewrite send_json_connected by done; shape_done. }
    rewrite send_json_connected by done. shape_done.
Qed.

(** *** The tasks *)

Lemma task_step_registry tid ev s :
  sockets (task_step tid ev s) = sockets s ∧
  active_connections (task_step tid ev s) = active_connections s ∧
  active_agents (task_step tid ev s) = active_agents s ∧
  message_processors (task_step tid ev s) = message_processors s.
Proof.
  unfold task_step.
  destruct (tasks s !! tid) as [[[ws ui r fs|ag] st mc]|]; [| |done].
  - unfold run_agent_async_step, send_json.
    destruct st, ev; try done.
    + destruct mc; [done|]. destruct (active_agents s !! ws); [done|].
      by destruct (sockets s !! ws) as [[]|].
    + by destruct mc.
    + by destruct (sockets s !! ws) as [[]|].
    + by destruct mc.
  - destruct st; try done. destruct mc; try done. by destruct ev.
Qed.

Lemma pending_query_finish tid st s0 s t tid' :
  tasks s !! tid = Some t → tasks s0 = tasks s → is_done st = true →
  pending_query (set_task_state tid st s0) tid' =
    if decide (tid' = tid) then None else pending_query s tid'.
Proof.
  intros Ht H0 Hd. unfold pending_query, set_task_state. simpl. rewrite H0.
  destruct (decide (tid' = tid)) as [->|Hne].
  - rewrite list_lookup_alter_eq, Ht. simpl. destruct (t_coro t); [|done].
    by rewrite Hd.
  - by rewrite list_lookup_alter_ne.
Qed.

Lemma pending_query_keep tid st s0 s c st0 mc tid' :
  tasks s !! tid = Some (mkTask c st0 mc) → tasks s0 = tasks s →
  is_done st = is_done st0 →
  pending_query (set_task_state tid st s0) tid' = pending_query s tid'.
Proof.
  intros Ht H0 Hd. unfold pending_query, set_task_state. simpl. rewrite H0.
  destruct (decide (tid' = tid)) as [->|Hne].
  - rewrite list_lookup_alter_eq, Ht. simpl. destruct c; [|done].
    by rewrite Hd.
  - by rewrite list_lookup_alter_ne.
Qed.

Lemma task_step_queries tid ev s : task_step_shape tid s (task_step tid ev s).
Proof.
  unfold task_step.
  destruct (tasks s !! tid) as [[[ws ui r fs|ag] st mc]|] eqn:Ht;
    [| |by left; apply same_queries_refl].
  - assert (Hp : is_done st = false → pending_query s tid = Some ws).
    { intros Hd. unfold pending_query. by rewrite Ht, Hd. }
    assert (Hsame : task_step_shape tid s s) by (by left; apply same_queries_refl).
    unfold run_agent_async_step.
    destruct st, ev; try exact Hsame.
    + (* PENDING, Start *)
      destruct mc; [exact Hsame|].
      destruct (active_agents s !! ws) as [aid|].
      * left. split; [done|]. intros tid'.
        by apply (pending_query_keep tid RUNNING _ s _ PENDING false tid' Ht).
      * right. exists ws. split; [by apply Hp|].
        unfold send_json.
        destruct (sockets s !! ws) as [[]|]; (split; [|by left]);
          intros tid';
          by apply (pending_query_finish tid FINISHED _ s _ tid' Ht).
    + (* PENDING, CancelSeen *)
      destruct mc; [|exact Hsame].
      right. exists ws. split; [by apply Hp|]. split; [|by left].
      intros tid'.
      by apply (pending_query_finish tid CANCELLED _ s _ tid' Ht).
    + (* RUNNING, RunReturns *)
      right. exists ws. split; [by apply Hp|]. split; [|by right].
      intros tid'.
      by apply (pending_query_finish tid FINISHED _ s _ tid' Ht).
    + (* RUNNING, RunRaises *)
      right. exists ws. split; [by apply Hp|].
      unfold send_json.
      destruct (sockets s !! ws) as [[]|]; (split; [|by right]);
        intros tid';
        by apply (pending_query_finish tid FINISHED _ s _ tid' Ht).
    + (* RUNNING, CancelSeen *)
      destruct mc; [|exact Hsame].
      right. exists ws. split; [by apply Hp|]. split; [|by right].
      intros tid'.
      by apply (pending_query_finish tid CANCELLED _ s _ tid' Ht).
  - destruct st; try (by left; apply same_queries_refl).
    destruct mc; try (by left; apply same_queries_refl).
    destruct ev; try (by left; apply same_queries_refl).
    left. split; [done|]. intros tid'.
    by apply (pending_query_keep tid RUNNING _ s _ PENDING false tid' Ht).
Qed.

(** *** One step of the server *)

Lemma boot_registries : registries_consistent boot.
Proof.
  split_and!; simpl.
  - intros ws. rewrite lookup_empty. by intros [].
  - intros ws. by intros ?%not_elem_of_empty.
  - intros ws. by rewrite !lookup_empty.
  - intros ws. rewrite !lookup_empty. by intros [].
  - intros ws cx. by rewrite lookup_empty.
Qed.

Lemma boot_queries : queries_tracked boot.
Proof.
  split_and!; simpl; intros tid ws H; by destruct tid.
Qed.

(** The loop of a connection ends. *)
Lemma cleanup_world_invariants w ws cx :
  registries_consistent w → queries_tracked w →
  w_loops w !! ws = Some cx →
  registries_consistent
    (mkWorld (cleanup_connection (cx_websocket cx) (w_server w))
       (delete ws (w_loops w))) ∧
  queries_tracked
    (mkWorld (cleanup_connection (cx_websocket cx) (w_server w))
       (delete ws (w_loops w))).
Proof.
  intros (R1 & Rs & R2 & R3 & R4) (Q1 & Q2 & Q3) Hcx.
  destruct (R4 ws cx Hcx) as [-> Hsock].
  set (s := w_server w) in *.
  split.
  - split_and!; simpl.
    + intros ws'. rewrite cleanup_active_connections, elem_of_difference,
        elem_of_singleton.
      destruct (decide (ws' = ws)) as [->|Hne].
      * rewrite lookup_delete_eq. by intros [].
      * rewrite lookup_delete_ne by done. intros H. split; [by apply R1|done].
    + intros ws'. rewrite cleanup_active_connections, elem_of_difference,
        cleanup_sockets. intros [H _]. by apply Rs.
    + intros ws'. rewrite cleanup_active_agents, cleanup_message_processors.
      destruct (decide (ws' = ws)) as [->|Hne].
      * rewrite lookup_delete_eq.
        destruct (decide (is_Some (active_agents s !! ws))) as [Hd|Hd].
        -- by rewrite lookup_delete_eq.
        -- split; [by intros []|]. intros Hm. apply R2 in Hm. by destruct Hd.
      * rewrite lookup_delete_ne by done.
        destruct (decide (is_Some (active_agents s !! ws))).
        -- rewrite lookup_delete_ne by done. apply R2.
        -- apply R2.
    + intros ws'. rewrite cleanup_active_agents.
      destruct (decide (ws' = ws)) as [->|Hne].
      * rewrite lookup_delete_eq. by intros [].
      * rewrite !lookup_delete_ne by done. apply R3.
    + intros ws' cx'. rewrite cleanup_sockets.
      destruct (decide (ws' = ws)) as [->|Hne].
      * by rewrite lookup_delete_eq.
      * rewrite lookup_delete_ne by done. apply R4.
  - split_and!; simpl.
    + intros tid ws'. rewrite cleanup_pending_query, cleanup_sockets. apply Q1.
    + intros tid ws'. rewrite cleanup_pending_query.
      destruct (decide (ws' = ws)) as [->|Hne].
      * rewrite lookup_delete_eq. by intros _ [].
      * rewrite lookup_delete_ne by done.
        rewrite cleanup_active_tasks_other by done. apply Q2.
    + intros tid1 tid2 ws'. rewrite !cleanup_pending_query. apply Q3.
Qed.

(** A message was handled and the loop goes on. *)
Lemma continue_invariants w ws cx s' :
  registries_consistent w → queries_tracked w →
  w_loops w !! ws = Some cx →
  registry_step ws (w_server w) s' → query_step ws (w_server w) s' →
  registries_consistent (mkWorld s' (w_loops w)) ∧
  queries_tracked (mkWorld s' (w_loops w)).
Proof.
  intros (R1 & Rs & R2 & R3 & R4) (Q1 & Q2 & Q3) Hcx (Hk & Hc & Hreg) Hq.
  destruct (R4 ws cx Hcx) as [Hws Hsock].
  set (s := w_server w) in *.
  split.
  - split_and!; simpl.
    + intros ws'. rewrite Hc. apply R1.
    + intros ws'. rewrite Hc, Hk. apply Rs.
    + intros ws'. destruct Hreg as [[-> ->]|(a & p & -> & ->)]; [apply R2|].
      destruct (decide (ws' = ws)) as [->|Hne].
      * rewrite !lookup_insert_eq. split; by eexists.
      * rewrite !lookup_insert_ne by done. apply R2.
    + intros ws'.
      destruct Hreg as [[-> _]|(a & p & -> & _)]; [apply R3|].
      destruct (decide (ws' = ws)) as [->|Hne]; [by eexists|].
      rewrite lookup_insert_ne by done. apply R3.
    + intros ws' cx'. rewrite Hk. apply R4.
  - destruct Hq as [[Hat Hp]|(Hfl & Hat & Hp)].
    + split_and!; simpl.
      * intros tid ws'. rewrite Hp, Hk. apply Q1.
      * intros tid ws'. rewrite Hp, Hat. apply Q2.
      * intros tid1 tid2 ws'. rewrite !Hp. apply Q3.
    + assert (Hnone : ∀ tid, pending_query s tid ≠ Some ws).
      { intros tid Hpq.
        assert (Ha : active_tasks s !! ws = Some tid).
        { apply Q2; [done | by eexists]. }
        pose proof (pending_query_in_flight ws tid s Hpq Ha). congruence. }
      split_and!; simpl.
      * intros tid ws'. rewrite Hp, Hk.
        destruct (decide (tid = length (tasks s))); [|apply Q1].
        by intros [= <-].
      * intros tid ws'. rewrite Hp, Hat.
        destruct (decide (tid = length (tasks s))) as [->|Hne].
        -- intros [= <-] _. apply lookup_insert_eq.
        -- intros Hpq Hl.
           destruct (decide (ws' = ws)) as [->|Hne']; [by destruct (Hnone tid)|].
           rewrite lookup_insert_ne by done. by apply Q2.
      * intros tid1 tid2 ws'. rewrite !Hp.
        destruct (decide (tid1 = length (tasks s))) as [->|Hne1];
          destruct (decide (tid2 = length (tasks s))) as [->|Hne2]; try done.
        -- intros [= <-] Hpq. by destruct (Hnone tid2).
        -- intros Hpq [= <-]. by destruct (Hnone tid1).
        -- apply Q3.
Qed.

(** *** A handshake in which the workspace cannot be provisioned *)

Lemma unprovisioned_cases ws h http err s :
  let s1 := set_active_connections ({[ws]} ∪ active_connections s)
              (set_sockets (<[ws := CONNECTED]> (sockets s)) s) in
  (∃ l, websocket_endpoint_unprovisioned ws h http err s =
          (Return Returned,
           emit l (set_sockets (<[ws := DISCONNECTED]> (sockets s)) s))) ∨
  ((∃ uid dev, fetch_user_id http = Some uid ∧
               h_X_Device_ID h = Some dev ∧ dev ≠ "") ∧
   websocket_endpoint_unprovisioned ws h http err s =
     (Raise (Exception err), s1)).
Proof.
  intros s1. unfold websocket_endpoint_unprovisioned.
  assert (Hfail : ∀ msg,
    ∃ l, (accept ws ;; send_json Handler ws (error_event msg) ;;
          close ws ;; mret Returned) s =
         (Return Returned,
          emit l (set_sockets (<[ws := DISCONNECTED]> (sockets s)) s))).
  { intros msg. eexists. unfold mbind, M_bind, accept, modify. simpl.
    rewrite send_json_connected by (simpl; apply lookup_insert_eq).
    unfold close, modify, mret, M_ret, emit, set_sockets. simpl.
    rewrite insert_insert_eq, <- app_assoc. reflexivity. }
  destruct (fetch_user_id http) as [uid|]; [|left; apply Hfail].
  destruct (h_X_Device_ID h) as [dev|]; [|left; apply Hfail].
  destruct (String.eqb dev "") eqn:Hdev; [left; apply Hfail|].
  apply String.eqb_neq in Hdev.
  right. split; [by exists uid, dev|]. reflexivity.
Qed.

(** The handshakes agree as long as the provisioner is not reached. *)
Lemma unprovisioned_as_handshake ws h env err s :
  fetch_user_id (he_http env) = None ∨ h_X_Device_ID h = None ∨
  h_X_Device_ID h = Some "" →
  websocket_endpoint_unprovisioned ws h (he_http env) err s =
  websocket_endpoint_handshake ws h env s.
Proof.
  unfold websocket_endpoint_unprovisioned, websocket_endpoint_handshake.
  intros [->|[->| ->]]; try done;
    by destruct (fetch_user_id (he_http env)).
Qed.

(** *** Every step keeps the invariants *)

Lemma step_invariants w l :
  registries_consistent w → queries_tracked w →
  registries_consistent (step w l) ∧ queries_tracked (step w l).
Proof.
  intros HR HQ.
  pose proof HR as (R1 & Rs & R2 & R3 & R4). pose proof HQ as (Q1 & Q2 & Q3).
  assert (Fresh : ∀ ws, sockets (w_server w) !! ws = None →
            w_loops w !! ws = None ∧ (ws ∉ active_connections (w_server w)) ∧
            active_agents (w_server w) !! ws = None ∧
            message_processors (w_server w) !! ws = None ∧
            ∀ tid, pending_query (w_server w) tid ≠ Some ws).
  { intros ws Hfresh.
    assert (F1 : w_loops w !! ws = None).
    { destruct (w_loops w !! ws) as [cx|] eqn:E; [|done].
      destruct (R4 ws cx E) as [_ [x Hx]]. congruence. }
    assert (F3 : active_agents (w_server w) !! ws = None).
    { destruct (active_agents (w_server w) !! ws) eqn:E; [|done].
      destruct (R3 ws) as [cx Hcx]; [by eexists | congruence]. }
    split_and!; try done.
    - intros Hin. apply Rs in Hin as [x Hx]. congruence.
    - apply eq_None_not_Some. intros Hm. apply R2 in Hm as [x Hx]. congruence.
    - intros tid Hpq. destruct (Q1 tid ws Hpq) as [x Hx]. congruence. }
  assert (Closed_early : ∀ ws l0,
            sockets (w_server w) !! ws = None →
            registries_consistent
              (mkWorld (emit l0 (set_sockets
                                   (<[ws := DISCONNECTED]> (sockets (w_server w)))
                                   (w_server w))) (w_loops w)) ∧
            queries_tracked
              (mkWorld (emit l0 (set_sockets
                                   (<[ws := DISCONNECTED]> (sockets (w_server w)))
                                   (w_server w))) (w_loops w))).
  { intros ws l0 Hfresh. split.
    - split_and!; simpl; try done.
      + intros ws' Hin. destruct (decide (ws' = ws)) as [->|Hne].
        * rewrite lookup_insert_eq. by eexists.
        * rewrite lookup_insert_ne by done. by apply Rs.
      + intros ws' cx' Hl. destruct (R4 ws' cx' Hl) as [Hw Hsk]. split; [done|].
        destruct (decide (ws' = ws)) as [->|Hne].
        * rewrite lookup_insert_eq. by eexists.
        * by rewrite lookup_insert_ne.
    - split_and!; simpl; try done.
      intros tid ws' Hpq. destruct (decide (ws' = ws)) as [->|Hne].
      + rewrite lookup_insert_eq. by eexists.
      + rewrite lookup_insert_ne by done. by eapply Q1. }
  destruct l as [ws h env|ws i orc|ws|tid ev|ws h http err]; simpl.
  - (* a client connects *)
    destruct (sockets (w_server w) !! ws) as [st|] eqn:Hfresh; [done|].
    destruct (Fresh ws Hfresh) as (F1 & F2 & F3 & F3' & F4).
    set (s := w_server w) in *.
    destruct (handshake_cases ws h env s) as [(cx & Hh & Hcx)|[(l & Hh)|Hh]];
      rewrite Hh.
    + split.
      * split_and!; simpl.
        -- intros ws'. rewrite elem_of_union, elem_of_singleton.
           destruct (decide (ws' = ws)) as [->|Hne]; [by left|].
           rewrite lookup_insert_ne by done. intros H. right. by apply R1.
        -- intros ws'. rewrite elem_of_union, elem_of_singleton.
           destruct (decide (ws' = ws)) as [->|Hne].
           ++ rewrite lookup_insert_eq. by eexists.
           ++ rewrite lookup_insert_ne by done. intros [|H]; [done|].
              by apply Rs.
        -- apply R2.
        -- intros ws' Ha. destruct (decide (ws' = ws)) as [->|Hne].
           ++ rewrite lookup_insert_eq. by eexists.
           ++ rewrite lookup_insert_ne by done. by apply R3.
        -- intros ws' cx'. destruct (decide (ws' = ws)) as [->|Hne].
           ++ rewrite !lookup_insert_eq. intros [= <-]. split; [done|by eexists].
           ++ rewrite !lookup_insert_ne by done. apply R4.
      * split_and!; simpl.
        -- intros tid ws' Hpq. destruct (decide (ws' = ws)) as [->|Hne].
           ++ rewrite lookup_insert_eq. by eexists.
           ++ rewrite lookup_insert_ne by done. by eapply Q1.
        -- intros tid ws' Hpq. destruct (decide (ws' = ws)) as [->|Hne].
           ++ by destruct (F4 tid).
           ++ rewrite lookup_insert_ne by done. by apply Q2.
        -- apply Q3.
    + by apply Closed_early.
    + set (s1 := set_active_connections _ _).
      split.
      * split_and!; simpl.
        -- intros ws' Hl. rewrite cleanup_active_connections, elem_of_difference,
             elem_of_singleton. simpl.
           rewrite elem_of_union, elem_of_singleton.
           split; [right; by apply R1|]. intros ->.
           destruct Hl as [x Hx]. congruence.
        -- intros ws'. rewrite cleanup_active_connections, elem_of_difference,
             elem_of_singleton, cleanup_sockets. simpl.
           rewrite elem_of_union, elem_of_singleton.
           intros [[|Hin] Hne]; [done|].
           rewrite lookup_insert_ne by done. by apply Rs.
        -- intros ws'. rewrite cleanup_active_agents, cleanup_message_processors.
           simpl. rewrite F3.
           destruct (decide (is_Some None)) as [[]|_]; [done|].
           destruct (decide (ws' = ws)) as [->|Hne].
           ++ rewrite lookup_delete_eq, F3'. done.
           ++ rewrite lookup_delete_ne by done. apply R2.
        -- intros ws'. rewrite cleanup_active_agents. simpl.
           destruct (decide (ws' = ws)) as [->|Hne].
           ++ rewrite lookup_delete_eq. by intros [].
           ++ rewrite lookup_delete_ne by done. apply R3.
        -- intros ws' cx' Hl. rewrite cleanup_sockets. simpl.
           destruct (R4 ws' cx' Hl) as [Hw Hsk]. split; [done|].
           destruct (decide (ws' = ws)) as [->|Hne].
           ++ rewrite lookup_insert_eq. by eexists.
           ++ by rewrite lookup_insert_ne.
      * split_and!; simpl.
        -- intros tid ws'. rewrite cleanup_pending_query, cleanup_sockets. simpl.
           intros Hpq. destruct (decide (ws' = ws)) as [->|Hne].
           ++ rewrite lookup_insert_eq. by eexists.
           ++ rewrite lookup_insert_ne by done. by eapply Q1.
        -- intros tid ws'. rewrite cleanup_pending_query. intros Hpq Hl.
           destruct (decide (ws' = ws)) as [->|Hne]; [by destruct (F4 tid)|].
           rewrite cleanup_active_tasks_other by done. by apply Q2.
        -- intros tid1 tid2 ws'. rewrite !cleanup_pending_query. apply Q3.
  - (* a frame arrives, or the client is found gone *)
    destruct (w_loops w !! ws) as [cx|] eqn:Hcx; [|done].
    destruct (R4 ws cx Hcx) as [Hws Hsock].
    destruct (sockets (w_server w) !! ws) as [[]|] eqn:Hs;
      try (by apply cleanup_world_invariants).
    destruct i as [|d|err]; try (by apply cleanup_world_invariants).
    rewrite <- Hws in Hs.
    destruct (on_receive_shape cx orc d (w_server w) Hs) as (s' & Hr & Hreg & Hq).
    unfold loop_iteration. rewrite Hr. rewrite Hws in Hreg, Hq.
    by eapply continue_invariants.
  - (* the client goes away *)
    destruct (sockets (w_server w) !! ws) as [st|] eqn:Hs; [|done].
    split.
    + split_and!; simpl; try done.
      * intros ws' Hin. destruct (decide (ws' = ws)) as [->|Hne].
        -- rewrite lookup_insert_eq. by eexists.
        -- rewrite lookup_insert_ne by done. by apply Rs.
      * intros ws' cx' Hl. destruct (R4 ws' cx' Hl) as [Hw Hsk]. split; [done|].
        destruct (decide (ws' = ws)) as [->|Hne].
        -- rewrite lookup_insert_eq. by eexists.
        -- by rewrite lookup_insert_ne.
    + split_and!; simpl; try done.
      intros tid ws' Hpq. destruct (decide (ws' = ws)) as [->|Hne].
      * rewrite lookup_insert_eq. by eexists.
      * rewrite lookup_insert_ne by done. by eapply Q1.
  - (* a task runs *)
    destruct (task_step_registry tid ev (w_server w)) as (Hk & Hc & Haa & Hmp).
    split.
    + split_and!; simpl.
      * intros ws'. rewrite Hc. apply R1.
      * intros ws'. rewrite Hc, Hk. apply Rs.
      * intros ws'. rewrite Haa, Hmp. apply R2.
      * intros ws'. rewrite Haa. apply R3.
      * intros ws' cx'. rewrite Hk. apply R4.
    + destruct (task_step_queries tid ev (w_server w))
        as [[Hat Hp]|(ws0 & Hp0 & Hp & Hat)].
      * split_and!; simpl.
        -- intros tid' ws'. rewrite Hp, Hk. apply Q1.
        -- intros tid' ws'. rewrite Hp, Hat. apply Q2.
        -- intros tid1 tid2 ws'. rewrite !Hp. apply Q3.
      * split_and!; simpl.
        -- intros tid' ws'. rewrite Hp, Hk.
           destruct (decide (tid' = tid)); [done | apply Q1].
        -- intros tid' ws'. rewrite Hp.
           destruct (decide (tid' = tid)) as [->|Hne]; [done|].
           intros Hpq Hl. destruct Hat as [-> | ->]; [by apply Q2|].
           destruct (decide (ws' = ws0)) as [->|Hne'].
           ++ destruct Hne. by apply (Q3 tid' tid ws0).
           ++ rewrite lookup_delete_ne by done. by apply Q2.
        -- intros tid1 tid2 ws'. rewrite !Hp.
           destruct (decide (tid1 = tid)); [done|].
           destruct (decide (tid2 = tid)); [done|]. apply Q3.
  - (* a client connects, and its workspace cannot be provisioned *)
    destruct (sockets (w_server w) !! ws) as [st|] eqn:Hfresh; [done|].
    destruct (Fresh ws Hfresh) as (F1 & F2 & F3 & F3' & F4).
    destruct (unprovisioned_cases ws h http err (w_server w))
      as [(l & Hh)|[_ Hh]]; rewrite Hh; simpl.
    + by apply Closed_early.
    + split.
      * split_and!; simpl; try done.
        -- intros ws' Hl. apply elem_of_union. right. by apply R1.
        -- intros ws'. rewrite elem_of_union, elem_of_singleton.
           destruct (decide (ws' = ws)) as [->|Hne].
           ++ rewrite lookup_insert_eq. by eexists.
           ++ rewrite lookup_insert_ne by done. intros [|H]; [done|].
              by apply Rs.
        -- intros ws' cx' Hl. destruct (R4 ws' cx' Hl) as [Hw Hsk].
           split; [done|]. destruct (decide (ws' = ws)) as [->|Hne].
           ++ rewrite lookup_insert_eq. by eexists.
           ++ by rewrite lookup_insert_ne.
      * split_and!; simpl; try done.
        intros tid ws' Hpq. destruct (decide (ws' = ws)) as [->|Hne].
        -- rewrite lookup_insert_eq. by eexists.
        -- rewrite lookup_insert_ne by done. by eapply Q1.
Qed.

Lemma run_invariants ls w :
  registries_consistent w → queries_tracked w →
  registries_consistent (run ls w) ∧ queries_tracked (run ls w).
Proof.
  revert w. induction ls as [|l ls IH]; intros w HR HQ; [done|].
  simpl. destruct (step_invariants w l HR HQ) as [HR' HQ']. by apply IH.
Qed.

(** *** A registered socket without an endpoint stays registered *)

Lemma stale_cleanup w ws ws' :
  ws' ≠ ws → stale_connection w ws →
  stale_connection
    (mkWorld (cleanup_connection ws' (w_server w)) (delete ws' (w_loops w))) ws.
Proof.
  intros Hne (Hin & Hl & Hsk). split_and!; simpl.
  - rewrite cleanup_active_connections, elem_of_difference, elem_of_singleton.
    split; [done | by intros ->].
  - by rewrite lookup_delete_ne.
  - by rewrite cleanup_sockets.
Qed.

Lemma stale_step w l ws :
  registries_consistent w → stale_connection w ws →
  stale_connection (step w l) ws.
Proof.
  intros (R1 & Rs & R2 & R3 & R4) Hst. pose proof Hst as (Hin & Hl & Hsk).
  assert (Hsock : ∀ ws' st, ws' ≠ ws →
            is_Some (<[ws' := st]> (sockets (w_server w)) !! ws)).
  { intros ws' st Hne. by rewrite lookup_insert_ne. }
  destruct l as [ws' h env|ws' i orc|ws'|tid ev|ws' h http err]; simpl.
  - destruct (sockets (w_server w) !! ws') as [st|] eqn:Hfresh; [done|].
    assert (Hne : ws' ≠ ws) by (intros ->; destruct Hsk; congruence).
    destruct (handshake_cases ws' h env (w_server w))
      as [(cx & Hh & Hcx)|[(l & Hh)|Hh]]; rewrite Hh.
    + split_and!; simpl.
      * apply elem_of_union. by right.
      * by rewrite lookup_insert_ne.
      * by apply Hsock.
    + split_and!; simpl; try done. by apply Hsock.
    + split_and!; simpl; try done.
      * rewrite cleanup_active_connections, elem_of_difference,
          elem_of_singleton. simpl.
        split; [apply elem_of_union; by right | by intros ->].
      * rewrite cleanup_sockets. simpl. by apply Hsock.
  - destruct (w_loops w !! ws') as [cx|] eqn:Hcx; [|done].
    assert (Hne : ws' ≠ ws) by (intros ->; congruence).
    destruct (R4 ws' cx Hcx) as [Hws _].
    destruct (sockets (w_server w) !! ws') as [[]|] eqn:Hs;
      try (simpl; rewrite Hws; by apply stale_cleanup).
    destruct i as [|d|err];
      try (simpl; rewrite Hws; by apply stale_cleanup).
    rewrite <- Hws in Hs.
    destruct (on_receive_shape cx orc d (w_server w) Hs)
      as (s' & Hr & (Hk & Hc & _) & _).
    unfold loop_iteration. rewrite Hr. split_and!; simpl; try done.
    + by rewrite Hc.
    + by rewrite Hk.
  - destruct (sockets (w_server w) !! ws') as [st|] eqn:Hs; [|done].
    split_and!; simpl; try done.
    destruct (decide (ws' = ws)) as [->|Hne].
    + rewrite lookup_insert_eq. by eexists.
    + by apply Hsock.
  - destruct (task_step_registry tid ev (w_server w)) as (Hk & Hc & _).
    split_and!; simpl; try done.
    + by rewrite Hc.
    + by rewrite Hk.
  - destruct (sockets (w_server w) !! ws') as [st|] eqn:Hfresh; [done|].
    assert (Hne : ws' ≠ ws) by (intros ->; destruct Hsk; congruence).
    destruct (unprovisioned_cases ws' h http err (w_server w))
      as [(l & Hh)|[_ Hh]]; rewrite Hh; simpl.
    + split_and!; simpl; try done. by apply Hsock.
    + split_and!; simpl; try done.
      * apply elem_of_union. by right.
      * by apply Hsock.
Qed.

Lemma stale_run ls w ws :
  registries_consistent w → queries_tracked w → stale_connection w ws →
  stale_connection (run ls w) ws.
Proof.
  revert w. induction ls as [|l ls IH]; intros w HR HQ Hst; [done|].
  simpl. destruct (step_invariants w l HR HQ) as [HR' HQ'].
  apply IH; try done. by apply stale_step.
Qed.

(** The socket of an authenticated client whose workspace cannot be
    provisioned is left in [active_connections]. *)
Lemma unprovisioned_stale w ws h http err uid dev :
  registries_consistent w →
  sockets (w_server w) !! ws = None →
  fetch_user_id http = Some uid → h_X_Device_ID h = Some dev → dev ≠ "" →
  stale_connection (step w (ConnectUnprovisioned ws h http err)) ws.
Proof.
  intros (R1 & Rs & R2 & R3 & R4) Hfresh Hid Hdev Hne. simpl. rewrite Hfresh.
  assert (F1 : w_loops w !! ws = None).
  { destruct (w_loops w !! ws) as [cx|] eqn:E; [|done].
    destruct (R4 ws cx E) as [_ [x Hx]]. congruence. }
  destruct (unprovisioned_cases ws h http err (w_server w))
    as [(l & Hh)|[_ Hh]].
  - exfalso. revert Hh. unfold websocket_endpoint_unprovisioned.
    rewrite Hid, Hdev. apply String.eqb_neq in Hne. rewrite Hne.
    unfold mbind, M_bind, accept, modify, raise. simpl. congruence.
  - rewrite Hh. split_and!; simpl; try done.
    + apply elem_of_union. left. by apply elem_of_singleton.
    + rewrite lookup_insert_eq. by eexists.
Qed.

End Invariants.

(** X24: in every state the server can reach, the dictionaries agree
    with the endpoint coroutines to this extent: every endpoint that
    is in its dispatch loop has its socket in [active_connections]; a
    connection has an entry in [active_agents] exactly when it has one
    in [message_processors], and only while its endpoint is in the
    dispatch loop. The converse of the first does not hold: when
    [create_workspace_manager_for_connection] raises during the
    handshake of a client with an identity and a device id, the socket
    has been added to [active_connections] and the endpoint is gone;
    the socket then stays in [active_connections] in every later
    state. (Nor does such a statement hold for [active_tasks], whose
    entry can outlive the connection.) *)
Theorem registries_stay_consistent :
  ∀ (ls : list Label),
    let w := run ls boot in
    (∀ ws, is_Some (w_loops w !! ws) → ws ∈ active_connections (w_server w)) ∧
    (∀ ws, is_Some (active_agents (w_server w) !! ws) ↔
           is_Some (message_processors (w_server w) !! ws)) ∧
    (∀ ws, is_Some (active_agents (w_server w) !! ws) →
           is_Some (w_loops w !! ws)) ∧
    (∀ (ws : nat) (h : Headers) (http : HttpOutcome) (err : string)
       (uid : PyValue) (dev : string) (ls' : list Label),
       sockets (w_server w) !! ws = None →
       fetch_user_id http = Some uid →
       h_X_Device_ID h = Some dev → dev ≠ "" →
       let w' := run (ConnectUnprovisioned ws h http err :: ls') w in
       ws ∈ active_connections (w_server w') ∧ w_loops w' !! ws = None).
Proof.
  intros ls w.
  destruct (run_invariants ls boot boot_registries boot_queries)
    as [HR HQ].
  fold w in HR, HQ. pose proof HR as (R1 & _ & R2 & R3 & _).
  split_and!; try done.
  intros ws h http err uid dev ls' Hfresh Hid Hdev Hne w'.
  pose proof (unprovisioned_stale w ws h http err uid dev HR Hfresh Hid Hdev Hne)
    as Hst.
  destruct (step_invariants w (ConnectUnprovisioned ws h http err) HR HQ)
    as [HR' HQ'].
  destruct (stale_run ls' _ ws HR' HQ' Hst) as (Hin & Hl & _).
  by split.
Qed.

Lemma registries_stay_consistent_witness :
  let http := Response 200 (JsonObject [("user_id", PyStr "u1")]) in
  let w' := run [ConnectUnprovisioned 0 dev1_headers http "disk full";
                 ClientDrop 0;
                 Receive 0 ClientGone calm;
                 Connect 1 dev1_headers u1_env] boot in
  0%nat ∈ active_connections (w_server w') ∧ w_loops w' !! 0%nat = None.
Proof.
  intros http w'.
  destruct (registries_stay_consistent []) as (_ & _ & _ & H).
  apply (H 0%nat dev1_headers http "disk full" (PyStr "u1") "dev1"
           [ClientDrop 0; Receive 0 ClientGone calm;
            Connect 1 dev1_headers u1_env]); try reflexivity.
  discriminate.
Defined.

(** X25: in every state the server can reach, a connection has at most
    one query task that is not done, and while the connection's
    dispatch loop runs, that task is the one recorded for the
    connection in [active_tasks]. So a second query task is never
    started for a connection while an earlier one is pending or
    running. (The statement is about the asyncio tasks, not about the
    agent calls they start.) *)
Theorem one_query_task_per_connection :
  ∀ (ls : list Label),
    let w := run ls boot in
    one_query_per_connection (w_server w) ∧
    ∀ tid ws,
      pending_query (w_server w) tid = Some ws →
      is_Some (w_loops w !! ws) →
      active_tasks (w_server w) !! ws = Some tid.
Proof.
  intros ls w.
  destruct (run_invariants ls boot boot_registries boot_queries)
    as [_ (_ & Q2 & Q3)].
  done.
Qed.

(* ===================================================================== *)
(** * More properties of the upload endpoint                             *)
(* ===================================================================== *)

Section UploadEdges.
Import Upload.

Implicit Types (fs : gmap (list string) Node) (d p q : list string)
  (n : string).

Lemma simple_name_free n : simple_name n = true → free_of "/" n = true.
Proof.
  intros (_ & Hp & _)%simple_name_spec.
  pose proof (parts_all_free n) as H. rewrite Hp in H.
  by inversion H.
Qed.

Lemma stem_suffix_free n :
  simple_name n = true →
  free_of "/" (stem [n]) = true ∧ free_of "/" (suffix [n]) = true.
Proof.
  intros Hn. pose proof (simple_name_free n Hn) as Hf.
  split; [apply stem_free | apply suffix_free]; by repeat constructor.
Qed.

Lemma snoc_ne d n : d ≠ d ++ [n].
Proof.
  intros E. apply (f_equal length) in E. rewrite length_app in E.
  simpl in E. lia.
Qed.

(** The collision loop on a simple name that is taken. *)
Lemma upload_collision cfg sid n content data fs :
  workspace_ready cfg sid fs = true →
  simple_name n = true →
  is_Some (fs !! (upload_dir_of cfg sid ++ [n])) →
  decode_content cfg content = Some data →
  ∃ k, (1 ≤ k)%nat ∧
    (∀ j, (1 ≤ j < k)%nat →
          is_Some (fs !! (upload_dir_of cfg sid ++
                            [candidate (stem [n]) (suffix [n]) j]))) ∧
    fs !! (upload_dir_of cfg sid ++ [candidate (stem [n]) (suffix [n]) k])
      = None ∧
    upload_file_endpoint cfg (upload_request sid n content) fs =
      (Uploaded ("/" +:+ UPLOAD_FOLDER_NAME cfg +:+ "/" +:+
                   candidate (stem [n]) (suffix [n]) k)
                (render (upload_dir_of cfg sid ++
                           [candidate (stem [n]) (suffix [n]) k])),
       <[upload_dir_of cfg sid ++ [candidate (stem [n]) (suffix [n]) k]
           := File data]>
         (<[upload_dir_of cfg sid := Dir]> fs)).
Proof.
  intros Hready Hn [old Hold] Hdec.
  destruct (workspace_ready_facts cfg sid fs Hready)
    as (Hsid & Hup & Hud & HpW & Hpud & HchW & Hmk & Hch1).
  pose proof Hn as (Hrel & _ & Hn')%simple_name_spec.
  destruct (stem_suffix_free n Hn) as [Hst Hsu].
  set (ud := upload_dir_of cfg sid) in *.
  set (fs1 := <[ud := Dir]> fs) in *.
  set (cand := candidate (stem [n]) (suffix [n])).
  assert (Hcand : ∀ j, simple_name (cand j) = true).
  { intros j. by apply candidate_simple. }
  assert (Hex : ∀ j, path_exists fs1 (joinpath ud (cand j)) =
                     match fs !! (ud ++ [cand j]) with
                     | Some _ => true
                     | None => false
                     end).
  { intros j. rewrite (simple_name_joinpath _ _ (Hcand j)).
    pose proof (Hcand j) as (_ & _ & Hj')%simple_name_spec.
    rewrite (path_exists_child _ ud _ Hch1 Hpud Hj').
    unfold fs1. by rewrite lookup_insert_ne by apply snoc_ne. }
  destruct (unique_path_total fs1 ud (stem [n]) (suffix [n]) 1 Hst Hsu)
    as [p Hp].
  destruct (unique_path_first_free _ _ _ _ _ _ _ Hp)
    as (k & Hk & Hpk & Hfree & Hbefore).
  fold (candidate (stem [n]) (suffix [n]) k) in Hpk. fold cand in Hpk.
  subst p.
  exists k. split; [lia|].
  assert (Hfree' : fs !! (ud ++ [cand k]) = None).
  { revert Hfree. rewrite Hex. by destruct (fs !! (ud ++ [cand k])). }
  split; [|split; [done|]].
  { intros j Hj. specialize (Hbefore j Hj).
    fold (candidate (stem [n]) (suffix [n]) j) in Hbefore. fold cand in Hbefore.
    revert Hbefore. rewrite Hex.
    destruct (fs !! (ud ++ [cand j])); [by eexists | done]. }
  pose proof (Hcand k) as Hck.
  pose proof Hck as (_ & _ & Hk')%simple_name_spec.
  subst fs1.
  unfold upload_file_endpoint, upload_request. simpl.
  rewrite (simple_name_nonempty sid Hsid).
  rewrite (simple_name_joinpath _ sid Hsid).
  rewrite (path_exists_directory fs _ HchW HpW). simpl.
  rewrite (simple_name_joinpath _ _ Hup), <- Hud, Hmk.
  rewrite (simple_name_nonempty n Hn), Hrel.
  rewrite (simple_name_joinpath _ n Hn).
  rewrite (path_exists_child _ ud n Hch1 Hpud Hn').
  rewrite lookup_insert_ne, Hold by apply snoc_ne.
  rewrite stem_snoc, suffix_snoc. simpl in Hp. rewrite Hp.
  rewrite (simple_name_joinpath _ _ Hck).
  rewrite drop_app_length. simpl.
  rewrite parent_snoc, (path_mkdir_existing _ ud Hch1 Hpud), Hdec.
  rewrite write_file_child; try done.
  by rewrite lookup_insert_ne, Hfree' by apply snoc_ne.
Qed.

(** ** What an upload that fails leaves behind *)

Lemma only_new_dirs_refl fs : only_new_dirs fs fs.
Proof. intros p. by left. Qed.

Lemma only_new_dirs_trans fs1 fs2 fs3 :
  only_new_dirs fs1 fs2 → only_new_dirs fs2 fs3 → only_new_dirs fs1 fs3.
Proof.
  intros H1 H2 p. destruct (H1 p) as [E1|[N1 D1]], (H2 p) as [E2|[N2 D2]].
  - left. congruence.
  - right. split; congruence.
  - right. split; congruence.
  - congruence.
Qed.

Lemma os_mkdir_new_dirs fs p fs' :
  os_mkdir fs p = inr fs' → only_new_dirs fs fs'.
Proof.
  unfold os_mkdir. destruct (resolve fs p) as [e|q]; [done|].
  destruct (node_at fs q) as [node|] eqn:En; [done|]. intros [= <-] x.
  destruct (decide (q = x)) as [<-|Hne].
  - right. rewrite lookup_insert_eq. split; [|done]. by destruct q.
  - left. by rewrite lookup_insert_ne.
Qed.

Lemma exist_ok_new_dirs fs p (e : OsError) exist_ok fs' :
  (if negb exist_ok || negb (path_is_dir fs p)
   then inl (e, fs) else inr fs) = inr fs' →
  only_new_dirs fs fs'.
Proof.
  destruct (negb exist_ok || negb (path_is_dir fs p)); [done|].
  intros [= <-]. apply only_new_dirs_refl.
Qed.

(** [mkdir] creates directories where there was nothing, and nothing
    else. *)
Lemma path_mkdir_rec_new_dirs depth fs p parents exist_ok fs' :
  path_mkdir_rec depth fs p parents exist_ok = inr fs' → only_new_dirs fs fs'.
Proof.
  revert fs p parents exist_ok fs'.
  induction depth as [|depth IH]; intros fs p parents exist_ok fs'; simpl.
  - destruct (os_mkdir fs p) as [e|fs1] eqn:E.
    + destruct e; try apply exist_ok_new_dirs.
      by destruct (negb parents || bool_decide (parent p = p)).
    + intros [= <-]. by apply os_mkdir_new_dirs in E.
  - destruct (os_mkdir fs p) as [e|fs1] eqn:E.
    + destruct e; try apply exist_ok_new_dirs.
      destruct (negb parents || bool_decide (parent p = p)); [done|].
      destruct (path_mkdir_rec depth fs (parent p) true true)
        as [e1|fs1] eqn:E1; [done|].
      intros H2. eapply only_new_dirs_trans; by eapply IH.
    + intros [= <-]. by apply os_mkdir_new_dirs in E.
Qed.

(** The answers that are not 500 are the four explicit refusals. *)
Lemma upload_refusal_new_dirs cfg req fs status err fs' :
  upload_file_endpoint cfg req fs = (JSONResponse status err, fs') →
  status ≠ 500 →
  (status = 400 ∨ status = 404) ∧
  only_new_dirs fs fs' ∧
  (err ≠ "File path is required" → fs' = fs).
Proof.
  unfold upload_file_endpoint.
  destruct (r_session_id req) as [session_id|];
    [|intros [= <- <- <-] _; split_and!;
        [by left | apply only_new_dirs_refl | done]].
  destruct (String.eqb session_id "");
    [intros [= <- <- <-] _; split_and!;
       [by left | apply only_new_dirs_refl | done]|].
  destruct (r_file req) as [file_info|];
    [|intros [= <- <- <-] _; split_and!;
        [by left | apply only_new_dirs_refl | done]].
  destruct (negb (path_exists fs (joinpath (workspace cfg) session_id)));
    [intros [= <- <- <-] _; split_and!;
       [by right | apply only_new_dirs_refl | done]|].
  set (upload_dir := joinpath (joinpath (workspace cfg) session_id)
                       (UPLOAD_FOLDER_NAME cfg)).
  destruct (path_mkdir fs upload_dir) as [[e ?]|fs1] eqn:E1;
    [by intros [= <- <- <-]|].
  apply path_mkdir_rec_new_dirs in E1.
  destruct (String.eqb (fi_path file_info) "").
  { intros [= <- <- <-] _. split_and!; [by left | done | done]. }
  set (file_path := if is_absolute (fi_path file_info)
                    then name (parts (fi_path file_info))
                    else fi_path file_info).
  set (original_path := joinpath upload_dir file_path).
  set (renamed := if path_exists fs1 original_path then _ else _).
  destruct renamed as [[full_path file_path']|]; [|by intros [= <- <- <-]].
  destruct (path_mkdir fs1 (parent full_path)) as [[e ?]|fs2];
    [by intros [= <- <- <-]|].
  destruct (decode_content cfg (fi_content file_info)) as [data|];
    [|by intros [= <- <- <-]].
  destruct (write_file fs2 full_path data) as [e|fs3]; [|done].
  by intros [= <- <- <-].
Qed.

Lemma upload_undecodable cfg sid file fs :
  decode_content cfg (fi_content file) = None →
  ∃ status err,
    (upload_file_endpoint cfg (mkRequest sid (Some file)) fs).1
      = JSONResponse status err.
Proof.
  intros Hdec. unfold upload_file_endpoint. simpl.
  destruct sid as [session_id|]; [|by eexists _, _].
  destruct (String.eqb session_id ""); [by eexists _, _|].
  destruct (negb (path_exists fs (joinpath (workspace cfg) session_id)));
    [by eexists _, _|].
  destruct (path_mkdir fs _) as [[e ?]|fs1]; [by eexists _, _|].
  destruct (String.eqb (fi_path file) ""); [by eexists _, _|].
  match goal with
  | |- context [match ?r with Some _ => _ | None => _ end] =>
      destruct r as [[full_path file_path']|]
  end; [|by eexists _, _].
  destruct (path_mkdir fs1 (parent full_path)) as [[e ?]|fs2]; [by eexists _, _|].
  rewrite Hdec. by eexists _, _.
Qed.

(** A data URL without a comma cannot be unpacked into header and
    payload. *)
Lemma split_first_free sep s : free_of sep s = true → split_first sep s = None.
Proof.
  induction s as [|c s IH]; simpl; [done|].
  intros [Hc Hs]%andb_true_iff. apply negb_true_iff in Hc.
  by rewrite Hc, IH.
Qed.

Lemma decode_content_None cfg content :
  decode_content cfg content = None ↔
  String.prefix "data:" content = true ∧
  match split_first "," content with
  | Some (_, encoded) => b64decode cfg encoded = None
  | None => True
  end.
Proof.
  unfold decode_content.
  destruct (String.prefix "data:" content); [|by intuition].
  destruct (split_first "," content) as [[h encoded]|]; [|by intuition].
  destruct (b64decode cfg encoded); simpl; by intuition.
Qed.

Lemma upload_empty_path_ready cfg sid content fs :
  workspace_ready cfg sid fs = true →
  upload_file_endpoint cfg (upload_request sid "" content) fs =
    (JSONResponse 400 "File path is required",
     <[upload_dir_of cfg sid := Dir]> fs).
Proof.
  intros Hready.
  destruct (workspace_ready_facts cfg sid fs Hready)
    as (Hsid & Hup & Hud & HpW & Hpud & HchW & Hmk & Hch1).
  unfold upload_file_endpoint, upload_request. simpl.
  rewrite (simple_name_nonempty sid Hsid).
  rewrite (simple_name_joinpath _ sid Hsid).
  rewrite (path_exists_directory fs _ HchW HpW). simpl.
  by rewrite (simple_name_joinpath _ _ Hup), <- Hud, Hmk.
Qed.

(** [report.pdf] uploaded twice. *)
Lemma report_pdf_twice cfg sid c1 c2 data1 data2 fs :
  let ud := upload_dir_of cfg sid in
  workspace_ready cfg sid fs = true →
  fs !! (ud ++ ["report.pdf"]) = None →
  decode_content cfg c1 = Some data1 →
  decode_content cfg c2 = Some data2 →
  let r1 := upload_file_endpoint cfg (upload_request sid "report.pdf" c1) fs in
  let r2 := upload_file_endpoint cfg (upload_request sid "report.pdf" c2) r1.2 in
  r1 = (Uploaded ("/" +:+ UPLOAD_FOLDER_NAME cfg +:+ "/" +:+ "report.pdf")
          (render (ud ++ ["report.pdf"])),
        <[ud ++ ["report.pdf"] := File data1]> (<[ud := Dir]> fs)) ∧
  ∃ k, (1 ≤ k)%nat ∧
    (∀ j, (1 ≤ j < k)%nat →
          is_Some (fs !! (ud ++ [candidate "report" ".pdf" j]))) ∧
    fs !! (ud ++ [candidate "report" ".pdf" k]) = None ∧
    (fs !! (ud ++ ["report_1.pdf"]) = None → k = 1%nat) ∧
    r2 = (Uploaded
            ("/" +:+ UPLOAD_FOLDER_NAME cfg +:+ "/" +:+
               candidate "report" ".pdf" k)
            (render (ud ++ [candidate "report" ".pdf" k])),
          <[ud ++ [candidate "report" ".pdf" k] := File data2]>
            (<[ud ++ ["report.pdf"] := File data1]> (<[ud := Dir]> fs))).
Proof.
  intros ud Hready Hf0 Hdec1 Hdec2 r1 r2.
  assert (E1 : r1 = (Uploaded
             ("/" +:+ UPLOAD_FOLDER_NAME cfg +:+ "/" +:+ "report.pdf")
             (render (ud ++ ["report.pdf"])),
           <[ud ++ ["report.pdf"] := File data1]> (<[ud := Dir]> fs))).
  { unfold r1. by apply upload_fresh. }
  split; [exact E1|].
  assert (Hc : ∀ j, ud ++ ["report.pdf"] ≠ ud ++ [candidate "report" ".pdf" j]).
  { intros j E. apply app_inv_head in E. injection E as E.
    pose proof (candidate_has_underscore "report" ".pdf" j) as Hu.
    by rewrite <- E in Hu. }
  assert (Hl : ∀ j, r1.2 !! (ud ++ [candidate "report" ".pdf" j]) =
                    fs !! (ud ++ [candidate "report" ".pdf" j])).
  { intros j. rewrite E1. simpl.
    rewrite lookup_insert_ne by apply Hc.
    by rewrite lookup_insert_ne by apply snoc_ne. }
  destruct (upload_collision cfg sid "report.pdf" c2 data2 r1.2)
    as (k & Hk & Hbefore & Hfree & Hr2).
  - rewrite E1. simpl. by apply workspace_ready_after_upload.
  - reflexivity.
  - rewrite E1. simpl. rewrite lookup_insert_eq. by eexists.
  - done.
  - change (stem ["report.pdf"]) with "report" in *.
    change (suffix ["report.pdf"]) with ".pdf" in *.
    fold ud in Hbefore, Hfree, Hr2.
    exists k. split; [done|]. split_and!.
    + intros j Hj. rewrite <- Hl. by apply Hbefore.
    + by rewrite <- Hl.
    + intros H1. destruct (decide (k = 1%nat)) as [->|Hne]; [done|].
      destruct (Hbefore 1%nat ltac:(lia)) as [x Hx].
      rewrite Hl in Hx.
      change (candidate "report" ".pdf" 1) with "report_1.pdf" in Hx.
      congruence.
    + unfold r2. rewrite Hr2. f_equal. rewrite E1. simpl.
      f_equal. rewrite insert_insert_ne by apply snoc_ne.
      by rewrite insert_insert_eq.
Qed.

End UploadEdges.

(** C8: with the session's workspace in place and no [report.pdf] in
    its upload folder, uploading [report.pdf] twice (with contents that
    decode) stores the first file as [report.pdf]. The second upload
    finds that name taken and tries [report_1.pdf], [report_2.pdf], ...
    in this order until a name is free: the file is stored under the
    first free name [report_k.pdf], every name tried before it being
    taken. So the second file is [report_1.pdf] when that name is free.
    After the second upload the first file still has the content of
    the first upload, and nothing else has changed. *)
Theorem report_pdf_uploaded_twice :
  ∀ (cfg : Upload.Config) (sid c1 c2 : string) (d1 d2 : Upload.FileData)
    (fs : gmap (list string) Upload.Node),
    let ud := upload_dir_of cfg sid in
    workspace_ready cfg sid fs = true →
    fs !! (ud ++ ["report.pdf"]) = None →
    Upload.decode_content cfg c1 = Some d1 →
    Upload.decode_content cfg c2 = Some d2 →
    let r1 := Upload.upload_file_endpoint cfg
                (upload_request sid "report.pdf" c1) fs in
    let r2 := Upload.upload_file_endpoint cfg
                (upload_request sid "report.pdf" c2) r1.2 in
    r1.1 = Upload.Uploaded
             ("/" +:+ Upload.UPLOAD_FOLDER_NAME cfg +:+ "/" +:+ "report.pdf")
             (Upload.render (ud ++ ["report.pdf"])) ∧
    r1.2 !! (ud ++ ["report.pdf"]) = Some (Upload.File d1) ∧
    (∃ k, (1 ≤ k)%nat ∧
       (∀ j, (1 ≤ j < k)%nat →
             is_Some (fs !! (ud ++ [candidate "report" ".pdf" j]))) ∧
       fs !! (ud ++ [candidate "report" ".pdf" k]) = None ∧
       r2.1 = Upload.Uploaded
                ("/" +:+ Upload.UPLOAD_FOLDER_NAME cfg +:+ "/" +:+
                   candidate "report" ".pdf" k)
                (Upload.render (ud ++ [candidate "report" ".pdf" k])) ∧
       r2.2 = <[ud ++ [candidate "report" ".pdf" k] := Upload.File d2]>
                (<[ud ++ ["report.pdf"] := Upload.File d1]>
                   (<[ud := Upload.Dir]> fs))) ∧
    (fs !! (ud ++ ["report_1.pdf"]) = None →
     r2.1 = Upload.Uploaded
              ("/" +:+ Upload.UPLOAD_FOLDER_NAME cfg +:+ "/" +:+ "report_1.pdf")
              (Upload.render (ud ++ ["report_1.pdf"])) ∧
     r2.2 !! (ud ++ ["report_1.pdf"]) = Some (Upload.File d2)) ∧
    r2.2 !! (ud ++ ["report.pdf"]) = Some (Upload.File d1).
Proof.
  intros cfg sid c1 c2 d1 d2 fs ud Hready Hf0 Hd1 Hd2 r1 r2.
  destruct (report_pdf_twice cfg sid c1 c2 d1 d2 fs Hready Hf0 Hd1 Hd2)
    as (E1 & k & Hk & Hbefore & Hfree & Hone & E2).
  fold ud in E1, Hbefore, Hfree, Hone, E2. fold r1 in E1, E2. fold r2 in E2.
  assert (Hc : ud ++ [candidate "report" ".pdf" k] ≠ ud ++ ["report.pdf"]).
  { intros E. apply app_inv_head in E. injection E as E.
    pose proof (candidate_has_underscore "report" ".pdf" k) as Hu.
    by rewrite E in Hu. }
  split_and!.
  - by rewrite E1.
  - rewrite E1. simpl. apply lookup_insert_eq.
  - exists k. rewrite E2. by split_and!.
  - intros H1. rewrite (Hone H1) in E2. rewrite E2. simpl.
    split; [done|]. apply lookup_insert_eq.
  - rewrite E2. simpl. rewrite lookup_insert_ne by done.
    apply lookup_insert_eq.
Qed.

Lemma report_pdf_uploaded_twice_witness :
  let r1 := Upload.upload_file_endpoint cfg0
              (upload_request "s1" "report.pdf" "first") fs0 in
  let r2 := Upload.upload_file_endpoint cfg0
              (upload_request "s1" "report.pdf" "second") r1.2 in
  r1.1 = Upload.Uploaded "/uploads/report.pdf" "/ws/s1/uploads/report.pdf" ∧
  r1.2 !! ["ws"; "s1"; "uploads"; "report.pdf"]
    = Some (Upload.File (Upload.Text "first")) ∧
  r2.1 = Upload.Uploaded "/uploads/report_1.pdf" "/ws/s1/uploads/report_1.pdf" ∧
  r2.2 !! ["ws"; "s1"; "uploads"; "report_1.pdf"]
    = Some (Upload.File (Upload.Text "second")) ∧
  r2.2 !! ["ws"; "s1"; "uploads"; "report.pdf"]
    = Some (Upload.File (Upload.Text "first")).
Proof.
  destruct (report_pdf_uploaded_twice cfg0 "s1" "first" "second"
              (Upload.Text "first") (Upload.Text "second") fs0)
    as (H1 & H2 & _ & H3 & H4); try reflexivity.
  destruct (H3 eq_refl) as [H5 H6].
  cbv zeta. split_and!; [exact H1 | exact H2 | exact H5 | exact H6 | exact H4].
Defined.

(** X26: uploading under a simple name that is taken, however many
    earlier uploads collided: the loop tries [stem_1.ext],
    [stem_2.ext], ... and the file is stored under the first of these
    names that is free. Every name before it in the sequence is taken,
    the answer names the new file, and the entry with the original
    name and all other entries stay as they are. *)
Theorem upload_collision_first_free :
  ∀ (cfg : Upload.Config) (sid n content : string) (data : Upload.FileData)
    (fs : gmap (list string) Upload.Node),
    workspace_ready cfg sid fs = true →
    simple_name n = true →
    is_Some (fs !! (upload_dir_of cfg sid ++ [n])) →
    Upload.decode_content cfg content = Some data →
    ∃ k, (1 ≤ k)%nat ∧
      (∀ j, (1 ≤ j < k)%nat →
            is_Some (fs !! (upload_dir_of cfg sid ++
                       [candidate (Upload.stem [n]) (Upload.suffix [n]) j]))) ∧
      fs !! (upload_dir_of cfg sid ++
               [candidate (Upload.stem [n]) (Upload.suffix [n]) k]) = None ∧
      Upload.upload_file_endpoint cfg (upload_request sid n content) fs =
        (Upload.Uploaded
           ("/" +:+ Upload.UPLOAD_FOLDER_NAME cfg +:+ "/" +:+
              candidate (Upload.stem [n]) (Upload.suffix [n]) k)
           (Upload.render
              (upload_dir_of cfg sid ++
                 [candidate (Upload.stem [n]) (Upload.suffix [n]) k])),
         <[upload_dir_of cfg sid ++
             [candidate (Upload.stem [n]) (Upload.suffix [n]) k]
             := Upload.File data]>
           (<[upload_dir_of cfg sid := Upload.Dir]> fs)).
Proof. exact upload_collision. Qed.

Lemma upload_collision_first_free_witness :
  let fs := <[ ["ws"; "s1"; "uploads"; "report_1.pdf"]
                 := Upload.File (Upload.Text "b")]>
              (<[ ["ws"; "s1"; "uploads"; "report.pdf"]
                    := Upload.File (Upload.Text "a")]>
                 (<[ ["ws"; "s1"; "uploads"] := Upload.Dir]> fs0)) in
  (Upload.upload_file_endpoint cfg0 (upload_request "s1" "report.pdf" "c") fs).1
    = Upload.Uploaded "/uploads/report_2.pdf" "/ws/s1/uploads/report_2.pdf" ∧
  ∃ k, (1 ≤ k)%nat ∧
       fs !! (upload_dir_of cfg0 "s1" ++
                [candidate (Upload.stem ["report.pdf"])
                   (Upload.suffix ["report.pdf"]) k]) = None.
Proof.
  intros fs. split; [reflexivity|].
  destruct (upload_collision_first_free cfg0 "s1" "report.pdf" "c"
              (Upload.Text "c") fs)
    as (k & Hk & _ & Hfree & _); try reflexivity.
  - by eexists.
  - exists k. by split.
Defined.

(** X27: an upload that is refused - answered with a status other
    than 500, which is then 400 or 404 - has written no file: the file
    system afterwards differs from the one before at most by
    directories created where nothing was, and it is untouched unless
    the refusal is the one for an empty file path. That one comes only
    after the upload folder has been created. Content that starts with
    ["data:"] but has no comma, or whose part after the first comma the
    decoder rejects, is never answered with success. (Nothing of the
    kind holds for the answers with status 500, which can come after
    the file was opened for writing.) *)
Theorem upload_refusal_writes_no_file :
  (∀ (cfg : Upload.Config) (req : Upload.Request)
     (fs fs' : gmap (list string) Upload.Node) (status : Z) (err : string),
     Upload.upload_file_endpoint cfg req fs
       = (Upload.JSONResponse status err, fs') →
     status ≠ 500 →
     (status = 400 ∨ status = 404) ∧
     only_new_dirs fs fs' ∧
     (err ≠ "File path is required" → fs' = fs)) ∧
  (∀ (cfg : Upload.Config) (sid content : string)
     (fs : gmap (list string) Upload.Node),
     workspace_ready cfg sid fs = true →
     Upload.upload_file_endpoint cfg (upload_request sid "" content) fs =
       (Upload.JSONResponse 400 "File path is required",
        <[upload_dir_of cfg sid := Upload.Dir]> fs)) ∧
  (∀ (cfg : Upload.Config) (sid : option string) (file : Upload.FileInfo)
     (fs : gmap (list string) Upload.Node),
     String.prefix "data:" (Upload.fi_content file) = true →
     match Upload.split_first "," (Upload.fi_content file) with
     | Some (_, encoded) => Upload.b64decode cfg encoded = None
     | None => True
     end →
     ∃ status err,
       (Upload.upload_file_endpoint cfg
          (Upload.mkRequest sid (Some file)) fs).1
         = Upload.JSONResponse status err).
Proof.
  split_and!.
  - intros cfg req fs fs' status err. apply upload_refusal_new_dirs.
  - intros cfg sid content fs. apply upload_empty_path_ready.
  - intros cfg sid file fs Hp Hs. apply upload_undecodable.
    by apply decode_content_None.
Qed.

Lemma upload_refusal_writes_no_file_witness :
  Upload.upload_file_endpoint cfg0 (upload_request "s1" "" "x") fs0 =
    (Upload.JSONResponse 400 "File path is required",
     <[ ["ws"; "s1"; "uploads"] := Upload.Dir]> fs0) ∧
  only_new_dirs fs0 (<[ ["ws"; "s1"; "uploads"] := Upload.Dir]> fs0) ∧
  ∃ status err,
    (Upload.upload_file_endpoint cfg0
       (upload_request "s1" "a.bin" "data:application/pdf;base64") fs0).1
      = Upload.JSONResponse status err.
Proof.
  destruct upload_refusal_writes_no_file as (H1 & H2 & H3).
  pose proof (H2 cfg0 "s1" "x" fs0 eq_refl) as E.
  split; [exact E|]. split.
  - apply (H1 _ _ _ _ _ _ E). discriminate.
  - apply (H3 cfg0 (Some "s1")
             (Upload.mkFileInfo "a.bin" "data:application/pdf;base64") fs0);
      [reflexivity | exact I].
Defined.

Section UploadPaths.
Import Upload.

Implicit Types (fs : gmap (list string) Node) (d p q : list string)
  (n a f : string).

(** ** Paths written with a separator *)

Lemma split_on_nonempty sep s : split_on sep s ≠ [].
Proof.
  destruct s as [|c s]; simpl; [done|].
  destruct (Ascii.eqb c sep); [done|]. by destruct (split_on sep s).
Qed.

Lemma split_on_app sep a b :
  split_on sep (a +:+ String sep b) = split_on sep a ++ split_on sep b.
Proof.
  induction a as [|c a IH]; simpl.
  - by rewrite Ascii.eqb_refl.
  - destruct (Ascii.eqb c sep); [by rewrite IH|].
    rewrite IH. pose proof (split_on_nonempty sep a).
    by destruct (split_on sep a).
Qed.

Lemma parts_app a b : parts (a +:+ String "/" b) = parts a ++ parts b.
Proof. unfold parts. by rewrite split_on_app, List.filter_app. Qed.

Lemma parts_dotdot a f :
  simple_name a = true → simple_name f = true →
  parts (a +:+ "/../" +:+ f) = [a; ".."; f].
Proof.
  intros (_ & Ha & _)%simple_name_spec (_ & Hf & _)%simple_name_spec.
  change (a +:+ "/../" +:+ f) with (a +:+ String "/" (".." +:+ String "/" f)).
  by rewrite !parts_app, Ha, Hf.
Qed.

Lemma is_absolute_app a b : a ≠ "" → is_absolute (a +:+ b) = is_absolute a.
Proof.
  intros Ha. destruct a as [|x a']; [congruence|].
  change (is_absolute (String x a' +:+ b))
    with (if Ascii.ascii_dec "/" x then String.prefix "" (a' +:+ b) else false).
  change (is_absolute (String x a'))
    with (if Ascii.ascii_dec "/" x then String.prefix "" a' else false).
  destruct (Ascii.ascii_dec "/" x); [|done].
  destruct (a' +:+ b); by destruct a'.
Qed.

Lemma append_nonempty a b : a ≠ "" → String.eqb (a +:+ b) "" = false.
Proof. intros Ha. destruct a; [congruence | done]. Qed.

(** ** Resolution below a directory *)

Lemma walk_app fs cur t1 t2 :
  walk fs cur (t1 ++ t2) =
    match walk fs cur t1 with
    | inl e => inl e
    | inr q => walk fs q t2
    end.
Proof.
  revert cur. induction t1 as [|c rest IH]; intros cur; simpl; [done|].
  destruct (node_at fs cur) as [[|data]|]; first [done | apply IH].
Qed.

Lemma resolve_below fs d t :
  directory_chain fs d = true → plain d = true →
  resolve fs (d ++ t) = walk fs d t.
Proof.
  intros Hd Hp. unfold resolve. rewrite walk_app.
  fold (resolve fs d). by rewrite resolve_directory.
Qed.

Lemma walk_missing fs d a c rest :
  node_at fs d = Some Dir → a ≠ ".." → fs !! (d ++ [a]) = None →
  walk fs d (a :: c :: rest) = inl ENOENT.
Proof.
  intros Hd Ha Hnone. simpl. apply String.eqb_neq in Ha.
  by rewrite Hd, Ha, node_at_snoc, Hnone.
Qed.

Lemma walk_there_and_back fs d a rest :
  node_at fs d = Some Dir → a ≠ ".." → fs !! (d ++ [a]) = Some Dir →
  walk fs d (a :: ".." :: rest) = walk fs d rest.
Proof.
  intros Hd Ha Hdir. simpl. apply String.eqb_neq in Ha.
  by rewrite Hd, Ha, node_at_snoc, Hdir, removelast_last.
Qed.

Lemma walk_one fs d f :
  node_at fs d = Some Dir → f ≠ ".." → walk fs d [f] = inr (d ++ [f]).
Proof.
  intros Hd Hf. simpl. apply String.eqb_neq in Hf. by rewrite Hd, Hf.
Qed.

(** ** The cases of [mkdir] *)

Lemma path_mkdir_rec_made depth fs p parents exist_ok fs' :
  os_mkdir fs p = inr fs' →
  path_mkdir_rec depth fs p parents exist_ok = inr fs'.
Proof. intros H. destruct depth; simpl; by rewrite H. Qed.

Lemma path_mkdir_rec_parent depth fs p exist_ok :
  os_mkdir fs p = inl ENOENT → parent p ≠ p →
  path_mkdir_rec (S depth) fs p true exist_ok =
    match path_mkdir_rec depth fs (parent p) true true with
    | inl e => inl e
    | inr fs1 => path_mkdir_rec depth fs1 p false exist_ok
    end.
Proof.
  intros H Hp. simpl. rewrite H. by rewrite bool_decide_eq_false_2.
Qed.

Lemma path_mkdir_rec_exists depth fs p parents :
  os_mkdir fs p = inl EEXIST → path_is_dir fs p = true →
  path_mkdir_rec depth fs p parents true = inr fs.
Proof. intros H Hd. destruct depth; simpl; by rewrite H, Hd. Qed.

(** ** A relative path that does not exist yet *)

Lemma upload_relative_steps cfg sid path content fs :
  workspace_ready cfg sid fs = true →
  String.eqb path "" = false → is_absolute path = false →
  path_exists (<[upload_dir_of cfg sid := Dir]> fs)
    (upload_dir_of cfg sid ++ parts path) = false →
  upload_file_endpoint cfg (upload_request sid path content) fs =
    let fs1 := <[upload_dir_of cfg sid := Dir]> fs in
    let full_path := upload_dir_of cfg sid ++ parts path in
    match path_mkdir fs1 (parent full_path) with
    | inl (e, fs2) => (server_error (os_error_str e), fs2)
    | inr fs2 =>
        match decode_content cfg content with
        | None => (server_error "cannot decode content", fs2)
        | Some data =>
            match write_file fs2 full_path data with
            | inl e => (server_error (os_error_str e), fs2)
            | inr fs3 =>
                (Uploaded ("/" +:+ UPLOAD_FOLDER_NAME cfg +:+ "/" +:+ path)
                          (render full_path), fs3)
            end
        end
    end.
Proof.
  intros Hready Hne Hrel Hnew.
  destruct (workspace_ready_facts cfg sid fs Hready)
    as (Hsid & Hup & Hud & HpW & Hpud & HchW & Hmk & Hch1).
  set (ud := upload_dir_of cfg sid) in *.
  unfold upload_file_endpoint, upload_request. simpl.
  rewrite (simple_name_nonempty sid Hsid).
  rewrite (simple_name_joinpath _ sid Hsid).
  rewrite (path_exists_directory fs _ HchW HpW). simpl.
  rewrite (simple_name_joinpath _ _ Hup), <- Hud, Hmk, Hne.
  assert (Hj : joinpath ud path = ud ++ parts path).
  { unfold joinpath. by rewrite Hrel. }
  by rewrite Hrel, !Hj, Hnew.
Qed.

(** The target goes down into a directory that does not exist and up
    again: the existence check fails on the way down, [mkdir] creates
    the directory, and the write then arrives at the file. *)
Lemma upload_dotdot cfg sid a f content data old fs :
  workspace_ready cfg sid fs = true →
  simple_name a = true → simple_name f = true →
  fs !! (upload_dir_of cfg sid ++ [a]) = None →
  fs !! (upload_dir_of cfg sid ++ [f]) = Some (File old) →
  decode_content cfg content = Some data →
  upload_file_endpoint cfg
    (upload_request sid (a +:+ "/../" +:+ f) content) fs =
    (Uploaded ("/" +:+ UPLOAD_FOLDER_NAME cfg +:+ "/" +:+ a +:+ "/../" +:+ f)
              (render (upload_dir_of cfg sid ++ [a; ".."; f])),
     <[upload_dir_of cfg sid ++ [f] := File data]>
       (<[upload_dir_of cfg sid ++ [a] := Dir]>
          (<[upload_dir_of cfg sid := Dir]> fs))).
Proof.
  intros Hready Hsa Hsf Ha Hf Hdec.
  destruct (workspace_ready_facts cfg sid fs Hready)
    as (Hsid & Hup & Hud & HpW & Hpud & HchW & Hmk & Hch1).
  pose proof Hsa as (Habs & _ & Ha')%simple_name_spec.
  pose proof Hsf as (_ & _ & Hf')%simple_name_spec.
  pose proof (simple_name_nonempty a Hsa) as Hane%String.eqb_neq.
  set (ud := upload_dir_of cfg sid) in *.
  set (fs1 := <[ud := Dir]> fs) in *.
  set (fs2 := <[ud ++ [a] := Dir]> fs1).
  assert (Haf : a ≠ f) by (intros ->; congruence).
  assert (Hd1 : node_at fs1 ud = Some Dir) by by apply directory_chain_self.
  assert (Hch2 : directory_chain fs2 ud = true)
    by by apply directory_chain_insert_dir.
  assert (Hd2 : node_at fs2 ud = Some Dir) by by apply directory_chain_self.
  assert (Ha1 : fs1 !! (ud ++ [a]) = None).
  { unfold fs1. by rewrite lookup_insert_ne by apply snoc_ne. }
  assert (Ha2 : fs2 !! (ud ++ [a]) = Some Dir) by apply lookup_insert_eq.
  assert (Hf2 : fs2 !! (ud ++ [f]) = Some (File old)).
  { unfold fs2, fs1. rewrite !lookup_insert_ne; [done | apply snoc_ne |].
    intros E. apply app_inv_head in E. congruence. }
  assert (Hup2 : resolve fs2 (ud ++ [a; ".."]) = inr ud).
  { rewrite resolve_below by done. by rewrite walk_there_and_back. }
  assert (Hex : path_exists fs1 (ud ++ [a; ".."; f]) = false).
  { unfold path_exists. rewrite resolve_below by done.
    by rewrite walk_missing. }
  assert (Hmkdir : path_mkdir fs1 (ud ++ [a; ".."]) = inr fs2).
  { unfold path_mkdir.
    change (ud ++ [a; ".."]) with (ud ++ [a] ++ [".."]). rewrite app_assoc.
    rewrite path_mkdir_rec_parent.
    - rewrite parent_snoc.
      rewrite (path_mkdir_rec_made _ fs1 (ud ++ [a]) true true fs2).
      + rewrite <- app_assoc. simpl. apply path_mkdir_rec_exists.
        * unfold os_mkdir. by rewrite Hup2, Hd2.
        * unfold path_is_dir. by rewrite Hup2, Hd2.
      + unfold os_mkdir. rewrite resolve_child, node_at_snoc, Ha1 by done.
        done.
    - unfold os_mkdir. rewrite <- app_assoc. simpl.
      rewrite resolve_below by done. by rewrite walk_missing.
    - rewrite parent_snoc. apply snoc_ne. }
  assert (Hw : write_file fs2 (ud ++ [a; ".."; f]) data =
               inr (<[ud ++ [f] := File data]> fs2)).
  { unfold write_file. rewrite resolve_below by done.
    rewrite walk_there_and_back, walk_one by done.
    by rewrite node_at_snoc, Hf2. }
  rewrite upload_relative_steps; try done.
  - rewrite parts_dotdot by done. fold ud. fold fs1. cbv zeta.
    change (ud ++ [a; ".."; f]) with (ud ++ [a; ".."] ++ [f]) at 1.
    rewrite app_assoc, parent_snoc, Hmkdir, Hdec.
    by rewrite Hw.
  - by apply append_nonempty.
  - by rewrite is_absolute_app.
  - rewrite parts_dotdot by done. exact Hex.
Qed.

(** ** create_workspace_manager_for_connection *)

Lemma path_is_dir_exists fs p :
  path_is_dir fs p = true → path_exists fs p = true.
Proof.
  unfold path_is_dir, path_exists. destruct (resolve fs p) as [e|q]; [done|].
  by destruct (node_at fs q) as [[|data]|].
Qed.

Lemma index_of_first x pre post :
  x ∉ pre → index_of x (pre ++ x :: post) = Some (length pre).
Proof.
  induction pre as [|y pre IH]; simpl; intros H.
  - by rewrite String.eqb_refl.
  - apply not_elem_of_cons in H as [Hne H].
    rewrite (proj2 (String.eqb_neq y x)) by done. by rewrite IH.
Qed.

Lemma index_of_None x l : x ∉ l → index_of x l = None.
Proof.
  induction l as [|y l IH]; simpl; intros H; [done|].
  apply not_elem_of_cons in H as [Hne H].
  rewrite (proj2 (String.eqb_neq y x)) by done. by rewrite IH.
Qed.

Lemma upload_not_404 cfg sid file fs st err :
  path_exists fs (joinpath (workspace cfg) sid) = true →
  (upload_file_endpoint cfg (mkRequest (Some sid) (Some file)) fs).1
    = JSONResponse st err →
  st ≠ 404.
Proof.
  intros Hex. unfold upload_file_endpoint. simpl. rewrite Hex. simpl.
  destruct (String.eqb sid ""); [by intros [= <- <-]|].
  destruct (path_mkdir fs _) as [[e ?]|fs1]; [by intros [= <- <-]|].
  destruct (String.eqb (fi_path file) ""); [by intros [= <- <-]|].
  match goal with
  | |- context [match ?r with Some _ => _ | None => _ end] =>
      destruct r as [[full_path file_path']|]
  end; [|by intros [= <- <-]].
  destruct (path_mkdir fs1 (parent full_path)) as [[e ?]|fs2];
    [by intros [= <- <-]|].
  destruct (decode_content cfg (fi_content file)) as [data|];
    [|by intros [= <- <-]].
  destruct (write_file fs2 full_path data) as [e|fs3]; [|done].
  by intros [= <- <-].
Qed.

Lemma workspace_created cwd base flag uuid fs root u fs' :
  create_workspace_manager_for_connection cwd base flag uuid fs
    = inr (root, u, fs') →
  let dir := joinpath (path_resolve cwd base) uuid in
  u = uuid ∧
  path_is_dir fs' dir = true ∧
  only_new_dirs fs fs' ∧
  (flag = false ∨ "app" ∉ parts base → root = dir) ∧
  (∀ pre post,
     flag = true → parts base = pre ++ "app" :: post → "app" ∉ pre →
     root = joinpath post uuid) ∧
  (∀ cfg file st err,
     workspace cfg = path_resolve cwd base →
     (upload_file_endpoint cfg (mkRequest (Some uuid) (Some file)) fs').1
       = JSONResponse st err →
     st ≠ 404).
Proof.
  intros H dir. unfold create_workspace_manager_for_connection in H.
  cbv zeta in H. fold dir in H.
  destruct (path_mkdir fs dir) as [[e ?]|fs1] eqn:Emk; [done|].
  injection H as Hroot <- <-.
  destruct (path_mkdir_rec_ok _ _ _ _ _ _ Emk) as [_ Hdir].
  split_and!; try done.
  - by apply path_mkdir_rec_new_dirs in Emk.
  - intros [->|Happ]; [done|]. rewrite index_of_None in Hroot by done.
    by destruct flag.
  - intros pre post -> Hparts Hpre.
    rewrite Hparts, index_of_first in Hroot by done. rewrite <- Hroot.
    f_equal. rewrite cons_middle, app_assoc.
    replace (S (length pre)) with (length (pre ++ ["app"]))
      by (rewrite length_app; simpl; lia).
    apply drop_app_length.
  - intros cfg file st err Hws. apply upload_not_404.
    rewrite Hws. by apply path_is_dir_exists.
Qed.

End UploadPaths.

(** X28: the collision check can be passed by. With [a] a name that
    does not exist in the upload folder and [f] a file that does, an
    upload to the path [a/../f] finds no collision (the check fails on
    the missing directory [a]), creates the directory [a], and then
    writes through it onto [f]: the existing file is overwritten with
    the new content instead of a new name being chosen. *)
Theorem upload_overwrites_through_dotdot :
  ∀ (cfg : Upload.Config) (sid a f content : string)
    (data old : Upload.FileData) (fs : gmap (list string) Upload.Node),
    workspace_ready cfg sid fs = true →
    simple_name a = true → simple_name f = true →
    fs !! (upload_dir_of cfg sid ++ [a]) = None →
    fs !! (upload_dir_of cfg sid ++ [f]) = Some (Upload.File old) →
    Upload.decode_content cfg content = Some data →
    Upload.upload_file_endpoint cfg
      (upload_request sid (a +:+ "/../" +:+ f) content) fs =
      (Upload.Uploaded
         ("/" +:+ Upload.UPLOAD_FOLDER_NAME cfg +:+ "/" +:+ a +:+ "/../" +:+ f)
         (Upload.render (upload_dir_of cfg sid ++ [a; ".."; f])),
       <[upload_dir_of cfg sid ++ [f] := Upload.File data]>
         (<[upload_dir_of cfg sid ++ [a] := Upload.Dir]>
            (<[upload_dir_of cfg sid := Upload.Dir]> fs))).
Proof. exact upload_dotdot. Qed.

Lemma upload_overwrites_through_dotdot_witness :
  let fs := <[ ["ws"; "s1"; "uploads"; "report.pdf"]
                 := Upload.File (Upload.Text "old")]>
              (<[ ["ws"; "s1"; "uploads"] := Upload.Dir]> fs0) in
  let r := Upload.upload_file_endpoint cfg0
             (upload_request "s1" "tmp/../report.pdf" "new") fs in
  r.1 = Upload.Uploaded "/uploads/tmp/../report.pdf"
          "/ws/s1/uploads/tmp/../report.pdf" ∧
  r.2 !! ["ws"; "s1"; "uploads"; "report.pdf"]
    = Some (Upload.File (Upload.Text "new")).
Proof.
  intros fs r. unfold r.
  change "tmp/../report.pdf" with ("tmp" +:+ "/../" +:+ "report.pdf").
  rewrite (upload_overwrites_through_dotdot cfg0 "s1" "tmp" "report.pdf" "new"
             (Upload.Text "new") (Upload.Text "old") fs);
    try reflexivity.
  split; [reflexivity|]. apply lookup_insert_eq.
Defined.

(** X29: when [create_workspace_manager_for_connection] returns, the
    connection's directory [<resolved base>/<uuid>] is a directory, and
    nothing but directories has been created. An upload that names the
    uuid as its session id is then not answered 404. The root handed to
    the workspace manager is that directory, unless the container flag
    is set and the base path has a component ["app"]: then the root is
    what follows the first ["app"] in the base path as given, with the
    uuid appended - a path that need not be the directory created. *)
Theorem workspace_for_connection :
  ∀ (cwd : list string) (base : string) (flag : bool) (uuid : string)
    (fs : gmap (list string) Upload.Node) (root : list string) (u : string)
    (fs' : gmap (list string) Upload.Node),
    Upload.create_workspace_manager_for_connection cwd base flag uuid fs
      = inr (root, u, fs') →
    let dir := Upload.joinpath (Upload.path_resolve cwd base) uuid in
    u = uuid ∧
    Upload.path_is_dir fs' dir = true ∧
    only_new_dirs fs fs' ∧
    (flag = false ∨ "app" ∉ Upload.parts base → root = dir) ∧
    (∀ pre post,
       flag = true → Upload.parts base = pre ++ "app" :: post →
       "app" ∉ pre →
       root = Upload.joinpath post uuid) ∧
    (∀ (cfg : Upload.Config) (file : Upload.FileInfo) (st : Z) (err : string),
       Upload.workspace cfg = Upload.path_resolve cwd base →
       (Upload.upload_file_endpoint cfg
          (Upload.mkRequest (Some uuid) (Some file)) fs').1
         = Upload.JSONResponse st err →
       st ≠ 404).
Proof. exact workspace_created. Qed.

Lemma workspace_for_connection_witness :
  let fs' := <[ ["app"; "workspace"; "u1"] := Upload.Dir]>
               (<[ ["app"; "workspace"] := Upload.Dir]>
                  (<[ ["app"] := Upload.Dir]> ∅)) in
  Upload.create_workspace_manager_for_connection ["srv"] "/app/workspace"
    true "u1" ∅ = inr (["workspace"; "u1"], "u1", fs') ∧
  Upload.path_is_dir fs' ["app"; "workspace"; "u1"] = true ∧
  only_new_dirs ∅ fs'.
Proof.
  intros fs'.
  assert (E : Upload.create_workspace_manager_for_connection ["srv"]
                "/app/workspace" true "u1" ∅
              = inr (["workspace"; "u1"], "u1", fs'))
    by reflexivity.
  destruct (workspace_for_connection _ _ _ _ _ _ _ _ E)
    as (_ & Hdir & Hnew & _).
  split; [exact E|]. split; [exact Hdir | exact Hnew].
Defined.
(* ===================================================================== *)
(** * Composite session ids                                              *)
(* ===================================================================== *)

Section CompositeIds.

Lemma string_append_assoc (a b c : string) :
  (a +:+ b) +:+ c = a +:+ (b +:+ c).
Proof.
  induction a as [|x a IH]; [done|].
  change (String x ((a +:+ b) +:+ c) = String x (a +:+ (b +:+ c))).
  by f_equal.
Qed.

Lemma string_append_longer (a b : string) : b ≠ "" → a +:+ b ≠ a.
Proof.
  intros Hb E. apply (f_equal String.length) in E.
  rewrite string_length_app in E. destruct b; [done|]. simpl in E. lia.
Qed.

(** The context a successful handshake hands to the dispatch loop. *)
Lemma handshake_ready_ctx ws h env s cx s' :
  websocket_endpoint_handshake ws h env s = (Return (Ready cx), s') →
  ∃ uid dev,
    fetch_user_id (he_http env) = Some uid ∧
    h_X_Device_ID h = Some dev ∧ dev ≠ "" ∧
    cx = mkConnCtx ws (py_str uid) dev (py_str uid +:+ "_" +:+ dev)
           (he_workspace_session_uuid env) (Some (he_workspace_root env)).
Proof.
  rewrite handshake_after_accept.
  assert (Hfail : ∀ msg,
    (accept ws ;; send_json Handler ws (error_event msg) ;;
     close ws ;; mret Returned) s ≠ (Return (Ready cx), s')).
  { intros msg. unfold mbind, M_bind, accept, modify. simpl.
    rewrite send_json_connected by (simpl; apply lookup_insert_eq).
    unfold close, modify, mret, M_ret. simpl. congruence. }
  destruct (fetch_user_id (he_http env)) as [uid|]; [|by intros ?%Hfail].
  destruct (h_X_Device_ID h) as [dev|]; [|by intros ?%Hfail].
  destruct (String.eqb dev "") eqn:Hdev; [by intros ?%Hfail|].
  apply String.eqb_neq in Hdev.
  unfold mbind, M_bind, accept, modify, try_except, raise. simpl.
  destruct (he_get_client_error env) as [err|]; simpl; [done|].
  rewrite send_json_connected by (simpl; apply lookup_insert_eq).
  unfold mret, M_ret. intros [= <- _]. by exists uid, dev.
Qed.

(** Two contexts with one session id and different users: the
    document that [init_agent] writes for one of them is not the
    other's. *)
Lemma init_agent_takes_session cxA cxB orc content s :
  cx_composite_session_id cxA = cx_composite_session_id cxB →
  cx_user_id cxA ≠ cx_user_id cxB →
  (∀ err, o_init orc ≠ DbUnavailable err) →
  let s' := loop_state
              (loop_iteration cxB orc (Data (Message "init_agent" content)) s) in
  session_bound cxB s' ∧ ¬ session_bound cxA s'.
Proof.
  intros Hid Hu Hdb s'.
  pose proof (init_agent_binds_session cxB orc content s Hdb) as HB.
  split; [exact HB|].
  destruct HB as (doc & Hdoc & HuB & _).
  intros (doc' & Hdoc' & HuA & _). fold s' in Hdoc.
  rewrite Hid, Hdoc in Hdoc'. congruence.
Qed.

Lemma handshake_ids_collide wsA wsB hA hB envA envB sA sB sA' sB' cxA cxB x :
  websocket_endpoint_handshake wsA hA envA sA = (Return (Ready cxA), sA') →
  websocket_endpoint_handshake wsB hB envB sB = (Return (Ready cxB), sB') →
  cx_user_id cxA = cx_user_id cxB +:+ "_" +:+ x →
  cx_device_id cxB = x +:+ "_" +:+ cx_device_id cxA →
  cx_user_id cxA ≠ cx_user_id cxB ∧
  cx_composite_session_id cxA = cx_composite_session_id cxB.
Proof.
  intros (uA & dA & _ & _ & _ & ->)%handshake_ready_ctx
         (uB & dB & _ & _ & _ & ->)%handshake_ready_ctx.
  simpl. intros -> ->. split.
  - by apply string_append_longer.
  - apply (string_append_assoc (py_str uB) (String "_" x) (String "_" dA)).
Qed.

End CompositeIds.

(** X30: the composite session id [<user_id>_<device_id>] does not
    determine the pair it was built from. A connection of user [u_x]
    with device [d] and a connection of user [u] with device [x_d]
    both pass the handshake with the same session id, although their
    users differ. When the second handles [init_agent], the one
    session document under that id becomes its own: the first
    connection's user and device no longer have the document they
    created. *)
Theorem composite_session_id_collision :
  ∀ (wsA wsB : nat) (hA hB : Headers) (envA envB : HandshakeEnv)
    (sA sB sA' sB' : Server) (cxA cxB : ConnCtx) (x : string),
    websocket_endpoint_handshake wsA hA envA sA = (Return (Ready cxA), sA') →
    websocket_endpoint_handshake wsB hB envB sB = (Return (Ready cxB), sB') →
    cx_user_id cxA = cx_user_id cxB +:+ "_" +:+ x →
    cx_device_id cxB = x +:+ "_" +:+ cx_device_id cxA →
    cx_user_id cxA ≠ cx_user_id cxB ∧
    cx_composite_session_id cxA = cx_composite_session_id cxB ∧
    ∀ (orc : Oracle) (content : Content) (s : Server),
      (∀ err, o_init orc ≠ DbUnavailable err) →
      let s' := loop_state
                  (loop_iteration cxB orc
                     (Data (Message "init_agent" content)) s) in
      session_bound cxB s' ∧ ¬ session_bound cxA s'.
Proof.
  intros wsA wsB hA hB envA envB sA sB sA' sB' cxA cxB x HA HB Hu Hd.
  destruct (handshake_ids_collide _ _ _ _ _ _ _ _ _ _ _ _ _ HA HB Hu Hd)
    as [Hne Hid].
  split_and!; [done..|].
  intros orc content s Hdb. by apply init_agent_takes_session.
Qed.

Lemma composite_session_id_collision_witness :
  let envA := mkHandshakeEnv
                (Response 200 (JsonObject [("user_id", PyStr "a_b")]))
                "uuid-1" "/ws/uuid-1" None in
  let envB := mkHandshakeEnv
                (Response 200 (JsonObject [("user_id", PyStr "a")]))
                "uuid-2" "/ws/uuid-2" None in
  let hA := mkHeaders None None None (Some "c") in
  let hB := mkHeaders None None None (Some "b_c") in
  let cxA := mkConnCtx 0 "a_b" "c" "a_b_c" "uuid-1" (Some "/ws/uuid-1") in
  let cxB := mkConnCtx 1 "a" "b_c" "a_b_c" "uuid-2" (Some "/ws/uuid-2") in
  let s' := loop_state
              (loop_iteration cxB calm
                 (Data (Message "init_agent" query_hello)) initial) in
  (websocket_endpoint_handshake 0%nat hA envA initial).1 = Return (Ready cxA) ∧
  (websocket_endpoint_handshake 1%nat hB envB initial).1 = Return (Ready cxB) ∧
  session_bound cxB s' ∧ ¬ session_bound cxA s'.
Proof.
  intros envA envB hA hB cxA cxB s'.
  split; [reflexivity|]. split; [reflexivity|].
  destruct (composite_session_id_collision 0%nat 1%nat hA hB envA envB
              initial initial
              (websocket_endpoint_handshake 0%nat hA envA initial).2
              (websocket_endpoint_handshake 1%nat hB envB initial).2
              cxA cxB "b" eq_refl eq_refl eq_refl eq_refl) as (_ & _ & H).
  apply H. intros err. discriminate.
Defined.
